(** * The query builder of [pkg/orm/orm.go], embedded in Rocq

    The development follows the Go source file by file:

    - [GoRuntime] gives the few pieces of the Go runtime and standard
      library that [orm.go] calls: the 64-bit [int], UTF-8 decoding as the
      [range] loop over a string performs it, [strings.Map],
      [strings.ToUpper], [strings.Join] and the [%d] verb of [fmt.Sprintf];
    - [Orm] embeds the data types of [orm.go] and its functions that
      build, render and run a statement;
    - [PrepareRace] is the interleaving semantics of [prepareQuery] run by
      several goroutines over one statement cache.

    A Go [string] is a sequence of bytes: it is a Rocq [string], whose
    characters are the bytes. *)

From Stdlib Require Import ZArith Ascii String List Lia Bool.
From stdpp Require Import base tactics option list gmap strings pretty fin_maps.

Local Open Scope Z_scope.

(** ** The Go runtime and standard library, as far as [orm.go] uses them *)
Module GoRuntime.

(** A [rune] is an [int32]; every rune that decoding produces lies in
    [0, 0x10FFFF], and the only negative rune the program makes is [-1]. *)
Definition rune := Z.

(** Go's [int] is 64 bits wide on the platforms the program targets;
    arithmetic wraps around in two's complement. *)
Definition int := Z.
Definition MaxInt : Z := 2 ^ 63 - 1.
Definition MinInt : Z := - 2 ^ 63.
Definition wrap_int (x : Z) : int := (x + 2 ^ 63) mod 2 ^ 64 - 2 ^ 63.

(** [i++] on an [int]. *)
Definition incr (i : int) : int := wrap_int (i + 1).

(** [len] of a slice, as an [int]. *)
Definition len {A} (l : list A) : int := Z.of_nat (length l).

(** [len] of a map. *)
Definition len_map {A} (m : gmap string A) : int := Z.of_nat (size m).

Definition byte_val (a : ascii) : Z := Z.of_N (N_of_ascii a).
Definition byte_of (z : Z) : ascii := ascii_of_N (Z.to_N (z mod 256)).

(** *** [unicode/utf8] *)
Definition RuneError : rune := 0xFFFD.
Definition RuneSelf : Z := 0x80.
Definition MaxRune : rune := 0x10FFFF.
Definition surrogateMin : Z := 0xD800.
Definition surrogateMax : Z := 0xDFFF.

Definition tx : Z := 0x80.
Definition t2 : Z := 0xC0.
Definition t3 : Z := 0xE0.
Definition t4 : Z := 0xF0.
Definition maskx : Z := 0x3F.
Definition mask2 : Z := 0x1F.
Definition mask3 : Z := 0x0F.
Definition mask4 : Z := 0x07.
Definition rune1Max : Z := 2 ^ 7 - 1.
Definition rune2Max : Z := 2 ^ 11 - 1.
Definition rune3Max : Z := 2 ^ 16 - 1.
Definition locb : Z := 0x80.
Definition hicb : Z := 0xBF.

(** The entries of the table [first]: the low three bits are the length of
    the sequence, the high four bits index [acceptRanges]. *)
Definition xx : Z := 0xF1.
Definition as_ : Z := 0xF0.
Definition s1 : Z := 0x02.
Definition s2 : Z := 0x13.
Definition s3 : Z := 0x03.
Definition s4 : Z := 0x23.
Definition s5 : Z := 0x34.
Definition s6 : Z := 0x04.
Definition s7 : Z := 0x44.

(** [first[b]], the information about the first byte of a sequence. *)
Definition first (b : Z) : Z :=
  if b <? 0x80 then as_
  else if b <? 0xC2 then xx
  else if b <? 0xE0 then s1
  else if b =? 0xE0 then s2
  else if b <? 0xED then s3
  else if b =? 0xED then s4
  else if b <? 0xF0 then s3
  else if b =? 0xF0 then s5
  else if b <? 0xF4 then s6
  else if b =? 0xF4 then s7
  else xx.

(** [acceptRanges[i]], the bounds of the second byte of a sequence. *)
Definition acceptRanges (i : Z) : Z * Z :=
  if i =? 0 then (locb, hicb)
  else if i =? 1 then (0xA0, hicb)
  else if i =? 2 then (locb, 0x9F)
  else if i =? 3 then (0x90, hicb)
  else if i =? 4 then (locb, 0x8F)
  else (0, 0).

(** [utf8.DecodeRuneInString]: the first rune of [s] and its width in bytes;
    [(RuneError, 0)] on the empty string and [(RuneError, 1)] on a byte
    that starts no well-formed sequence. *)
Definition DecodeRuneInString (s : string) : rune * nat :=
  match s with
  | EmptyString => (RuneError, 0%nat)
  | String c0 r0 =>
    let b0 := byte_val c0 in
    let x := first b0 in
    if as_ <=? x then
      (if x =? xx then RuneError else b0, 1%nat)
    else
      let sz := Z.land x 7 in
      let accept := acceptRanges (Z.shiftr x 4) in
      match r0 with
      | EmptyString => (RuneError, 1%nat)
      | String c1 r1 =>
        let b1 := byte_val c1 in
        if (b1 <? fst accept) || (snd accept <? b1) then (RuneError, 1%nat)
        else if sz <=? 2 then
          (Z.lor (Z.shiftl (Z.land b0 mask2) 6) (Z.land b1 maskx), 2%nat)
        else
          match r1 with
          | EmptyString => (RuneError, 1%nat)
          | String c2 r2 =>
            let b2 := byte_val c2 in
            if (b2 <? locb) || (hicb <? b2) then (RuneError, 1%nat)
            else if sz <=? 3 then
              (Z.lor (Z.lor (Z.shiftl (Z.land b0 mask3) 12)
                            (Z.shiftl (Z.land b1 maskx) 6))
                     (Z.land b2 maskx), 3%nat)
            else
              match r2 with
              | EmptyString => (RuneError, 1%nat)
              | String c3 _ =>
                let b3 := byte_val c3 in
                if (b3 <? locb) || (hicb <? b3) then (RuneError, 1%nat)
                else
                  (Z.lor (Z.lor (Z.lor (Z.shiftl (Z.land b0 mask4) 18)
                                       (Z.shiftl (Z.land b1 maskx) 12))
                                (Z.shiftl (Z.land b2 maskx) 6))
                         (Z.land b3 maskx), 4%nat)
              end
          end
      end
  end.

(** [for _, c := range s]: the runes of [s] in order. A rune of width [w]
    is decoded at its first byte and the next [w - 1] bytes are passed
    over; [skip] counts the bytes still to pass over. *)
Fixpoint range_from (skip : nat) (s : string) : list rune :=
  match s with
  | EmptyString => []
  | String _ rest =>
    match skip with
    | S k => range_from k rest
    | O => let '(r, w) := DecodeRuneInString s in
           r :: range_from (Nat.pred w) rest
    end
  end.

Definition range_string (s : string) : list rune := range_from 0 s.

(** [utf8.AppendRune], the encoding of a rune that is not negative. *)
Definition encodeRune (r : rune) : string :=
  if r <=? rune1Max then String (byte_of r) EmptyString
  else if r <=? rune2Max then
    String (byte_of (Z.lor t2 (Z.shiftr r 6)))
      (String (byte_of (Z.lor tx (Z.land r maskx))) EmptyString)
  else
    let r' := if (MaxRune <? r) || ((surrogateMin <=? r) && (r <=? surrogateMax))
              then RuneError else r in
    if r' <=? rune3Max then
      String (byte_of (Z.lor t3 (Z.shiftr r' 12)))
        (String (byte_of (Z.lor tx (Z.land (Z.shiftr r' 6) maskx)))
          (String (byte_of (Z.lor tx (Z.land r' maskx))) EmptyString))
    else
      String (byte_of (Z.lor t4 (Z.shiftr r' 18)))
        (String (byte_of (Z.lor tx (Z.land (Z.shiftr r' 12) maskx)))
          (String (byte_of (Z.lor tx (Z.land (Z.shiftr r' 6) maskx)))
            (String (byte_of (Z.lor tx (Z.land r' maskx))) EmptyString))).

(** *** [strings] *)

(** [strings.Map]: every rune of [s] is replaced by its image under
    [mapping]; a rune whose image is negative is dropped. *)
Definition write_mapped (mapping : rune -> rune) (r : rune) : string :=
  let r' := mapping r in
  if 0 <=? r' then encodeRune r' else EmptyString.

Fixpoint concat_strings (l : list string) : string :=
  match l with
  | [] => EmptyString
  | s :: rest => s +:+ concat_strings rest
  end.

Definition strings_Map (mapping : rune -> rune) (s : string) : string :=
  concat_strings (List.map (write_mapped mapping) (range_string s)).

(** [items] one after the other, with [sep] before each but the first, and
    before the first too when [lead] is set: what a loop writes that puts
    a separator before an element on a condition. *)
Fixpoint separated (sep : string) (lead : bool) (items : list string) : string :=
  match items with
  | [] => EmptyString
  | x :: rest =>
    (if lead then sep else EmptyString) +:+ x +:+ separated sep true rest
  end.

(** [strings.Join]. *)
Fixpoint strings_Join (elems : list string) (sep : string) : string :=
  match elems with
  | [] => EmptyString
  | [s] => s
  | s :: rest => s +:+ sep +:+ strings_Join rest sep
  end.

Fixpoint all_bytes (p : ascii -> bool) (s : string) : bool :=
  match s with
  | EmptyString => true
  | String a rest => p a && all_bytes p rest
  end.

Fixpoint map_bytes (f : ascii -> ascii) (s : string) : string :=
  match s with
  | EmptyString => EmptyString
  | String a rest => String (f a) (map_bytes f rest)
  end.

Fixpoint filter_bytes (p : ascii -> bool) (s : string) : string :=
  match s with
  | EmptyString => EmptyString
  | String a rest =>
    if p a then String a (filter_bytes p rest) else filter_bytes p rest
  end.

Section ToUpper.
(** [unicode.ToUpper] consults the case tables of the Unicode database
    for a rune above [MaxASCII]; the tables are data of the Go
    distribution, and the development is parametric in them. *)
Variable unicode_upper_table : rune -> rune.

Definition MaxASCII : rune := 0x7F.

(** [unicode.ToUpper]. *)
Definition unicode_ToUpper (r : rune) : rune :=
  if r <=? MaxASCII then
    if (97 <=? r) && (r <=? 122) then r - 32 else r
  else unicode_upper_table r.

Definition upper_byte (a : ascii) : ascii :=
  let c := byte_val a in
  if (97 <=? c) && (c <=? 122) then byte_of (c - 32) else a.

(** [strings.ToUpper]: a string of ASCII bytes is mapped byte by byte,
    any other string goes through [strings.Map]. *)
Definition strings_ToUpper (s : string) : string :=
  if all_bytes (fun a => byte_val a <? RuneSelf) s
  then map_bytes upper_byte s
  else strings_Map unicode_ToUpper s.
End ToUpper.

(** The next [k] bytes of [s] are there and none of them is an ASCII byte:
    what holds of the bytes that follow the first byte of a sequence. *)
Fixpoint continues (k : nat) (s : string) : Prop :=
  match k with
  | O => True
  | S k' => match s with
            | EmptyString => False
            | String c r => 128 <= byte_val c /\ continues k' r
            end
  end.

(** *** [fmt] *)

(** The verb [%d] of [fmt.Sprintf] at an [int]: the decimal digits, with a
    leading minus sign on a negative number. *)
Definition Sprintf_d (i : int) : string := pretty i.

End GoRuntime.

(** ** [pkg/orm/orm.go] *)
Module Orm.
Import GoRuntime.

(** *** Data *)

(** A value of type [interface{}] that the builder binds or the driver
    returns: the dynamically typed values of [database/sql]. *)
Inductive any : Type :=
  | Nil
  | Int (i : Z)
  | Str (s : string)
  | Bool (b : bool)
  | Time (t : Z).

Global Instance any_eq_dec : EqDecision any.
Proof. solve_decision. Defined.

(** The errors of the package, the errors that [database/sql] reports, and
    the two shapes of [fmt.Errorf] the file uses: with a wrapped cause
    ([%w]) and without one. *)
Inductive error : Type :=
  | ErrNoRows
  | ErrInvalidOperator
  | ErrInvalidValue
  | SqlError (msg : string)
  | Errorf (msg : string)
  | Errorf_w (msg : string) (cause : error).

Global Instance error_eq_dec : EqDecision error.
Proof. solve_decision. Defined.

(** [context.Context]: the background context, or one a caller made. *)
Inductive Context : Type :=
  | Background
  | Derived (id : nat).

Record whereClause : Type := {
  column : string;
  operator : string;
  value : any
}.

Record joinClause : Type := {
  joinTable : string;
  joinType : string;
  joinCondition : string;
  joinArgs : list any
}.

Record havingClause : Type := {
  havingCondition : string;
  havingArgs : list any
}.

Record Query : Type := {
  table : string;
  selections : list string;
  wheres : list whereClause;
  orWheres : list whereClause;
  joins : list joinClause;
  limit : int;
  offset : int;
  orderBy : string;
  orderDir : string;
  groupBy : list string;
  having : list havingClause
}.

(** A [Model]. Its field [db] points to the one [Orm] of the process,
    which is part of the [World] below. *)
Record Model : Type := {
  query : Query;
  ctx : Context
}.

Definition set_selections (l : list string) (q : Query) : Query :=
  {| table := table q; selections := l; wheres := wheres q;
     orWheres := orWheres q; joins := joins q; limit := limit q;
     offset := offset q; orderBy := orderBy q; orderDir := orderDir q;
     groupBy := groupBy q; having := having q |}.

Definition set_wheres (l : list whereClause) (q : Query) : Query :=
  {| table := table q; selections := selections q; wheres := l;
     orWheres := orWheres q; joins := joins q; limit := limit q;
     offset := offset q; orderBy := orderBy q; orderDir := orderDir q;
     groupBy := groupBy q; having := having q |}.

Definition set_orWheres (l : list whereClause) (q : Query) : Query :=
  {| table := table q; selections := selections q; wheres := wheres q;
     orWheres := l; joins := joins q; limit := limit q;
     offset := offset q; orderBy := orderBy q; orderDir := orderDir q;
     groupBy := groupBy q; having := having q |}.

Definition set_joins (l : list joinClause) (q : Query) : Query :=
  {| table := table q; selections := selections q; wheres := wheres q;
     orWheres := orWheres q; joins := l; limit := limit q;
     offset := offset q; orderBy := orderBy q; orderDir := orderDir q;
     groupBy := groupBy q; having := having q |}.

Definition set_limit (n : int) (q : Query) : Query :=
  {| table := table q; selections := selections q; wheres := wheres q;
     orWheres := orWheres q; joins := joins q; limit := n;
     offset := offset q; orderBy := orderBy q; orderDir := orderDir q;
     groupBy := groupBy q; having := having q |}.

Definition with_query (f : Query -> Query) (m : Model) : Model :=
  {| query := f (query m); ctx := ctx m |}.

(** A call that may panic. *)
Inductive outcome (A : Type) : Type :=
  | Returns (a : A)
  | Panics (e : error).
Arguments Returns {A} a.
Arguments Panics {A} e.

Definition and_then {A B} (o : outcome A) (f : A -> outcome B) : outcome B :=
  match o with
  | Returns a => f a
  | Panics e => Panics e
  end.

(** The map [validOperators]; indexing a Go map at a missing key gives the
    zero value, [false]. *)
Definition validOperators : gmap string bool :=
  list_to_map
    [ ("=", true); ("<>", true); (">", true); ("<", true); (">=", true);
      ("<=", true); ("LIKE", true); ("NOT LIKE", true); ("IN", true);
      ("NOT IN", true); ("IS NULL", true); ("IS NOT NULL", true) ].

Definition validOperators_at (op : string) : bool :=
  default false (validOperators !! op).

(** *** The sanitizer *)

(** The function literal passed to [strings.Map] in [sanitizeColumn]. *)
Definition keep_ident (r : rune) : rune :=
  if ((97 <=? r) && (r <=? 122)) || ((65 <=? r) && (r <=? 90))
     || ((48 <=? r) && (r <=? 57)) || (r =? 95)
  then r else -1.

Definition sanitizeColumn (column : string) : string :=
  strings_Map keep_ident column.

Definition sanitizeTableName (table : string) : string :=
  sanitizeColumn table.

Definition sanitizeColumns (columns : list string) : list string :=
  List.map sanitizeColumn columns.

(** *** The builder *)

Definition WithContext (c : Context) (m : Model) : Model :=
  {| query := query m; ctx := c |}.

Definition Table (tableName : string) : Model :=
  {| ctx := Background;
     query := {| table := tableName;
                 selections := [tableName +:+ ".*"];
                 wheres := []; orWheres := []; joins := [];
                 limit := 0; offset := 0;
                 orderBy := EmptyString; orderDir := EmptyString;
                 groupBy := []; having := [] |} |}.

Definition Select (columns : list string) (m : Model) : Model :=
  with_query (set_selections (sanitizeColumns columns)) m.

Definition addJoin (joinType table condition : string) (args : list any)
    (m : Model) : Model :=
  with_query (fun q => set_joins (joins q ++
    [ {| joinTable := table; joinType := joinType;
         joinCondition := condition; joinArgs := args |} ]) q) m.

Definition Join (table condition : string) (args : list any) (m : Model) : Model :=
  addJoin "INNER JOIN" (sanitizeTableName table) condition args m.

Definition LeftJoin (table condition : string) (args : list any) (m : Model) : Model :=
  addJoin "LEFT JOIN" (sanitizeTableName table) condition args m.

Definition RightJoin (table condition : string) (args : list any) (m : Model) : Model :=
  addJoin "RIGHT JOIN" (sanitizeTableName table) condition args m.

(** The variadic parameter receives the one argument [nil]. *)
Definition CrossJoin (table : string) (m : Model) : Model :=
  addJoin "CROSS JOIN" (sanitizeTableName table) EmptyString [Nil] m.

Section Builder.
Variable unicode_upper_table : rune -> rune.

Local Abbreviation ToUpper := (strings_ToUpper unicode_upper_table).

Definition Where (column operator : string) (value : any) (m : Model)
    : outcome Model :=
  if negb (validOperators_at (ToUpper operator)) then Panics ErrInvalidOperator
  else Returns (with_query (fun q => set_wheres (wheres q ++
    [ {| column := sanitizeColumn column;
         operator := ToUpper operator;
         value := value |} ]) q) m).

Definition OrWhere (column operator : string) (value : any) (m : Model)
    : outcome Model :=
  if negb (validOperators_at (ToUpper operator)) then Panics ErrInvalidOperator
  else Returns (with_query (fun q => set_orWheres (orWheres q ++
    [ {| column := sanitizeColumn column;
         operator := ToUpper operator;
         value := value |} ]) q) m).
End Builder.

(** *** Rendering *)

(** [fmt.Sprintf("%s %s $%d", column, operator, paramIndex)]. *)
Definition Sprintf_predicate (w : whereClause) (paramIndex : int) : string :=
  column w +:+ " " +:+ operator w +:+ " $" +:+ Sprintf_d paramIndex.

(** The state of the loops of [buildWhereClause]: the builder, the values
    and the parameter index. *)
Definition where_state : Type := string * list any * int.

(** The loop over [m.query.wheres]; [i] is the index of the head of [ws]. *)
Fixpoint wheres_loop (i : Z) (ws : list whereClause) (st : where_state)
    : where_state :=
  match ws with
  | [] => st
  | w :: rest =>
    let '(whereBuilder, values, paramIndex) := st in
    let whereBuilder :=
      if 0 <? i then whereBuilder +:+ " AND " else whereBuilder in
    let whereBuilder := whereBuilder +:+ Sprintf_predicate w paramIndex in
    wheres_loop (i + 1) rest
      (whereBuilder, values ++ [value w], incr paramIndex)
  end.

(** The loop over [m.query.orWheres]; [nwheres] is [len(m.query.wheres)]. *)
Fixpoint orWheres_loop (nwheres : int) (i : Z) (ws : list whereClause)
    (st : where_state) : where_state :=
  match ws with
  | [] => st
  | w :: rest =>
    let '(whereBuilder, values, paramIndex) := st in
    let whereBuilder :=
      if (0 <? nwheres) || (0 <? i) then whereBuilder +:+ " OR "
      else whereBuilder in
    let whereBuilder := whereBuilder +:+ Sprintf_predicate w paramIndex in
    orWheres_loop nwheres (i + 1) rest
      (whereBuilder, values ++ [value w], incr paramIndex)
  end.

Definition buildWhereClause (m : Model) (startIndex : int) : string * list any :=
  if (len (wheres (query m)) =? 0) && (len (orWheres (query m)) =? 0)
  then (EmptyString, [])
  else
    let st := (" WHERE ", [], startIndex) in
    let st := wheres_loop 0 (wheres (query m)) st in
    let st := orWheres_loop (len (wheres (query m))) 0 (orWheres (query m)) st in
    let '(whereBuilder, values, _) := st in
    (whereBuilder, values).

(** The loop over [m.query.joins] in [buildSelectQuery]. *)
Fixpoint joins_loop (js : list joinClause) (st : string * list any)
    : string * list any :=
  match js with
  | [] => st
  | join :: rest =>
    let '(queryBuilder, values) := st in
    if negb (String.eqb (joinCondition join) EmptyString) then
      joins_loop rest
        (queryBuilder +:+ " " +:+ joinType join +:+ " " +:+ joinTable join
           +:+ " ON " +:+ joinCondition join,
         values ++ joinArgs join)
    else
      joins_loop rest
        (queryBuilder +:+ " " +:+ joinType join +:+ " " +:+ joinTable join,
         values)
  end.

(** The loop over [m.query.having] in [buildSelectQuery]. *)
Fixpoint having_loop (i : Z) (hs : list havingClause) (st : string * list any)
    : string * list any :=
  match hs with
  | [] => st
  | h :: rest =>
    let '(queryBuilder, values) := st in
    let queryBuilder :=
      if 0 <? i then queryBuilder +:+ " AND " else queryBuilder in
    having_loop (i + 1) rest
      (queryBuilder +:+ havingCondition h, values ++ havingArgs h)
  end.

Definition buildSelectQuery (m : Model) : string * list any :=
  let q := query m in
  let queryBuilder :=
    "SELECT " +:+ strings_Join (selections q) ", " +:+ " FROM " +:+ table q in
  let '(queryBuilder, values) := joins_loop (joins q) (queryBuilder, []) in
  let '(whereClause, whereValues) :=
    buildWhereClause m (wrap_int (len values + 1)) in
  let queryBuilder := queryBuilder +:+ whereClause in
  let values := values ++ whereValues in
  let queryBuilder :=
    if 0 <? len (groupBy q)
    then (queryBuilder +:+ " GROUP BY ") +:+ strings_Join (groupBy q) ", "
    else queryBuilder in
  let '(queryBuilder, values) :=
    if 0 <? len (having q)
    then having_loop 0 (having q) (queryBuilder +:+ " HAVING ", values)
    else (queryBuilder, values) in
  let queryBuilder :=
    if negb (String.eqb (orderBy q) EmptyString)
    then queryBuilder +:+ " ORDER BY " +:+ orderBy q +:+ " " +:+ orderDir q
    else queryBuilder in
  let queryBuilder :=
    if 0 <? limit q
    then queryBuilder +:+ " LIMIT " +:+ Sprintf_d (limit q)
    else queryBuilder in
  let queryBuilder :=
    if 0 <? offset q
    then queryBuilder +:+ " OFFSET " +:+ Sprintf_d (offset q)
    else queryBuilder in
  (queryBuilder, values).

(** The loop of [Create] over [newData]; [kvs] are the entries in the order
    in which [range] yields them. *)
Fixpoint create_loop (kvs : list (string * any))
    (st : list string * list any * list string * int)
    : list string * list any * list string * int :=
  match kvs with
  | [] => st
  | (column, value) :: rest =>
    let '(columns, values, placeholders, i) := st in
    create_loop rest
      (columns ++ [sanitizeColumn column],
       values ++ [value],
       placeholders ++ ["$" +:+ Sprintf_d i],
       incr i)
  end.

(** The loop of [Update] over [data]. *)
Fixpoint update_loop (kvs : list (string * any))
    (st : list string * list any * int) : list string * list any * int :=
  match kvs with
  | [] => st
  | (column, value) :: rest =>
    let '(sets, values, i) := st in
    update_loop rest
      (sets ++ [sanitizeColumn column +:+ " = $" +:+ Sprintf_d i],
       values ++ [value],
       incr i)
  end.

(** Lines 225 to 237 of [Create]: the copy of [data], which holds the
    entries of [data] and no other, with the timestamps added; [now] is
    the value of [time.Now()]. *)
Definition newData (data : gmap string any) (now : any) : gmap string any :=
  let newData := data in
  let newData :=
    if decide (is_Some (newData !! "created_at")) then newData
    else <["created_at" := now]> newData in
  let newData :=
    if decide (is_Some (newData !! "updated_at")) then newData
    else <["updated_at" := now]> newData in
  newData.

(** The Go specification leaves the order of a [range] over a map open, and
    the runtime picks a fresh one at every loop. [range_order m kvs] says
    that [kvs] is one order in which the entries of [m] can come. *)
Definition range_order (m : gmap string any) (kvs : list (string * any)) : Prop :=
  kvs ≡ₚ map_to_list m.

(** Lines 239 to 256 of [Create]: the statement and its arguments, when
    [range newData] yields [kvs]. *)
Definition Create_query (m : Model) (kvs : list (string * any))
    : string * list any :=
  let '(columns, values, placeholders, _) := create_loop kvs ([], [], [], 1) in
  ("INSERT INTO " +:+ table (query m) +:+ " (" +:+ strings_Join columns ", "
     +:+ ") VALUES (" +:+ strings_Join placeholders ", " +:+ ") RETURNING *",
   values).

(** Lines 291 to 309 of [Update], when [range data] yields [kvs]. *)
Definition Update_query (m : Model) (kvs : list (string * any))
    : string * list any :=
  let '(sets, values, i) := update_loop kvs ([], [], 1) in
  let '(whereClause, whereValues) := buildWhereClause m i in
  let values := values ++ whereValues in
  ("UPDATE " +:+ table (query m) +:+ " SET " +:+ strings_Join sets ", "
     +:+ whereClause,
   values).

(** Lines 330 to 336 of [Delete]. *)
Definition Delete_query (m : Model) : string * list any :=
  let '(whereClause, values) := buildWhereClause m 1 in
  ("DELETE FROM " +:+ table (query m) +:+ whereClause, values).

(** *** Execution *)

(** A Go result [(value, error)]. *)
Inductive result (A : Type) : Type :=
  | Ok (a : A)
  | Err (e : error).
Arguments Ok {A} a.
Arguments Err {A} e.

(** A record mapping, [map[string]interface{}]. *)
Abbreviation record := (gmap string any).

(** [*sql.Rows], by what its methods give: the outcome of [Columns] and,
    for every row that [Next] announces, the outcome of [Scan]. *)
Record Rows : Type := {
  Columns : result (list string);
  scans : list (result (list any))
}.

(** [sql.Result], by what [RowsAffected] gives. *)
Record Result : Type := {
  RowsAffected : result Z
}.

Section Executor.
(** The database behind [*sql.DB] and the statements it prepares are
    outside the program: the executor is parametric in them. *)
Variable DB : Type.
Variable Stmt : Type.
Variable PrepareContext : Context -> string -> DB -> result Stmt * DB.
Variable QueryContext : Stmt -> Context -> list any -> DB -> result Rows * DB.
Variable ExecContext : Stmt -> Context -> list any -> DB -> result Result * DB.
Variable RowsClose : Rows -> DB -> DB.

(** The fields of [Orm] next to the embedded [*sql.DB]. *)
Record Orm : Type := {
  queryLog : bool;
  prepared : gmap string Stmt
}.

(** What the program did to the outside, in order: the calls into
    [database/sql] and the lines of [logQuery]. [Queried q stmt c args]
    tells that [stmt], obtained from the cache for the text [q], was run
    by [QueryContext]. *)
Inductive event : Type :=
  | Prepared (c : Context) (q : string)
  | Queried (q : string) (stmt : Stmt) (c : Context) (args : list any)
  | Executed (q : string) (stmt : Stmt) (c : Context) (args : list any)
  | Closed (rows : Rows)
  | Logged (q : string) (args : list any).

Record World : Type := {
  orm : Orm;
  database : DB;
  trace : list event
}.

(** [New]: the cache starts empty. The limits it sets are settings of
    the pool inside [DB]. *)
Definition New (QueryLog : bool) : Orm :=
  {| queryLog := QueryLog; prepared := ∅ |}.

Definition M (A : Type) : Type := World -> A * World.

Definition ret {A} (a : A) : M A := fun w => (a, w).

Definition bind {A B} (c : M A) (f : A -> M B) : M B :=
  fun w => let '(a, w') := c w in f a w'.

Local Notation "x <- c1 ;; c2" := (bind c1 (fun x => c2))
  (at level 20, c1 at level 99, c2 at level 200, only parsing).

Definition emit (e : event) : M unit :=
  fun w => (tt, {| orm := orm w; database := database w;
                   trace := trace w ++ [e] |}).

(** A call into [database/sql]: it changes the database. *)
Definition call {A} (f : DB -> A * DB) : M A :=
  fun w => let '(a, d) := f (database w) in
           (a, {| orm := orm w; database := d; trace := trace w |}).

Definition cache_lookup (q : string) : M (option Stmt) :=
  fun w => (prepared (orm w) !! q, w).

Definition cache_store (q : string) (stmt : Stmt) : M unit :=
  fun w => (tt, {| orm := {| queryLog := queryLog (orm w);
                             prepared := <[q := stmt]> (prepared (orm w)) |};
                   database := database w; trace := trace w |}).

(** [logQuery]: the line it prints shows the query and the arguments
    (and a duration read from the wall clock). *)
Definition logQuery (q : string) (args : list any) : M unit :=
  emit (Logged q args).

(** [if m.db.queryLog { defer logQuery(...) }] around the rest of a
    function: the line is printed when the function returns. *)
Definition with_deferred_log {A} (q : string) (args : list any) (body : M A)
    : M A :=
  fun w =>
    if queryLog (orm w) then (a <- body ;; u <- logQuery q args ;; ret a) w
    else body w.

(** [prepareQuery] run by one goroutine: the locks are free when it asks
    for them, and nothing changes the cache between the two lookups. *)
Definition prepareQuery (m : Model) (q : string) : M (result Stmt) :=
  found <- cache_lookup q ;;
  match found with
  | Some stmt => ret (Ok stmt)
  | None =>
    found <- cache_lookup q ;;
    match found with
    | Some stmt => ret (Ok stmt)
    | None =>
      u <- emit (Prepared (ctx m) q) ;;
      r <- call (PrepareContext (ctx m) q) ;;
      match r with
      | Err e => ret (Err e)
      | Ok stmt => u <- cache_store q stmt ;; ret (Ok stmt)
      end
    end
  end.

(** The inner loop of [scanRows]: [row[col] = values[i]]. *)
Definition scan_row (columns : list string) (values : list any) : record :=
  foldl (fun row cv => <[cv.1 := cv.2]> row) ∅ (zip columns values).

(** The outer loop of [scanRows]. [Scan] fails when the row has not as
    many values as the destinations it is given, one for each column. *)
Fixpoint scan_loop (columns : list string) (data : list (result (list any)))
    (results : list record) : result (list record) :=
  match data with
  | [] => Ok results
  | Err e :: _ => Err e
  | Ok values :: rest =>
    if decide (length values = length columns)
    then scan_loop columns rest (results ++ [scan_row columns values])
    else Err (SqlError "sql: expected destination arguments in Scan")
  end.

Definition scanRows (rows : Rows) : result (list record) :=
  match Columns rows with
  | Err e => Err e
  | Ok columns => scan_loop columns (scans rows) []
  end.

(** [defer rows.Close()] around the rest of a function. *)
Definition with_deferred_close {A} (rows : Rows) (body : M A) : M A :=
  a <- body ;;
  u <- emit (Closed rows) ;;
  u <- call (fun d => (tt, RowsClose rows d)) ;;
  ret a.

Definition Get (m : Model) : M (result (list record)) :=
  let '(q, args) := buildSelectQuery m in
  with_deferred_log q args (
    r <- prepareQuery m q ;;
    match r with
    | Err e => ret (Err (Errorf_w "prepare query error" e))
    | Ok stmt =>
      u <- emit (Queried q stmt (ctx m) args) ;;
      r <- call (QueryContext stmt (ctx m) args) ;;
      match r with
      | Err e => ret (Err (Errorf_w "query error" e))
      | Ok rows => with_deferred_close rows (ret (scanRows rows))
      end
    end).

(** [First] writes the limit into the builder it is called on: the
    builder after the call is returned with the result. *)
Definition First (m : Model) : M (Model * result record) :=
  let m := with_query (set_limit 1) m in
  r <- Get m ;;
  match r with
  | Err e => ret (m, Err e)
  | Ok results =>
    if len results =? 0 then ret (m, Err ErrNoRows)
    else match results with
         | first :: _ => ret (m, Ok first)
         | [] => ret (m, Err ErrNoRows)
         end
  end.

(** [Create]; [now] is the value of [time.Now()]. The Go runtime chooses
    the order of a [range] over a map: [range_over] is that choice, the
    function that yields the entries of the map it is given in the order
    of the loop. [Create] makes the map [newData] and ranges over it. *)
Definition Create (m : Model) (data : gmap string any) (now : any)
    (range_over : gmap string any -> list (string * any))
    : M (result record) :=
  if len_map data =? 0 then ret (Err ErrInvalidValue)
  else
    let '(q, values) := Create_query m (range_over (newData data now)) in
    with_deferred_log q values (
      r <- prepareQuery m q ;;
      match r with
      | Err e => ret (Err (Errorf_w "prepare query error" e))
      | Ok stmt =>
        u <- emit (Queried q stmt (ctx m) values) ;;
        r <- call (QueryContext stmt (ctx m) values) ;;
        match r with
        | Err e => ret (Err (Errorf_w "create error" e))
        | Ok rows =>
          with_deferred_close rows (
            match scanRows rows with
            | Err e => ret (Err (Errorf_w "scan error" e))
            | Ok results =>
              match results with
              | [] => ret (Err (Errorf "no data returned after insert"))
              | first :: _ => ret (Ok first)
              end
            end)
        end
      end).

(** [Update]; [kvs] is the order in which [range data] yields the
    entries. *)
Definition Update (m : Model) (data : gmap string any)
    (kvs : list (string * any)) : M (result Z) :=
  if len_map data =? 0 then ret (Err ErrInvalidValue)
  else
    let '(q, values) := Update_query m kvs in
    with_deferred_log q values (
      r <- prepareQuery m q ;;
      match r with
      | Err e => ret (Err (Errorf_w "prepare query error" e))
      | Ok stmt =>
        u <- emit (Executed q stmt (ctx m) values) ;;
        r <- call (ExecContext stmt (ctx m) values) ;;
        match r with
        | Err e => ret (Err (Errorf_w "update error" e))
        | Ok res => ret (RowsAffected res)
        end
      end).

Definition Delete (m : Model) : M (result Z) :=
  let '(q, values) := Delete_query m in
  with_deferred_log q values (
    r <- prepareQuery m q ;;
    match r with
    | Err e => ret (Err (Errorf_w "prepare query error" e))
    | Ok stmt =>
      u <- emit (Executed q stmt (ctx m) values) ;;
      r <- call (ExecContext stmt (ctx m) values) ;;
      match r with
      | Err e => ret (Err (Errorf_w "delete error" e))
      | Ok res => ret (RowsAffected res)
      end
    end).
End Executor.

Arguments queryLog {Stmt} o.
Arguments prepared {Stmt} o.
Arguments Prepared {Stmt} c q.
Arguments Queried {Stmt} q stmt c args.
Arguments Executed {Stmt} q stmt c args.
Arguments Closed {Stmt} rows.
Arguments Logged {Stmt} q args.
Arguments orm {DB Stmt} w.
Arguments database {DB Stmt} w.
Arguments trace {DB Stmt} w.

End Orm.

(** ** [prepareQuery] run by several goroutines *)
Module PrepareRace.
Import GoRuntime Orm.

Section Race.
Variable DB : Type.
Variable Stmt : Type.
Variable PrepareContext : Context -> string -> DB -> result Stmt * DB.

(** Where a goroutine stands in [prepareQuery]: the statement it is about
    to run, with the values of its local variables. *)
Inductive pc : Type :=
  | AtRLock                         (* m.db.mu.RLock() *)
  | AtRead                          (* stmt, ok := m.db.prepared[query] *)
  | AtRUnlock (found : option Stmt) (* m.db.mu.RUnlock(); if ok { return } *)
  | AtLock                          (* m.db.mu.Lock() *)
  | AtRecheck                       (* if stmt, ok = m.db.prepared[query]; ok *)
  | AtPrepare                       (* stmt, err := m.db.PrepareContext(...) *)
  | AtStore (stmt : Stmt)           (* m.db.prepared[query] = stmt *)
  | AtUnlock (r : result Stmt)      (* the deferred m.db.mu.Unlock() *)
  | Returned (r : result Stmt).

(** A goroutine inside [m.prepareQuery(query)]: the context of its
    builder, the text, and where it stands. *)
Record goroutine : Type := {
  g_ctx : Context;
  g_query : string;
  g_pc : pc
}.

Definition at_pc (g : goroutine) (p : pc) : goroutine :=
  {| g_ctx := g_ctx g; g_query := g_query g; g_pc := p |}.

(** The [Orm] that the goroutines share, with its [sync.RWMutex] by the
    number of readers that hold it and whether a writer holds it; the
    database; the goroutines; and [compiled], the statements that
    [PrepareContext] has made so far, in order. *)
Record state : Type := {
  mu_readers : nat;
  mu_writer : bool;
  cache : gmap string Stmt;
  db : DB;
  goroutines : list goroutine;
  compiled : list (string * Stmt)
}.

(** The goroutine holds the write lock. *)
Definition locked (g : goroutine) : bool :=
  match g_pc g with
  | AtRecheck | AtPrepare | AtStore _ | AtUnlock _ => true
  | _ => false
  end.

(** The goroutine holds the read lock. *)
Definition reading (g : goroutine) : bool :=
  match g_pc g with
  | AtRead | AtRUnlock _ => true
  | _ => false
  end.

Definition returned (g : goroutine) : bool :=
  match g_pc g with
  | Returned _ => true
  | _ => false
  end.

(** The steps a goroutine has left at most. *)
Definition rank (g : goroutine) : nat :=
  match g_pc g with
  | AtRLock => 8
  | AtRead => 7
  | AtRUnlock _ => 6
  | AtLock => 5
  | AtRecheck => 4
  | AtPrepare => 3
  | AtStore _ => 2
  | AtUnlock _ => 1
  | Returned _ => 0
  end.

Definition total_rank (gs : list goroutine) : nat := sum_list (rank <$> gs).

Definition readers_of (gs : list goroutine) : nat :=
  sum_list ((fun g => if reading g then 1%nat else 0%nat) <$> gs).

(** Goroutine [i] runs its next statement, when it can: [RLock] waits
    while a writer holds the lock, [Lock] waits while anyone holds it, and
    a goroutine that has returned runs nothing. A step is the moment the
    statement takes effect; [sync.RWMutex] also holds new readers back
    while a writer waits, which leaves out some of the orders allowed
    here and adds none. *)
Definition step (i : nat) (s : state) : option state :=
  match goroutines s !! i with
  | None => None
  | Some g =>
    let q := g_query g in
    let move (p : pc) := <[i := at_pc g p]> (goroutines s) in
    match g_pc g with
    | AtRLock =>
      if mu_writer s then None
      else Some {| mu_readers := S (mu_readers s); mu_writer := mu_writer s;
                   cache := cache s; db := db s;
                   goroutines := move AtRead; compiled := compiled s |}
    | AtRead =>
      Some {| mu_readers := mu_readers s; mu_writer := mu_writer s;
              cache := cache s; db := db s;
              goroutines := move (AtRUnlock (cache s !! q));
              compiled := compiled s |}
    | AtRUnlock found =>
      Some {| mu_readers := Nat.pred (mu_readers s); mu_writer := mu_writer s;
              cache := cache s; db := db s;
              goroutines := move (match found with
                                  | Some stmt => Returned (Ok stmt)
                                  | None => AtLock
                                  end);
              compiled := compiled s |}
    | AtLock =>
      if mu_writer s || negb (Nat.eqb (mu_readers s) 0) then None
      else Some {| mu_readers := mu_readers s; mu_writer := true;
                   cache := cache s; db := db s;
                   goroutines := move AtRecheck; compiled := compiled s |}
    | AtRecheck =>
      Some {| mu_readers := mu_readers s; mu_writer := mu_writer s;
              cache := cache s; db := db s;
              goroutines := move (match cache s !! q with
                                  | Some stmt => AtUnlock (Ok stmt)
                                  | None => AtPrepare
                                  end);
              compiled := compiled s |}
    | AtPrepare =>
      match PrepareContext (g_ctx g) q (db s) with
      | (Err e, d) =>
        Some {| mu_readers := mu_readers s; mu_writer := mu_writer s;
                cache := cache s; db := d;
                goroutines := move (AtUnlock (Err e));
                compiled := compiled s |}
      | (Ok stmt, d) =>
        Some {| mu_readers := mu_readers s; mu_writer := mu_writer s;
                cache := cache s; db := d;
                goroutines := move (AtStore stmt);
                compiled := compiled s ++ [(q, stmt)] |}
      end
    | AtStore stmt =>
      Some {| mu_readers := mu_readers s; mu_writer := mu_writer s;
              cache := <[q := stmt]> (cache s); db := db s;
              goroutines := move (AtUnlock (Ok stmt));
              compiled := compiled s |}
    | AtUnlock r =>
      Some {| mu_readers := mu_readers s; mu_writer := false;
              cache := cache s; db := db s;
              goroutines := move (Returned r); compiled := compiled s |}
    | Returned _ => None
    end
  end.

(** The goroutines run interleaved: [schedule] names the goroutine that
    takes each step. *)
Fixpoint run (schedule : list nat) (s : state) : option state :=
  match schedule with
  | [] => Some s
  | i :: rest =>
    match step i s with
    | None => None
    | Some s' => run rest s'
    end
  end.

(** The callers enter [prepareQuery], each with its context and its text,
    on a cache [c0] with the lock free. *)
Definition init (c0 : gmap string Stmt) (d0 : DB)
    (callers : list (Context * string)) : state :=
  {| mu_readers := 0; mu_writer := false; cache := c0; db := d0;
     goroutines :=
       (fun cq => {| g_ctx := cq.1; g_query := cq.2; g_pc := AtRLock |})
         <$> callers;
     compiled := [] |}.

(** The statements compiled for the text [q]. *)
Definition compiled_for (q : string) (s : state) : list (string * Stmt) :=
  filter (fun x => x.1 = q) (compiled s).

(** Every caller has returned. *)
Definition all_returned (s : state) : Prop :=
  Forall (fun g => returned g = true) (goroutines s).

(** What holds in every state that the goroutines reach from [init c0]:
    [lock_inv] is about the lock, [cache_inv] about the cache and the
    local variables. *)
Definition lock_inv (s : state) : Prop :=
  (mu_writer s = true <-> exists i g, goroutines s !! i = Some g /\ locked g = true)
  /\ (forall i j gi gj, goroutines s !! i = Some gi -> goroutines s !! j = Some gj ->
        locked gi = true -> locked gj = true -> i = j)
  /\ mu_readers s = readers_of (goroutines s)
  /\ (mu_writer s = true -> mu_readers s = 0%nat).

(** What [cache_inv] asks of a goroutine that stands at [p] on the text
    [q], with the cache [cch] and the statements [cmp] compiled so far. *)
Definition pc_fact (cch : gmap string Stmt) (cmp : list (string * Stmt))
    (q : string) (p : pc) : Prop :=
  match p with
  | AtPrepare => cch !! q = None
  | AtStore stmt => cch !! q = None /\ (q, stmt) ∈ cmp
  | AtRUnlock (Some stmt) | AtUnlock (Ok stmt) | Returned (Ok stmt) =>
    cch !! q = Some stmt
  | AtUnlock (Err e) | Returned (Err e) =>
    exists c d, (PrepareContext c q d).1 = Err e
  | _ => True
  end.

Definition cache_inv (c0 : gmap string Stmt) (s : state) : Prop :=
  (forall q stmt, c0 !! q = Some stmt -> cache s !! q = Some stmt)
  /\ (forall q stmt, cache s !! q = Some stmt ->
        c0 !! q = Some stmt \/ (q, stmt) ∈ compiled s)
  /\ NoDup (compiled s).*1
  /\ (forall q stmt, (q, stmt) ∈ compiled s ->
        c0 !! q = None
        /\ (cache s !! q = Some stmt
            \/ exists i g, goroutines s !! i = Some g /\ g_query g = q
                           /\ g_pc g = AtStore stmt))
  /\ (forall i g, goroutines s !! i = Some g ->
        pc_fact (cache s) (compiled s) (g_query g) (g_pc g)).
End Race.

Arguments AtRLock {Stmt}.
Arguments AtRead {Stmt}.
Arguments AtRUnlock {Stmt} found.
Arguments AtLock {Stmt}.
Arguments AtRecheck {Stmt}.
Arguments AtPrepare {Stmt}.
Arguments AtStore {Stmt} stmt.
Arguments AtUnlock {Stmt} r.
Arguments Returned {Stmt} r.
Arguments g_ctx {Stmt} g.
Arguments g_query {Stmt} g.
Arguments g_pc {Stmt} g.
Arguments at_pc {Stmt} g p.
Arguments locked {Stmt} g.
Arguments reading {Stmt} g.
Arguments returned {Stmt} g.
Arguments rank {Stmt} g.
Arguments total_rank {Stmt} gs.
Arguments readers_of {Stmt} gs.
Arguments mu_readers {DB Stmt} s.
Arguments mu_writer {DB Stmt} s.
Arguments cache {DB Stmt} s.
Arguments db {DB Stmt} s.
Arguments goroutines {DB Stmt} s.
Arguments compiled {DB Stmt} s.
Arguments compiled_for {DB Stmt} q s.
Arguments lock_inv {DB Stmt} s.
Arguments all_returned {DB Stmt} s.
Arguments init {DB Stmt} c0 d0 callers.

End PrepareRace.

(** ** The properties of the specification, in its words *)
Module OrmSpec.
Import GoRuntime Orm.

(** The bytes of [[A-Za-z0-9_]]. *)
Definition ident_byte (a : ascii) : bool :=
  let c := byte_val a in
  ((97 <=? c) && (c <=? 122)) || ((65 <=? c) && (c <=? 90))
  || ((48 <=? c) && (c <=? 57)) || (c =? 95).

(** The operator allow-list of section 4.2. *)
Definition allow_list : list string :=
  [ "="; "<>"; ">"; "<"; ">="; "<="; "LIKE"; "NOT LIKE"; "IN"; "NOT IN";
    "IS NULL"; "IS NOT NULL" ].

(** The predicates [ps] with placeholders numbered from [start], one
    more for each predicate. *)
Definition numbered (start : Z) (ps : list whereClause) : list string :=
  imap (fun k w => Sprintf_predicate w (start + Z.of_nat k)) ps.

(** The where-clause rendering algorithm of section 4.2: nothing when
    both groups are empty; otherwise [WHERE], the AND-predicates joined
    with [AND], then the OR-predicates joined with [OR], after a leading
    [OR] when an AND-predicate came before. *)
Definition where_spec (ands ors : list whereClause) (start : Z)
    : string * list any :=
  match ands, ors with
  | [], [] => (EmptyString, [])
  | _, _ =>
    (" WHERE " +:+ strings_Join (numbered start ands) " AND "
       +:+ (match ands, ors with
            | _ :: _, _ :: _ => " OR "
            | _, _ => EmptyString
            end)
       +:+ strings_Join (numbered (start + len ands) ors) " OR ",
     (value <$> ands) ++ (value <$> ors))
  end.

(** The [SET] list of section 4.2: [col = $n] for the entries in the
    order of the placeholders, numbered from [$1]. *)
Definition set_list (kvs : list (string * any)) : list string :=
  imap (fun k cv => sanitizeColumn cv.1 +:+ " = $" +:+ Sprintf_d (1 + Z.of_nat k)) kvs.

(** The statement of [Update]: the [SET] list, then the WHERE clause
    numbered on from the [SET] list; the arguments in that order. *)
Definition update_spec (m : Model) (kvs : list (string * any))
    : string * list any :=
  let w := where_spec (wheres (query m)) (orWheres (query m)) (1 + len kvs) in
  ("UPDATE " +:+ table (query m) +:+ " SET " +:+ strings_Join (set_list kvs) ", "
     +:+ w.1,
   kvs.*2 ++ w.2).

(** The placeholders [$1] to [$n]. *)
Definition placeholders_to (n : nat) : list string :=
  (fun k => "$" +:+ Sprintf_d (1 + Z.of_nat k)) <$> seq 0 n.

(** The statement of [Create]. *)
Definition insert_spec (m : Model) (kvs : list (string * any))
    : string * list any :=
  ("INSERT INTO " +:+ table (query m) +:+ " ("
     +:+ strings_Join (sanitizeColumn <$> kvs.*1) ", " +:+ ") VALUES ("
     +:+ strings_Join (placeholders_to (length kvs)) ", " +:+ ") RETURNING *",
   kvs.*2).

(** A terminal operation that renders a statement. *)
Inductive operation : Type :=
  | OpGet
  | OpDelete
  | OpCreate (data : gmap string any) (now : any)
  | OpUpdate (data : gmap string any).

(** [renders op m out]: a call of [op] on the builder [m] can render the
    statement and arguments [out]. *)
Definition renders (op : operation) (m : Model) (out : string * list any) : Prop :=
  match op with
  | OpGet => out = buildSelectQuery m
  | OpDelete => out = Delete_query m
  | OpCreate data now =>
    exists kvs, range_order (newData data now) kvs /\ out = Create_query m kvs
  | OpUpdate data =>
    exists kvs, range_order data kvs /\ out = Update_query m kvs
  end.

(** A map of two fields. *)
Definition two_fields : gmap string any :=
  <["a" := Int 1]> (<["b" := Int 2]> ∅).

End OrmSpec.

(** ** A database to run the executor on *)
Module Example.
Import GoRuntime Orm.

(** The database prepares every text, and the handle of a statement is
    its text; it answers every query with one column and no row, and
    every other statement with one affected row. *)
Definition DB : Type := unit.
Definition Stmt : Type := string.

Definition PrepareContext (c : Context) (q : string) (d : DB)
    : result Stmt * DB := (Ok q, d).

Definition no_rows : Rows := {| Columns := Ok ["id"]; scans := [] |}.

Definition QueryContext (stmt : Stmt) (c : Context) (args : list any) (d : DB)
    : result Rows * DB := (Ok no_rows, d).

Definition ExecContext (stmt : Stmt) (c : Context) (args : list any) (d : DB)
    : result Result * DB := (Ok {| RowsAffected := Ok 1 |}, d).

Definition RowsClose (rows : Rows) (d : DB) : DB := d.

(** The world after [New]: no statement, no call, no log line. *)
Definition fresh : World DB Stmt :=
  {| orm := New Stmt false; database := tt; trace := [] |}.

(** Case tables that map every rune above [MaxASCII] to itself. *)
Definition unicode_upper_table (r : rune) : rune := r.

(** The builder of [Table("users").Where("id","=",1).OrWhere("id","=",2)]. *)
Definition users_by_id : Model :=
  with_query
    (fun q => set_orWheres
       [ {| column := "id"; operator := "="; value := Int 2 |} ]
       (set_wheres
          [ {| column := "id"; operator := "="; value := Int 1 |} ] q))
    (Table "users").

(** The fields of the scenario of [Update]. *)
Definition new_email : gmap string any := {[ "email" := Str "new@x.com" ]}.

(** The fields of the scenario of [Create]. *)
Definition alice : gmap string any :=
  <["username" := Str "alice"]> (<["email" := Str "a@x.com"]>
    (<["password" := Str "p"]> ∅)).

(** Two callers of one text, and a schedule on which both miss the cache
    at the first lookup before either takes the write lock. *)
Definition race_callers : list (Context * string) :=
  [ (Background, "SELECT 1"); (Derived 1, "SELECT 1") ].

Definition race_schedule : list nat :=
  [0; 1; 0; 1; 0; 1; 0; 0; 0; 0; 0; 1; 1; 1]%nat.

End Example.

(** ** The rest of [orm.go], and [user_repository.go] that calls it *)
Module OrmExtra.
Import GoRuntime Orm OrmSpec.

(** *** Errors *)

(** The method [Error] of an error: the text of [errors.New], the text a
    driver gives, and for [fmt.Errorf] with [%w] the prefix, a colon and
    the text of the cause. *)
Fixpoint Error (e : error) : string :=
  match e with
  | ErrNoRows => "no rows found"
  | ErrInvalidOperator => "invalid operator"
  | ErrInvalidValue => "invalid value"
  | SqlError msg => msg
  | Errorf msg => msg
  | Errorf_w msg cause => msg +:+ ": " +:+ Error cause
  end.

(** [errors.Is]: [err] or an error it wraps is [target]. *)
Fixpoint errors_Is (err target : error) : bool :=
  if decide (err = target) then true
  else match err with
       | Errorf_w _ cause => errors_Is cause target
       | _ => false
       end.

(** [sql.ErrNoRows]; an error of [database/sql] is known by its text. *)
Definition sql_ErrNoRows : error := SqlError "sql: no rows in result set".

(** *** Closed forms of the renderings *)

(** The bytes a WHERE clause is made of, when its columns are sanitized
    and its operators come from the allow-list: the bytes of
    [[A-Za-z0-9_]], the space, and the four signs [$], [=], [<], [>]. *)
Definition clause_byte (a : ascii) : bool :=
  ident_byte a
  || (byte_val a =? 32) || (byte_val a =? 36) || (byte_val a =? 61)
  || (byte_val a =? 60) || (byte_val a =? 62).

(** A predicate as [Where] and [OrWhere] store it. *)
Definition clean_predicate (w : whereClause) : Prop :=
  all_bytes ident_byte (column w) = true /\ operator w ∈ allow_list.

(** The four kinds of join. *)
Definition join_types : list string :=
  [ "INNER JOIN"; "LEFT JOIN"; "RIGHT JOIN"; "CROSS JOIN" ].

(** A join as [addJoin] gets it from the four join methods. *)
Definition clean_join (j : joinClause) : Prop :=
  all_bytes ident_byte (joinTable j) = true /\ joinType j ∈ join_types.

(** What the loop over the joins writes, and the arguments it binds. *)
Definition join_text (j : joinClause) : string :=
  if String.eqb (joinCondition j) EmptyString
  then " " +:+ joinType j +:+ " " +:+ joinTable j
  else " " +:+ joinType j +:+ " " +:+ joinTable j +:+ " ON "
         +:+ joinCondition j.

Definition join_args (j : joinClause) : list any :=
  if String.eqb (joinCondition j) EmptyString then [] else joinArgs j.

(** The SELECT statement, clause by clause: the placeholders of the WHERE
    clause are numbered on from the arguments of the joins, and the
    arguments are those of the joins, of the WHERE clause and of the
    HAVING clause, in that order. *)
Definition select_spec (m : Model) : string * list any :=
  let q := query m in
  let jargs := concat (join_args <$> joins q) in
  let w := where_spec (wheres q) (orWheres q) (len jargs + 1) in
  ("SELECT " +:+ strings_Join (selections q) ", " +:+ " FROM " +:+ table q
     +:+ concat_strings (join_text <$> joins q)
     +:+ w.1
     +:+ (if 0 <? len (groupBy q)
          then " GROUP BY " +:+ strings_Join (groupBy q) ", "
          else EmptyString)
     +:+ (if 0 <? len (having q)
          then " HAVING "
                 +:+ strings_Join (havingCondition <$> having q) " AND "
          else EmptyString)
     +:+ (if String.eqb (orderBy q) EmptyString then EmptyString
          else " ORDER BY " +:+ orderBy q +:+ " " +:+ orderDir q)
     +:+ (if 0 <? limit q then " LIMIT " +:+ Sprintf_d (limit q)
          else EmptyString)
     +:+ (if 0 <? offset q then " OFFSET " +:+ Sprintf_d (offset q)
          else EmptyString),
   jargs ++ w.2 ++ concat (havingArgs <$> having q)).

Section Built.
Variable unicode_upper_table : rune -> rune.

(** The builders a caller outside the package can make for the table
    [t]: [Table], then the chaining methods in any order; [First] leaves
    its limit in the builder. *)
Inductive built (t : string) : Model -> Prop :=
  | built_Table : built t (Table t)
  | built_WithContext c m : built t m -> built t (WithContext c m)
  | built_Select columns m : built t m -> built t (Select columns m)
  | built_Join tbl cond args m :
      built t m -> built t (Join tbl cond args m)
  | built_LeftJoin tbl cond args m :
      built t m -> built t (LeftJoin tbl cond args m)
  | built_RightJoin tbl cond args m :
      built t m -> built t (RightJoin tbl cond args m)
  | built_CrossJoin tbl m : built t m -> built t (CrossJoin tbl m)
  | built_Where column op v m m' :
      built t m -> Where unicode_upper_table column op v m = Returns m' ->
      built t m'
  | built_OrWhere column op v m m' :
      built t m -> OrWhere unicode_upper_table column op v m = Returns m' ->
      built t m'
  | built_First m : built t m -> built t (with_query (set_limit 1) m).
End Built.

(** *** [Cleanup] *)

Section Cleanup.
Variable DB : Type.
Variable Stmt : Type.
(** [stmt.Close()], and the verb [%q] of [fmt.Sprintf], which quotes a
    string by the tables of [strconv]. *)
Variable StmtClose : Stmt -> DB -> option error * DB.
Variable Sprintf_q : string -> string.

(** The loop of [Cleanup] over [db.prepared]; [kvs] are the entries in
    the order in which [range] yields them. *)
Fixpoint cleanup_loop (kvs : list (string * Stmt)) (st : list string * DB)
    : list string * DB :=
  match kvs with
  | [] => st
  | (query, stmt) :: rest =>
    let '(errs, d) := st in
    match StmtClose stmt d with
    | (Some err, d') =>
      cleanup_loop rest
        (errs ++ ["failed to close statement for query " +:+ Sprintf_q query
                    +:+ ": " +:+ Error err],
         d')
    | (None, d') => cleanup_loop rest (errs, d')
    end
  end.

(** [Cleanup]; the lock is free when one goroutine calls it. *)
Definition Cleanup (kvs : list (string * Stmt)) : M DB Stmt (option error) :=
  fun w =>
    let '(errs, d) := cleanup_loop kvs ([], database w) in
    let w' := {| orm := {| queryLog := queryLog (orm w); prepared := ∅ |};
                 database := d; trace := trace w |} in
    if 0 <? len errs
    then (Some (Errorf ("cleanup errors: " +:+ strings_Join errs "; ")), w')
    else (None, w').

(** The statements of [kvs] closed one after the other. *)
Definition close_all (kvs : list (string * Stmt)) (d : DB) : DB :=
  foldl (fun d stmt => (StmtClose stmt d).2) d kvs.*2.

(** The lines of [Cleanup]: one for each statement of [kvs] whose
    [Close] fails, after the statements before it were closed. *)
Definition close_errors (kvs : list (string * Stmt)) (d : DB) : list string :=
  omap id
    (imap (fun i kv =>
             match (StmtClose kv.2 (close_all (take i kvs) d)).1 with
             | Some err =>
               Some ("failed to close statement for query "
                       +:+ Sprintf_q kv.1 +:+ ": " +:+ Error err)
             | None => None
             end) kvs).
End Cleanup.

(** *** [internal/repositories/user_repository.go] *)

(** [types.CreateUserPayload]. *)
Record CreateUserPayload : Type := {
  UserName : string;
  Email : string;
  Password : string
}.

Section UserRepository.
Variable unicode_upper_table : rune -> rune.
Variable DB : Type.
Variable Stmt : Type.
Variable PrepareContext : Context -> string -> DB -> result Stmt * DB.
Variable QueryContext : Stmt -> Context -> list any -> DB -> result Rows * DB.
Variable RowsClose : Rows -> DB -> DB.

(** The map literal of [UserRepository.Create]. *)
Definition user_fields (user : CreateUserPayload) : gmap string any :=
  <["username" := Str (UserName user)]>
    (<["email" := Str (Email user)]>
       (<["password" := Str (Password user)]> ∅)).

(** [UserRepository.Create]; it is given a context and calls [Create] on
    a builder that keeps the context of [Table]. *)
Definition repo_Create (c : Context) (user : CreateUserPayload) (now : any)
    (range_over : gmap string any -> list (string * any))
    : M DB Stmt (result record) :=
  fun w =>
    let '(r, w') :=
      Create DB Stmt PrepareContext QueryContext RowsClose
        (Table "users") (user_fields user) now range_over w in
    match r with
    | Err err => (Err (Errorf_w "error creating user" err), w')
    | Ok data => (Ok data, w')
    end.

(** [UserRepository.GetByID]. *)
Definition repo_GetByID (c : Context) (id : Z)
    : M DB Stmt (outcome (result record)) :=
  fun w =>
    match Where unicode_upper_table "id" "=" (Int id)
            (Select ["id"; "username"; "email"; "password"]
               (WithContext c (Table "users"))) with
    | Panics e => (Panics e, w)
    | Returns m =>
      let '((_, r), w') :=
        First DB Stmt PrepareContext QueryContext RowsClose m w in
      match r with
      | Err err =>
        if errors_Is err sql_ErrNoRows
        then (Returns (Err (Errorf_w "user not found" err)), w')
        else (Returns (Err (Errorf_w "error getting user" err)), w')
      | Ok data => (Returns (Ok data), w')
      end
    end.
End UserRepository.

(** The world with the flag [queryLog] set to [b]. *)
Definition set_queryLog {DB Stmt} (b : bool) (w : World DB Stmt)
    : World DB Stmt :=
  {| orm := {| queryLog := b; prepared := prepared (orm w) |};
     database := database w; trace := trace w |}.

(** The world with one more event. *)
Definition and_event {DB Stmt} (e : event Stmt) (w : World DB Stmt)
    : World DB Stmt :=
  {| orm := orm w; database := database w; trace := trace w ++ [e] |}.

End OrmExtra.

(** ** More of the example database *)
Module MoreExamples.
Import GoRuntime Orm.

(** A driver that refuses every text. *)
Definition PrepareContext_refusing (c : Context) (q : string) (d : Example.DB)
    : result Example.Stmt * Example.DB :=
  (Err (SqlError "syntax error"), d).

(** The payload of the scenario of [UserRepository.Create]. *)
Definition bob : OrmExtra.CreateUserPayload :=
  {| OrmExtra.UserName := "bob"; OrmExtra.Email := "b@x.com";
     OrmExtra.Password := "p" |}.

End MoreExamples.

(** * Properties *)

(** ** Strings, bytes and runes *)
Module GoRuntimeFacts.
Import GoRuntime.

Lemma append_nil_l s : EmptyString +:+ s = s.
Proof. reflexivity. Qed.

Lemma append_cons a s t : String a s +:+ t = String a (s +:+ t).
Proof. reflexivity. Qed.

Lemma append_nil_r s : s +:+ EmptyString = s.
Proof.
  induction s as [|a s IH]; [done|]. by rewrite append_cons, IH.
Qed.

Lemma append_assoc s t u : (s +:+ t) +:+ u = s +:+ (t +:+ u).
Proof.
  induction s as [|a s IH]; [done|]. by rewrite !append_cons, IH.
Qed.

Lemma lead_append (c : bool) b sep x :
  (if c then b +:+ sep else b) +:+ x
  = b +:+ (if c then sep else EmptyString) +:+ x.
Proof. destruct c; [apply append_assoc | done]. Qed.

Lemma Join_separated items sep :
  strings_Join items sep = separated sep false items.
Proof.
  induction items as [|x [|y rest] IH]; [done| |].
  - cbn. by rewrite append_nil_r.
  - change (strings_Join (x :: y :: rest) sep)
      with (x +:+ sep +:+ strings_Join (y :: rest) sep).
    rewrite IH. reflexivity.
Qed.

Lemma separated_lead sep x rest :
  separated sep true (x :: rest) = sep +:+ separated sep false (x :: rest).
Proof. reflexivity. Qed.

Lemma wrap_int_small x : MinInt <= x <= MaxInt -> wrap_int x = x.
Proof.
  unfold wrap_int, MinInt, MaxInt. intros.
  rewrite Z.mod_small by lia. lia.
Qed.

Lemma wrap_int_range x : MinInt <= wrap_int x <= MaxInt.
Proof.
  unfold wrap_int, MinInt, MaxInt.
  pose proof (Z.mod_pos_bound (x + 2 ^ 63) (2 ^ 64)). lia.
Qed.

Lemma lor_ge_l a b : 0 <= b -> a <= Z.lor a b.
Proof.
  intros Hb.
  pose proof (Z.sub_lor_l_same_l b a) as H.
  assert (0 <= Z.land b (Z.lnot a)) by (apply Z.land_nonneg; auto).
  lia.
Qed.

Lemma lor_ge_r a b : 0 <= a -> b <= Z.lor a b.
Proof. intros. rewrite Z.lor_comm. by apply lor_ge_l. Qed.

Lemma byte_val_range c : 0 <= byte_val c < 256.
Proof. unfold byte_val. pose proof (N_ascii_bounded c). lia. Qed.

Lemma byte_of_val c : byte_of (byte_val c) = c.
Proof.
  unfold byte_of. pose proof (byte_val_range c).
  rewrite Z.mod_small by lia. unfold byte_val. rewrite N2Z.id.
  apply ascii_N_embedding.
Qed.

Lemma mask_bounds b :
  0 <= b < 256 ->
  Z.land b mask2 = b mod 32 /\ Z.land b mask3 = b mod 16 /\
  Z.land b mask4 = b mod 8 /\ Z.land b maskx = b mod 64.
Proof.
  intros. unfold mask2, mask3, mask4, maskx.
  change 31 with (Z.ones 5). change 15 with (Z.ones 4).
  change 7 with (Z.ones 3). change 63 with (Z.ones 6).
  rewrite !Z.land_ones by lia. done.
Qed.

(** An ASCII byte is a rune of its own. *)
Lemma decode_ascii c r :
  byte_val c < 128 -> DecodeRuneInString (String c r) = (byte_val c, 1%nat).
Proof.
  intros H. unfold DecodeRuneInString, first.
  destruct (Z.ltb_spec (byte_val c) 128); [|lia]. reflexivity.
Qed.

Lemma first_cases b :
  128 <= b < 256 ->
  first b = xx \/ (first b = s1 /\ 194 <= b < 224) \/
  (first b = s2 /\ b = 224) \/ (first b = s3 /\ 225 <= b < 240) \/
  (first b = s4 /\ b = 237) \/ (first b = s5 /\ b = 240) \/
  (first b = s6 /\ 241 <= b < 244) \/ (first b = s7 /\ b = 244).
Proof.
  intros Hb. unfold first.
  repeat match goal with
  | |- context [if ?a <? ?c then _ else _] => destruct (Z.ltb_spec a c)
  | |- context [if ?a =? ?c then _ else _] => destruct (Z.eqb_spec a c)
  end; try lia; intuition lia.
Qed.

Ltac bad_sequence :=
  exists RuneError, 1%nat; split; [reflexivity|];
  split; [unfold RuneError; lia | exact I].

Ltac next_byte r c b Mx :=
  destruct r as [|c r]; [bad_sequence|];
  let Hc := fresh "Hc" in
  pose proof (byte_val_range c) as Hc;
  destruct (mask_bounds _ Hc) as (_ & _ & _ & Mx);
  set (b := byte_val c) in *;
  cbn [fst snd];
  match goal with
  | |- context [(b <? ?lo) || (?hi <? b)] =>
    destruct (Z.ltb_spec b lo); [bad_sequence|];
    destruct (Z.ltb_spec hi b); [bad_sequence|]; cbn [orb]
  end.

Ltac table x le2 le3 acc :=
  change (as_ <=? x) with false;
  change (Z.land x 7 <=? 2) with le2;
  change (Z.land x 7 <=? 3) with le3;
  change (acceptRanges (Z.shiftr x 4)) with acc; cbv iota.

Ltac lor_bound a b :=
  let v := fresh "v" in
  pose proof (lor_ge_l a b); pose proof (lor_ge_r a b);
  pose proof (proj2 (Z.lor_nonneg a b));
  set (v := Z.lor a b) in *; clearbody v.

Ltac lor_bounds :=
  repeat match goal with
  | |- context [Z.lor ?a ?b] => lor_bound a b
  | _ : context [Z.lor ?a ?b] |- _ => lor_bound a b
  end.

Ltac rune_bound :=
  unfold locb, hicb in *;
  rewrite ?Z.shiftl_mul_pow2 by lia;
  repeat match goal with H : Z.land _ _ = _ |- _ => rewrite ?H; clear H end;
  repeat match goal with b := byte_val _ |- _ => clearbody b end;
  lor_bounds; Z.div_mod_to_equations; lia.

(** A byte that is not ASCII starts a rune that is not ASCII, and the
    bytes the rune takes up after it are not ASCII either. *)
Lemma decode_nonascii c r :
  128 <= byte_val c ->
  exists rn w, DecodeRuneInString (String c r) = (rn, w) /\
               128 <= rn /\ continues (Nat.pred w) r.
Proof.
  intros H. pose proof (byte_val_range c) as Hc.
  destruct (mask_bounds _ Hc) as (M2 & M3 & M4 & _).
  unfold DecodeRuneInString.
  set (b0 := byte_val c) in *.
  destruct (first_cases b0)
    as [F|[[F ?]|[[F ?]|[[F ?]|[[F ?]|[[F ?]|[[F ?]|[F ?]]]]]]]];
    [lia|rewrite F..].
  - bad_sequence.
  - table s1 true true (locb, hicb).
    next_byte r c1 b1 Mx1.
    eexists _, _; split; [reflexivity|].
    split; [rune_bound|cbn; fold b1; unfold locb in *; lia].
  - table s2 false true (0xA0, hicb).
    next_byte r c1 b1 Mx1. next_byte r c2 b2 Mx2.
    eexists _, _; split; [reflexivity|].
    split; [rune_bound|cbn; fold b1 b2; unfold locb in *; lia].
  - table s3 false true (locb, hicb).
    next_byte r c1 b1 Mx1. next_byte r c2 b2 Mx2.
    eexists _, _; split; [reflexivity|].
    split; [rune_bound|cbn; fold b1 b2; unfold locb in *; lia].
  - table s4 false true (locb, 0x9F).
    next_byte r c1 b1 Mx1. next_byte r c2 b2 Mx2.
    eexists _, _; split; [reflexivity|].
    split; [rune_bound|cbn; fold b1 b2; unfold locb in *; lia].
  - table s5 false false (0x90, hicb).
    next_byte r c1 b1 Mx1. next_byte r c2 b2 Mx2. next_byte r c3 b3 Mx3.
    eexists _, _; split; [reflexivity|].
    split; [rune_bound|cbn; fold b1 b2 b3; unfold locb in *; lia].
  - table s6 false false (locb, hicb).
    next_byte r c1 b1 Mx1. next_byte r c2 b2 Mx2. next_byte r c3 b3 Mx3.
    eexists _, _; split; [reflexivity|].
    split; [rune_bound|cbn; fold b1 b2 b3; unfold locb in *; lia].
  - table s7 false false (locb, 0x8F).
    next_byte r c1 b1 Mx1. next_byte r c2 b2 Mx2. next_byte r c3 b3 Mx3.
    eexists _, _; split; [reflexivity|].
    split; [rune_bound|cbn; fold b1 b2 b3; unfold locb in *; lia].
Qed.

Lemma filter_bytes_all p s : all_bytes p (filter_bytes p s) = true.
Proof.
  induction s as [|a s IH]; [done|]. cbn [filter_bytes].
  destruct (p a) eqn:E; [|done]. cbn [all_bytes]. by rewrite E, IH.
Qed.

Lemma filter_bytes_sublist p s :
  list_ascii_of_string (filter_bytes p s) `sublist_of` list_ascii_of_string s.
Proof.
  induction s as [|a s IH]; [constructor|]. cbn [filter_bytes].
  destruct (p a); cbn [list_ascii_of_string]; by constructor.
Qed.

Lemma all_bytes_app p s t :
  all_bytes p (s +:+ t) = all_bytes p s && all_bytes p t.
Proof.
  induction s as [|a s IH]; [done|].
  rewrite append_cons. cbn [all_bytes]. by rewrite IH, andb_assoc.
Qed.

End GoRuntimeFacts.

(** ** The sanitizer and the builder *)
Module OrmFacts.
Import GoRuntime Orm OrmSpec GoRuntimeFacts.

Lemma ident_range c :
  ((97 <=? c) && (c <=? 122)) || ((65 <=? c) && (c <=? 90))
  || ((48 <=? c) && (c <=? 57)) || (c =? 95) = true -> 0 <= c < 128.
Proof.
  rewrite !orb_true_iff, !andb_true_iff, !Z.leb_le, Z.eqb_eq. lia.
Qed.

Lemma ident_byte_ascii a : ident_byte a = true -> byte_val a < 128.
Proof. unfold ident_byte. intros E. apply ident_range in E. lia. Qed.

(** On an ASCII byte the function literal of [sanitizeColumn] keeps the
    byte or drops it. *)
Lemma keep_ident_ascii a :
  write_mapped keep_ident (byte_val a) =
  if ident_byte a then String a EmptyString else EmptyString.
Proof.
  unfold write_mapped, keep_ident, ident_byte.
  destruct (_ || _) eqn:E; [|reflexivity].
  apply ident_range in E.
  destruct (Z.leb_spec 0 (byte_val a)); [|lia].
  unfold encodeRune, rune1Max.
  destruct (Z.leb_spec (byte_val a) (2 ^ 7 - 1)); [|lia].
  by rewrite byte_of_val.
Qed.

Lemma keep_ident_high r : 128 <= r -> write_mapped keep_ident r = EmptyString.
Proof.
  intros. unfold write_mapped, keep_ident.
  destruct (_ || _) eqn:E; [|reflexivity].
  apply ident_range in E. lia.
Qed.

Lemma sanitize_from k s :
  continues k s ->
  concat_strings (List.map (write_mapped keep_ident) (range_from k s))
  = filter_bytes ident_byte s.
Proof.
  revert k. induction s as [|a s IH]; intros k Hk; [reflexivity|].
  destruct k as [|k].
  - cbn [range_from filter_bytes].
    destruct (Z.lt_ge_cases (byte_val a) 128) as [Hlt|Hge].
    + rewrite decode_ascii by done. cbn [List.map concat_strings Nat.pred].
      rewrite keep_ident_ascii, IH by exact I.
      by destruct (ident_byte a).
    + destruct (decode_nonascii a s Hge) as (rn & w & -> & Hrn & Hw).
      cbn [List.map concat_strings].
      rewrite keep_ident_high, append_nil_l, IH by done.
      destruct (ident_byte a) eqn:E; [|done].
      apply ident_byte_ascii in E. lia.
  - destruct Hk as [Hge Hk]. cbn [range_from filter_bytes].
    rewrite IH by done.
    destruct (ident_byte a) eqn:E; [|done].
    apply ident_byte_ascii in E. lia.
Qed.

Lemma sanitizeColumn_filter s : sanitizeColumn s = filter_bytes ident_byte s.
Proof. apply (sanitize_from 0). exact I. Qed.

(** C5. For every string [s], [sanitizeColumn s] holds only bytes of
    [[A-Za-z0-9_]], it is a subsequence of [s], and it is [s] with every
    other byte dropped and nothing else changed. The function takes the
    string and gives the string: it reads and writes nothing else. *)
Theorem sanitizeColumn_keeps_identifier_bytes (s : string) :
  all_bytes ident_byte (sanitizeColumn s) = true
  /\ list_ascii_of_string (sanitizeColumn s) `sublist_of` list_ascii_of_string s
  /\ sanitizeColumn s = filter_bytes ident_byte s.
Proof.
  rewrite sanitizeColumn_filter.
  split; [apply filter_bytes_all|]. split; [apply filter_bytes_sublist|done].
Qed.

(** *** The WHERE clause *)

Lemma numbered_cons start w ps :
  numbered start (w :: ps)
  = Sprintf_predicate w start :: numbered (start + 1) ps.
Proof.
  unfold numbered. rewrite imap_cons. f_equal.
  - f_equal. lia.
  - apply imap_ext. intros k x _. simpl. f_equal. lia.
Qed.

Ltac len_lia := unfold len in *; cbn [length] in *; lia.

Lemma wheres_loop_spec ws : forall i b vs p,
  0 <= i -> MinInt <= p <= MaxInt -> p + len ws - 1 <= MaxInt ->
  wheres_loop i ws (b, vs, p) =
  (b +:+ separated " AND " (0 <? i) (numbered p ws),
   vs ++ (value <$> ws), wrap_int (p + len ws)).
Proof.
  induction ws as [|w ws IH]; intros i b vs p Hi Hlo Hhi.
  - cbn [wheres_loop numbered imap separated fmap list_fmap].
    unfold len in *. cbn [length] in *.
    by rewrite append_nil_r, app_nil_r, Z.add_0_r, wrap_int_small.
  - cbn [wheres_loop]. rewrite numbered_cons, lead_append.
    unfold len in *. cbn [length separated fmap list_fmap] in *.
    destruct ws as [|w' ws].
    + cbn [wheres_loop numbered imap separated fmap list_fmap length].
      by rewrite !append_nil_r.
    + unfold incr. rewrite wrap_int_small by len_lia.
      rewrite IH by len_lia.
      replace (0 <? i + 1) with true by (symmetry; apply Z.ltb_lt; lia).
      rewrite !append_assoc, <- app_assoc.
      do 2 f_equal. cbn [length]. lia.
Qed.

Lemma orWheres_loop_spec n ws : forall i b vs p,
  0 <= i -> MinInt <= p <= MaxInt -> p + len ws - 1 <= MaxInt ->
  orWheres_loop n i ws (b, vs, p) =
  (b +:+ separated " OR " ((0 <? n) || (0 <? i)) (numbered p ws),
   vs ++ (value <$> ws), wrap_int (p + len ws)).
Proof.
  induction ws as [|w ws IH]; intros i b vs p Hi Hlo Hhi.
  - cbn [orWheres_loop numbered imap separated fmap list_fmap].
    unfold len in *. cbn [length] in *.
    by rewrite append_nil_r, app_nil_r, Z.add_0_r, wrap_int_small.
  - cbn [orWheres_loop]. rewrite numbered_cons, lead_append.
    unfold len in *. cbn [length separated fmap list_fmap] in *.
    destruct ws as [|w' ws].
    + cbn [orWheres_loop numbered imap separated fmap list_fmap length].
      by rewrite !append_nil_r.
    + unfold incr. rewrite wrap_int_small by len_lia.
      rewrite IH by len_lia.
      replace (0 <? i + 1) with true by (symmetry; apply Z.ltb_lt; lia).
      rewrite orb_true_r, !append_assoc, <- app_assoc.
      do 2 f_equal. cbn [length]. lia.
Qed.

(** [buildWhereClause] renders the clause of the specification, as long
    as every placeholder number is an [int]. *)
Lemma buildWhereClause_spec m start :
  MinInt <= start <= MaxInt ->
  start + len (wheres (query m)) + len (orWheres (query m)) - 1 <= MaxInt ->
  buildWhereClause m start
  = where_spec (wheres (query m)) (orWheres (query m)) start.
Proof.
  intros Hs Hn. unfold buildWhereClause, where_spec.
  destruct (wheres (query m)) as [|a ands] eqn:Ea;
    destruct (orWheres (query m)) as [|o ors] eqn:Eo; [done|..].
  all: change ((len _ =? 0) && (len _ =? 0)) with false; cbv iota.
  all: rewrite wheres_loop_spec by len_lia.
  - rewrite wrap_int_small by len_lia.
    rewrite orWheres_loop_spec by len_lia.
    rewrite !Join_separated. cbn [numbered imap separated fmap list_fmap app].
    change (0 <? len []) with false. change (0 <? 0) with false. cbn [orb].
    by rewrite !append_nil_l.
  - cbn [orWheres_loop]. rewrite !Join_separated.
    cbn [numbered imap separated fmap list_fmap app].
    by rewrite !append_nil_l, !append_nil_r, app_nil_r.
  - rewrite wrap_int_small by len_lia.
    rewrite orWheres_loop_spec by len_lia.
    rewrite !Join_separated.
    replace (0 <? len (a :: ands)) with true
      by (symmetry; apply Z.ltb_lt; len_lia).
    cbn [orb]. rewrite numbered_cons with (ps := ors).
    rewrite separated_lead, <- numbered_cons.
    by rewrite !append_assoc.
Qed.

(** *** The operator allow-list *)

Lemma validOperators_allow_list op :
  validOperators_at op = true <-> op ∈ allow_list.
Proof.
  unfold validOperators_at, validOperators.
  set (l := [("=", true); _; _; _; _; _; _; _; _; _; _; _]).
  assert (NoDup l.*1) as Hnd by (apply (bool_decide_unpack _); by vm_compute).
  assert (l = (fun k => (k, true)) <$> allow_list) as Hl by reflexivity.
  split.
  - destruct (list_to_map l !! op) as [b|] eqn:E; [|done].
    simpl. intros ->.
    apply (elem_of_list_to_map_2 (M := gmap string)) in E.
    rewrite Hl in E. apply list_elem_of_fmap in E as (k & Hk & Hin).
    by injection Hk as ->.
  - intros Hin.
    assert ((op, true) ∈ l) as Hop.
    { rewrite Hl. apply list_elem_of_fmap. by exists op. }
    apply (elem_of_list_to_map_1 (M := gmap string)) in Hop; [|done].
    by rewrite Hop.
Qed.

Section Builder.
Variable unicode_upper_table : rune -> rune.

Local Abbreviation ToUpper := (strings_ToUpper unicode_upper_table).
Local Abbreviation Where := (Orm.Where unicode_upper_table).
Local Abbreviation OrWhere := (Orm.OrWhere unicode_upper_table).

(** C4. [Where] and [OrWhere] test the upper-case form of the operator
    against the allow-list. Outside the list they panic with
    [ErrInvalidOperator]: no builder comes back, so that no predicate
    is stored, and whatever call follows in the chain, a terminal
    operation too, is not run. Inside the list the builder that comes
    back is the builder they were called on with one predicate more at
    the end of their group, [wheres] for [Where] and [orWheres] for
    [OrWhere]: the predicate has the sanitized column, the value, and
    the operator in its upper-case form; every other field of the
    builder is as it was. *)
Theorem Where_checks_operator (column op : string) (v : any) (m : Model) :
  let stored := {| Orm.column := sanitizeColumn column;
                   operator := ToUpper op; value := v |} in
  let q := query m in
  let with_where :=
    {| ctx := ctx m;
       query := {| table := table q; selections := selections q;
                   wheres := wheres q ++ [stored]; orWheres := orWheres q;
                   joins := joins q; limit := limit q; offset := offset q;
                   orderBy := orderBy q; orderDir := orderDir q;
                   groupBy := groupBy q; having := having q |} |} in
  let with_orWhere :=
    {| ctx := ctx m;
       query := {| table := table q; selections := selections q;
                   wheres := wheres q; orWheres := orWheres q ++ [stored];
                   joins := joins q; limit := limit q; offset := offset q;
                   orderBy := orderBy q; orderDir := orderDir q;
                   groupBy := groupBy q; having := having q |} |} in
  Where column op v m
    = (if bool_decide (ToUpper op ∈ allow_list)
       then Returns with_where else Panics ErrInvalidOperator)
  /\ OrWhere column op v m
    = (if bool_decide (ToUpper op ∈ allow_list)
       then Returns with_orWhere else Panics ErrInvalidOperator)
  /\ (forall m', Where column op v m = Returns m' ->
        ToUpper op ∈ allow_list
        /\ wheres (query m') = wheres (query m) ++ [stored]
        /\ operator <$> wheres (query m')
           = (operator <$> wheres (query m)) ++ [ToUpper op]
        /\ orWheres (query m') = orWheres (query m))
  /\ (forall m', OrWhere column op v m = Returns m' ->
        ToUpper op ∈ allow_list
        /\ orWheres (query m') = orWheres (query m) ++ [stored]
        /\ operator <$> orWheres (query m')
           = (operator <$> orWheres (query m)) ++ [ToUpper op]
        /\ wheres (query m') = wheres (query m))
  /\ (ToUpper op ∉ allow_list ->
        Where column op v m = Panics ErrInvalidOperator
        /\ OrWhere column op v m = Panics ErrInvalidOperator
        /\ forall m', Where column op v m <> Returns m'
                      /\ OrWhere column op v m <> Returns m')
  /\ (forall (B : Type) (rest : Model -> outcome B),
       and_then (Where column op v m) rest
         = (if bool_decide (ToUpper op ∈ allow_list)
            then rest with_where else Panics ErrInvalidOperator)
       /\ and_then (OrWhere column op v m) rest
         = (if bool_decide (ToUpper op ∈ allow_list)
            then rest with_orWhere else Panics ErrInvalidOperator))
  /\ (forall op', op' ∈ allow_list -> ToUpper op' = op')
  /\ and_then (Where "name" "not like" v (Table "users"))
       (fun m' => Returns (wheres (query m'), orWheres (query m')))
     = Returns ([ {| Orm.column := "name"; operator := "NOT LIKE";
                     value := v |} ], [])
  /\ and_then (OrWhere "age" "In" v (Table "users"))
       (fun m' => Returns (wheres (query m'), orWheres (query m')))
     = Returns ([], [ {| Orm.column := "age"; operator := "IN";
                         value := v |} ])
  /\ Where "name" "= 1 OR 1" v (Table "users") = Panics ErrInvalidOperator
  /\ OrWhere "name" "~" v (Table "users") = Panics ErrInvalidOperator.
Proof.
  assert ((forall op', op' ∈ allow_list -> ToUpper op' = op')
          /\ and_then (Where "name" "not like" v (Table "users"))
               (fun m' => Returns (wheres (query m'), orWheres (query m')))
             = Returns ([ {| Orm.column := "name"; operator := "NOT LIKE";
                             value := v |} ], [])
          /\ and_then (OrWhere "age" "In" v (Table "users"))
               (fun m' => Returns (wheres (query m'), orWheres (query m')))
             = Returns ([], [ {| Orm.column := "age"; operator := "IN";
                                 value := v |} ])
          /\ Where "name" "= 1 OR 1" v (Table "users")
             = Panics ErrInvalidOperator
          /\ OrWhere "name" "~" v (Table "users") = Panics ErrInvalidOperator)
    as Hexamples.
  { split; [|by repeat split].
    intros op' Hin. unfold allow_list in Hin.
    repeat (apply elem_of_cons in Hin as [->|Hin]; [reflexivity|]).
    by apply elem_of_nil in Hin. }
  unfold Orm.Where, Orm.OrWhere. cbv zeta.
  destruct (validOperators_at (ToUpper op)) eqn:E.
  - apply validOperators_allow_list in E.
    rewrite bool_decide_eq_true_2 by done. cbn [negb and_then].
    split; [done|]. split; [done|].
    split; [|split; [|split; [done|split; [done|exact Hexamples]]]].
    + intros m' [= <-]. cbn. by rewrite fmap_app.
    + intros m' [= <-]. cbn. by rewrite fmap_app.
  - assert (ToUpper op ∉ allow_list) as Hn.
    { intros Hin%validOperators_allow_list. congruence. }
    rewrite bool_decide_eq_false_2 by done. cbn [negb and_then].
    split; [done|]. split; [done|]. split; [done|]. split; [done|].
    split; [|split; [done|exact Hexamples]]. intros _. by repeat split.
Qed.

(** C2. As long as every placeholder number is an [int],
    [buildWhereClause] renders the clause of the specification: nothing
    when both groups are empty, and otherwise [WHERE], the AND-group
    joined with [AND], the OR-group joined with [OR] after a leading
    [OR] exactly when the AND-group is not empty, the placeholders
    numbered from [startIndex] and one more for each predicate in that
    order; the values come in the same order. The example of the
    specification renders as it says. *)
Theorem buildWhereClause_follows_spec (m : Model) (startIndex : int)
    (Hstart : MinInt <= startIndex <= MaxInt)
    (Hfits : startIndex + len (wheres (query m))
             + len (orWheres (query m)) - 1 <= MaxInt) :
  buildWhereClause m startIndex
    = where_spec (wheres (query m)) (orWheres (query m)) startIndex
  /\ and_then (Where "id" "=" (Int 1) (Table "users")) (fun m1 =>
     and_then (OrWhere "id" "=" (Int 2) m1) (fun m2 =>
     Returns (buildSelectQuery m2)))
     = Returns ("SELECT users.* FROM users" +:+ " WHERE id = $1 OR id = $2",
                [Int 1; Int 2]).
Proof.
  split; [by apply buildWhereClause_spec|]. by vm_compute.
Qed.
End Builder.

(** *** [Create] and [Update] *)

Lemma update_loop_spec kvs : forall sets vs i,
  MinInt <= i <= MaxInt -> i + len kvs - 1 <= MaxInt ->
  update_loop kvs (sets, vs, i) =
  (sets ++ imap (fun k cv => sanitizeColumn cv.1 +:+ " = $"
                             +:+ Sprintf_d (i + Z.of_nat k)) kvs,
   vs ++ kvs.*2, wrap_int (i + len kvs)).
Proof.
  induction kvs as [|[c v] kvs IH]; intros sets vs i Hi Hn.
  - cbn [update_loop imap fmap list_fmap]. unfold len. cbn [length].
    by rewrite !app_nil_r, Z.add_0_r, wrap_int_small.
  - cbn [update_loop]. rewrite imap_cons. cbn [fmap list_fmap fst snd].
    destruct kvs as [|kv kvs].
    + cbn [update_loop imap fmap list_fmap]. unfold len, incr. cbn [length].
      by rewrite Z.add_0_r.
    + unfold incr. rewrite wrap_int_small by len_lia.
      rewrite IH by len_lia. rewrite <- !app_assoc. cbn [app].
      f_equal; [f_equal|].
      * rewrite Z.add_0_r. do 2 f_equal.
        apply imap_ext. intros k x _. simpl. do 3 f_equal. lia.
      * f_equal. len_lia.
Qed.

Lemma create_loop_spec kvs : forall cols vs phs i,
  MinInt <= i <= MaxInt -> i + len kvs - 1 <= MaxInt ->
  create_loop kvs (cols, vs, phs, i) =
  (cols ++ (sanitizeColumn <$> kvs.*1), vs ++ kvs.*2,
   phs ++ ((fun k => "$" +:+ Sprintf_d (i + Z.of_nat k)) <$> seq 0 (length kvs)),
   wrap_int (i + len kvs)).
Proof.
  induction kvs as [|[c v] kvs IH]; intros cols vs phs i Hi Hn.
  - cbn [create_loop fmap list_fmap seq length]. unfold len. cbn [length].
    by rewrite !app_nil_r, Z.add_0_r, wrap_int_small.
  - cbn [create_loop]. cbn [fmap list_fmap fst snd length seq].
    destruct kvs as [|kv kvs].
    + cbn [create_loop fmap list_fmap seq length]. unfold len, incr.
      cbn [length]. by rewrite Z.add_0_r.
    + unfold incr. rewrite wrap_int_small by len_lia.
      rewrite IH by len_lia. rewrite <- !app_assoc. cbn [app].
      f_equal; [f_equal|].
      * rewrite Z.add_0_r. do 2 f_equal.
        rewrite <- seq_shift, <- list_fmap_compose.
        apply list_fmap_ext. intros _ k _. simpl. do 2 f_equal. lia.
      * f_equal. len_lia.
Qed.

Lemma Update_query_spec m kvs :
  len kvs + len (wheres (query m)) + len (orWheres (query m)) <= MaxInt ->
  Update_query m kvs = update_spec m kvs.
Proof.
  intros Hn. unfold Update_query, update_spec, set_list.
  assert (0 <= len kvs /\ 0 <= len (wheres (query m))
          /\ 0 <= len (orWheres (query m))) as (? & ? & ?) by (unfold len; lia).
  rewrite update_loop_spec by (unfold MinInt, MaxInt in *; lia).
  pose proof (wrap_int_range (1 + len kvs)).
  cbn [app].
  destruct (decide (wheres (query m) = [] /\ orWheres (query m) = []))
    as [[E1 E2]|Hne].
  - unfold buildWhereClause, where_spec. rewrite E1, E2. reflexivity.
  - assert (0 < len (wheres (query m)) + len (orWheres (query m))).
    { destruct (wheres (query m)), (orWheres (query m)); try len_lia.
      by destruct Hne. }
    rewrite wrap_int_small by (unfold MinInt, MaxInt in *; lia).
    rewrite buildWhereClause_spec by (unfold MinInt, MaxInt in *; lia).
    by destruct (where_spec _ _ _).
Qed.

Lemma Create_query_spec m kvs :
  len kvs <= MaxInt -> Create_query m kvs = insert_spec m kvs.
Proof.
  intros Hn. unfold Create_query, insert_spec, placeholders_to.
  assert (0 <= len kvs) by (unfold len; lia).
  rewrite create_loop_spec by (unfold MinInt, MaxInt in *; lia).
  reflexivity.
Qed.

Lemma len_map_empty {A} : len_map (∅ : gmap string A) = 0.
Proof. unfold len_map. by rewrite map_size_empty. Qed.

Lemma len_map_nonempty {A} (data : gmap string A) :
  data ≠ ∅ -> (len_map data =? 0) = false.
Proof.
  intros Hne. apply Z.eqb_neq. unfold len_map.
  apply map_size_non_empty_iff in Hne. lia.
Qed.

(** What [newData] holds. *)
Lemma newData_lookup data now k :
  newData data now !! k =
  match data !! k with
  | Some v => Some v
  | None => if decide (k = "created_at" \/ k = "updated_at")
            then Some now else None
  end.
Proof.
  unfold newData.
  destruct (decide (is_Some (data !! "created_at"))) as [[c Hc]|Hc%eq_None_not_Some].
  - destruct (decide (is_Some (data !! "updated_at"))) as [[u Hu]|Hu%eq_None_not_Some].
    + destruct (data !! k) eqn:E; [done|]. rewrite decide_False; [done|].
      intros [->| ->]; congruence.
    + destruct (decide (k = "updated_at")) as [->|Hk].
      * rewrite lookup_insert_eq, Hu. by rewrite decide_True by auto.
      * rewrite lookup_insert_ne by done.
        destruct (data !! k) eqn:E; [done|]. rewrite decide_False; [done|].
        intros [->| ->]; congruence.
  - destruct (decide (is_Some (<["created_at":=now]> data !! "updated_at")))
      as [[u Hu]|Hu%eq_None_not_Some]; rewrite lookup_insert_ne in Hu by done.
    + destruct (decide (k = "created_at")) as [->|Hk].
      * rewrite lookup_insert_eq, Hc. by rewrite decide_True by auto.
      * rewrite lookup_insert_ne by done.
        destruct (data !! k) eqn:E; [done|]. rewrite decide_False; [done|].
        intros [->| ->]; congruence.
    + destruct (decide (k = "updated_at")) as [->|Hk].
      * rewrite lookup_insert_eq, Hu. by rewrite decide_True by auto.
      * rewrite lookup_insert_ne by done.
        destruct (decide (k = "created_at")) as [->|Hk'].
        -- rewrite lookup_insert_eq, Hc. by rewrite decide_True by auto.
        -- rewrite lookup_insert_ne by done.
           destruct (data !! k) eqn:E; [done|]. rewrite decide_False; [done|].
           intros [->| ->]; congruence.
Qed.

(** *** The values a rendering binds *)

Lemma wheres_loop_values ws : forall i b vs p,
  (wheres_loop i ws (b, vs, p)).1.2 = vs ++ (value <$> ws).
Proof.
  induction ws as [|w ws IH]; intros i b vs p; cbn [wheres_loop].
  - by rewrite app_nil_r.
  - rewrite IH, <- app_assoc. done.
Qed.

Lemma orWheres_loop_values n ws : forall i b vs p,
  (orWheres_loop n i ws (b, vs, p)).1.2 = vs ++ (value <$> ws).
Proof.
  induction ws as [|w ws IH]; intros i b vs p; cbn [orWheres_loop].
  - by rewrite app_nil_r.
  - rewrite IH, <- app_assoc. done.
Qed.

Lemma buildWhereClause_values m i :
  (buildWhereClause m i).2
  = (value <$> wheres (query m)) ++ (value <$> orWheres (query m)).
Proof.
  unfold buildWhereClause.
  destruct ((len _ =? 0) && (len _ =? 0)) eqn:E.
  - apply andb_true_iff in E as [E1%Z.eqb_eq E2%Z.eqb_eq].
    destruct (wheres (query m)), (orWheres (query m)); try done; len_lia.
  - pose proof (wheres_loop_values (wheres (query m)) 0 " WHERE " [] i) as H1.
    destruct (wheres_loop _ _ _) as [[b vs] p]. cbn [fst snd] in H1. subst vs.
    pose proof (orWheres_loop_values (len (wheres (query m)))
                  (orWheres (query m)) 0 b ([] ++ (value <$> wheres (query m))) p) as H2.
    destruct (orWheres_loop _ _ _ _) as [[b' vs'] p']. cbn [fst snd] in *. done.
Qed.

Lemma update_loop_values kvs : forall sets vs i,
  (update_loop kvs (sets, vs, i)).1.2 = vs ++ kvs.*2.
Proof.
  induction kvs as [|[c v] kvs IH]; intros sets vs i; cbn [update_loop].
  - by rewrite app_nil_r.
  - rewrite IH, <- app_assoc. done.
Qed.

Lemma create_loop_values kvs : forall cols vs phs i,
  (create_loop kvs (cols, vs, phs, i)).1.1.2 = vs ++ kvs.*2.
Proof.
  induction kvs as [|[c v] kvs IH]; intros cols vs phs i; cbn [create_loop].
  - by rewrite app_nil_r.
  - rewrite IH, <- app_assoc. done.
Qed.

Lemma Update_query_values m kvs :
  (Update_query m kvs).2
  = kvs.*2 ++ (value <$> wheres (query m)) ++ (value <$> orWheres (query m)).
Proof.
  unfold Update_query.
  pose proof (update_loop_values kvs [] [] 1) as H.
  destruct (update_loop _ _) as [[sets vs] i]. cbn [fst snd] in H. subst vs.
  pose proof (buildWhereClause_values m i) as H.
  destruct (buildWhereClause m i) as [wc wv]. cbn [fst snd] in *. by subst.
Qed.

Lemma Create_query_values m kvs : (Create_query m kvs).2 = kvs.*2.
Proof.
  unfold Create_query.
  pose proof (create_loop_values kvs [] [] [] 1) as H.
  by destruct (create_loop _ _) as [[[cols vs] phs] i].
Qed.

Lemma range_order_len (data : gmap string any) kvs :
  range_order data kvs -> len kvs = len_map data /\ length kvs = size data.
Proof.
  unfold range_order, len, len_map. intros H.
  apply Permutation_length in H. rewrite length_map_to_list in H.
  by rewrite H.
Qed.

Lemma range_order_entry (data : gmap string any) kvs j c v :
  range_order data kvs -> kvs !! j = Some (c, v) ->
  kvs.*1 !! j = Some c /\ kvs.*2 !! j = Some v /\ data !! c = Some v.
Proof.
  unfold range_order. intros H Hj. rewrite !list_lookup_fmap, Hj.
  split; [done|]. split; [done|].
  apply elem_of_map_to_list. rewrite <- H. by eapply list_elem_of_lookup_2.
Qed.

(** C3, amended. [Get] and [Delete] render the same text and the same
    arguments at every call on the same builder. A rendering of
    [Create], or of [Update], on a map of fields is fixed by the order
    [kvs] in which [range] yields the fields: the text lists the
    sanitized columns in that order, with the placeholders [$1] to
    [$n] in ascending order ([Update]: [col = $j] in that order, then
    the WHERE clause numbered from [$n+1]), and the arguments are the
    values in that same order ([Update]: then the WHERE values), so
    that the argument at a position is the value the map holds at the
    column of that position. Two renderings are those of two orders of
    the same entries: one permutation takes the columns and the values
    of the one to those of the other; the placeholders, the table and
    the WHERE clause are the same in both, and the renderings are
    identical when the orders are, as they are for an [Update] of a
    single field. *)
Theorem rendering_fixed_by_range_order (op : operation) (m : Model)
    (o1 o2 : string * list any)
    (H1 : renders op m o1) (H2 : renders op m o2)
    (Hfits : match op with
             | OpGet | OpDelete => True
             | OpCreate data now => len_map (newData data now) <= MaxInt
             | OpUpdate data =>
               len_map data + len (wheres (query m))
                 + len (orWheres (query m)) <= MaxInt
             end) :
  match op with
  | OpGet => o1 = o2 /\ o1 = buildSelectQuery m
  | OpDelete => o1 = o2 /\ o1 = Delete_query m
  | OpCreate data now =>
    let n := size (newData data now) in
    let text kvs :=
      "INSERT INTO " +:+ table (query m) +:+ " ("
        +:+ strings_Join (sanitizeColumn <$> kvs.*1) ", " +:+ ") VALUES ("
        +:+ strings_Join (placeholders_to n) ", " +:+ ") RETURNING *" in
    exists kvs1 kvs2,
      range_order (newData data now) kvs1 /\ range_order (newData data now) kvs2
      /\ kvs1 ≡ₚ kvs2
      /\ o1 = (text kvs1, kvs1.*2) /\ o2 = (text kvs2, kvs2.*2)
      /\ (forall kvs j c v,
            kvs = kvs1 \/ kvs = kvs2 -> kvs !! j = Some (c, v) ->
            kvs.*1 !! j = Some c /\ kvs.*2 !! j = Some v
            /\ newData data now !! c = Some v)
      /\ (kvs1 = kvs2 -> o1 = o2)
      /\ o1.2 ≡ₚ o2.2
  | OpUpdate data =>
    let w := where_spec (wheres (query m)) (orWheres (query m))
               (1 + len_map data) in
    let text kvs :=
      "UPDATE " +:+ table (query m) +:+ " SET "
        +:+ strings_Join (set_list kvs) ", " +:+ w.1 in
    exists kvs1 kvs2,
      range_order data kvs1 /\ range_order data kvs2
      /\ kvs1 ≡ₚ kvs2
      /\ o1 = (text kvs1, kvs1.*2 ++ w.2) /\ o2 = (text kvs2, kvs2.*2 ++ w.2)
      /\ (forall kvs j c v,
            kvs = kvs1 \/ kvs = kvs2 -> kvs !! j = Some (c, v) ->
            set_list kvs !! j
            = Some (sanitizeColumn c +:+ " = $" +:+ Sprintf_d (1 + Z.of_nat j))
            /\ kvs.*2 !! j = Some v /\ data !! c = Some v)
      /\ (kvs1 = kvs2 -> o1 = o2)
      /\ (size data = 1%nat -> o1 = o2)
      /\ o1.2 ≡ₚ o2.2
  end.
Proof.
  destruct op as [| |data now|data]; cbn [renders] in *.
  - split; congruence.
  - split; congruence.
  - destruct H1 as (kvs1 & Hk1 & ->), H2 as (kvs2 & Hk2 & ->).
    destruct (range_order_len _ _ Hk1) as [Hl1 Hn1].
    destruct (range_order_len _ _ Hk2) as [Hl2 Hn2].
    cbv zeta. exists kvs1, kvs2.
    split; [done|]. split; [done|].
    split; [unfold range_order in *; by rewrite Hk1, Hk2|].
    rewrite !Create_query_spec by lia. unfold insert_spec.
    rewrite Hn1, Hn2.
    split; [done|]. split; [done|]. split; [|split].
    + intros kvs j c v [->| ->] Hj; by eapply range_order_entry.
    + by intros ->.
    + cbn [snd]. unfold range_order in *.
      apply fmap_Permutation. by rewrite Hk1, Hk2.
  - destruct H1 as (kvs1 & Hk1 & ->), H2 as (kvs2 & Hk2 & ->).
    destruct (range_order_len _ _ Hk1) as [Hl1 Hn1].
    destruct (range_order_len _ _ Hk2) as [Hl2 Hn2].
    cbv zeta. exists kvs1, kvs2.
    split; [done|]. split; [done|].
    split; [unfold range_order in *; by rewrite Hk1, Hk2|].
    rewrite !Update_query_spec by lia. unfold update_spec.
    rewrite Hl1, Hl2.
    split; [done|]. split; [done|]. split; [|split; [|split]].
    + intros kvs j c v Hkvs Hj.
      assert (range_order data kvs) as Hk by (by destruct Hkvs as [->| ->]).
      destruct (range_order_entry _ _ _ _ _ Hk Hj) as (_ & Hv & Hd).
      split; [|done]. unfold set_list. by rewrite list_lookup_imap, Hj.
    + by intros ->.
    + intros Hsize. unfold range_order in *.
      assert (length (map_to_list data) = 1%nat) as Hlen.
      { by rewrite length_map_to_list. }
      destruct (map_to_list data) as [|x [|y l]]; try done.
      apply Permutation_singleton_r in Hk1, Hk2. by subst.
    + cbn [snd]. unfold range_order in *.
      apply Permutation_app_tail, fmap_Permutation. by rewrite Hk1, Hk2.
Qed.

Lemma two_fields_orders :
  range_order two_fields [("a", Int 1); ("b", Int 2)]
  /\ range_order two_fields [("b", Int 2); ("a", Int 1)].
Proof.
  unfold range_order.
  assert (map_to_list two_fields = [("a", Int 1); ("b", Int 2)]) as ->
    by (by vm_compute).
  split; [done|apply perm_swap].
Qed.

(** C3, as it is stated, fails: [Update] on a map of two fields renders
    one statement when [range] yields [a] first and another one when it
    yields [b] first. *)
Lemma rendering_depends_on_range_order :
  renders (OpUpdate two_fields) (Table "t")
    ("UPDATE t SET a = $1, b = $2", [Int 1; Int 2])
  /\ renders (OpUpdate two_fields) (Table "t")
    ("UPDATE t SET b = $1, a = $2", [Int 2; Int 1])
  /\ ~ (forall op m o1 o2, renders op m o1 -> renders op m o2 -> o1 = o2).
Proof.
  destruct two_fields_orders as [Hab Hba].
  split; [by eexists; split; [exact Hab|vm_compute]|].
  split; [by eexists; split; [exact Hba|vm_compute]|].
  intros H.
  specialize (H (OpUpdate two_fields) (Table "t")
                (Update_query (Table "t") [("a", Int 1); ("b", Int 2)])
                (Update_query (Table "t") [("b", Int 2); ("a", Int 1)])).
  assert (Update_query (Table "t") [("a", Int 1); ("b", Int 2)]
          = Update_query (Table "t") [("b", Int 2); ("a", Int 1)]) as Heq.
  { apply H; eexists; eauto. }
  vm_compute in Heq. discriminate Heq.
Qed.

(** C1 at the table name [users; DROP TABLE users]: [Table] stores the
    name as it is, and the four statements embed it as it is. The table
    of a join goes through [sanitizeTableName]. *)
Theorem Table_name_embedded_raw :
  let t := "users; DROP TABLE users" in
  all_bytes ident_byte t = false
  /\ table (query (Table t)) = t
  /\ buildSelectQuery (Table t)
     = ("SELECT users; DROP TABLE users.* FROM users; DROP TABLE users", [])
  /\ Create_query (Table t) [("a", Int 1)]
     = ("INSERT INTO users; DROP TABLE users (a) VALUES ($1) RETURNING *", [Int 1])
  /\ Update_query (Table t) [("a", Int 1)]
     = ("UPDATE users; DROP TABLE users SET a = $1", [Int 1])
  /\ Delete_query (Table t) = ("DELETE FROM users; DROP TABLE users", [])
  /\ joinTable <$> joins (query (Join t "x = y" [] (Table "users")))
     = ["usersDROPTABLEusers"].
Proof. by vm_compute. Qed.

Section Executor.
Variable DB : Type.
Variable Stmt : Type.
Variable PrepareContext : Context -> string -> DB -> result Stmt * DB.
Variable QueryContext : Stmt -> Context -> list any -> DB -> result Rows * DB.
Variable ExecContext : Stmt -> Context -> list any -> DB -> result Result * DB.
Variable RowsClose : Rows -> DB -> DB.

Local Abbreviation World := (Orm.World DB Stmt).
Local Abbreviation prepareQuery :=
  (Orm.prepareQuery DB Stmt PrepareContext).
Local Abbreviation Get :=
  (Orm.Get DB Stmt PrepareContext QueryContext RowsClose).
Local Abbreviation First :=
  (Orm.First DB Stmt PrepareContext QueryContext RowsClose).
Local Abbreviation Create :=
  (Orm.Create DB Stmt PrepareContext QueryContext RowsClose).
Local Abbreviation Update :=
  (Orm.Update DB Stmt PrepareContext ExecContext).

(** Once the statement is there, [Update] runs it with the arguments
    it rendered. *)
Lemma Update_executes m data kvs (w : World) stmt w1 :
  data ≠ ∅ ->
  prepareQuery m (Update_query m kvs).1 w = (Ok stmt, w1) ->
  exists tl,
    trace (Update m data kvs w).2
    = trace w1 ++ Executed (Update_query m kvs).1 stmt (ctx m)
                    (Update_query m kvs).2 :: tl.
Proof.
  intros Hne Hprep. unfold Orm.Update.
  rewrite len_map_nonempty by done.
  destruct (Update_query m kvs) as [q values]. cbn [fst snd] in *.
  unfold with_deferred_log, bind.
  destruct (queryLog (orm w)); rewrite Hprep;
    unfold emit, call, ret, logQuery, emit; cbn [database trace orm];
    destruct (ExecContext stmt (ctx m) values (database w1)) as [[res|e] d];
    cbn [trace]; rewrite <- ?app_assoc; cbn [app]; eauto.
Qed.

(** Once the statement is there, [Create] runs it with the arguments
    it rendered, over the map [newData] in the order of the runtime;
    what it returns and the world it leaves come from the answer of
    the driver. *)
Lemma Create_answered m data now range_over (w : World) stmt w1 r d :
  data ≠ ∅ ->
  prepareQuery m (Create_query m (range_over (newData data now))).1 w
    = (Ok stmt, w1) ->
  QueryContext stmt (ctx m)
    (Create_query m (range_over (newData data now))).2 (database w1)
    = (r, d) ->
  let q := (Create_query m (range_over (newData data now))).1 in
  let values := (Create_query m (range_over (newData data now))).2 in
  (Create m data now range_over w).1
  = match r with
    | Err e => Err (Errorf_w "create error" e)
    | Ok rows =>
      match scanRows rows with
      | Err e => Err (Errorf_w "scan error" e)
      | Ok [] => Err (Errorf "no data returned after insert")
      | Ok (first :: _) => Ok first
      end
    end
  /\ orm (Create m data now range_over w).2 = orm w1
  /\ database (Create m data now range_over w).2
     = match r with Err _ => d | Ok rows => RowsClose rows d end
  /\ trace (Create m data now range_over w).2
     = trace w1 ++ [Queried q stmt (ctx m) values]
       ++ match r with Err _ => [] | Ok rows => [Closed rows] end
       ++ (if queryLog (orm w) then [Logged q values] else []).
Proof.
  intros Hne Hprep Hquery. cbv zeta. unfold Orm.Create.
  rewrite len_map_nonempty by done.
  destruct (Create_query m _) as [q values]. cbn [fst snd] in *.
  unfold with_deferred_log, bind. rewrite !Hprep.
  unfold emit, call, ret, logQuery, emit, with_deferred_close, bind, emit,
    call, ret.
  cbn [orm database trace queryLog prepared]. rewrite Hquery.
  destruct r as [rows|e], (queryLog (orm w));
    try destruct (scanRows rows) as [[|first rest]|e'];
    cbn [fst snd orm database trace]; by rewrite <- ?app_assoc, ?app_nil_r.
Qed.

(** Once the statement is there and the query is answered, [Get]
    returns what [scanRows] makes of the rows. *)
Lemma Get_scans m (w : World) stmt w1 rows d :
  prepareQuery m (buildSelectQuery m).1 w = (Ok stmt, w1) ->
  QueryContext stmt (ctx m) (buildSelectQuery m).2 (database w1) = (Ok rows, d) ->
  (Get m w).1 = scanRows rows.
Proof.
  intros Hprep Hquery. unfold Orm.Get.
  destruct (buildSelectQuery m) as [q args]. cbn [fst snd] in *.
  unfold with_deferred_log, bind.
  destruct (queryLog (orm w)); rewrite Hprep;
    unfold emit, call, ret, logQuery, emit; cbn [database trace orm];
    rewrite Hquery; reflexivity.
Qed.

Lemma scan_loop_prefix columns data : forall acc results,
  scan_loop columns data acc = Ok results ->
  exists tail, results = acc ++ tail.
Proof.
  induction data as [|[values|e] data IH]; intros acc results H;
    cbn [scan_loop] in H.
  - injection H as <-. exists []. by rewrite app_nil_r.
  - case_decide; [|done].
    apply IH in H as [tail ->]. rewrite <- app_assoc. eauto.
  - done.
Qed.

Lemma First_of_Get m (w : World) :
  First m w =
  let m1 := with_query (set_limit 1) m in
  let '(r, w') := Get m1 w in
  ((m1, match r with
        | Err e => Err e
        | Ok [] => Err ErrNoRows
        | Ok (first :: _) => Ok first
        end), w').
Proof.
  unfold Orm.First, bind. cbv zeta.
  destruct (Get _ w) as [[[|first rest]|e] w']; reflexivity.
Qed.

(** C6. [First] sets the limit of the builder to 1 and runs [Get] on it.
    When the statement is prepared and the database answers the query:
    if the answer has no row, [Get] returns the empty sequence with no
    error and [First] returns [ErrNoRows]; if the rows scan to a
    sequence that is not empty, [First] returns its head, which is the
    record scanned from the first row. *)
Theorem First_takes_head_of_Get (m : Model) (w : World)
    (stmt : Stmt) (w1 : World) (rows : Rows) (d : DB) (columns : list string)
    (Hprep : prepareQuery (with_query (set_limit 1) m)
               (buildSelectQuery (with_query (set_limit 1) m)).1 w
             = (Ok stmt, w1))
    (Hquery : QueryContext stmt (ctx m)
                (buildSelectQuery (with_query (set_limit 1) m)).2
                (database w1) = (Ok rows, d))
    (Hcolumns : Columns rows = Ok columns) :
  let m1 := with_query (set_limit 1) m in
  limit (query m1) = 1
  /\ (scans rows = [] ->
        (Get m1 w).1 = Ok [] /\ (First m w).1 = (m1, Err ErrNoRows))
  /\ (forall first rest, scanRows rows = Ok (first :: rest) ->
        (Get m1 w).1 = Ok (first :: rest) /\ (First m w).1 = (m1, Ok first))
  /\ (forall values more results,
        scans rows = Ok values :: more -> scanRows rows = Ok results ->
        (First m w).1 = (m1, Ok (scan_row columns values))).
Proof.
  intros m1. pose proof (Get_scans m1 w stmt w1 rows d Hprep Hquery) as HG.
  pose proof (First_of_Get m w) as HF. fold m1 in HF. cbv zeta in HF.
  destruct (Get m1 w) as [r w'] eqn:EG. cbn [fst] in HG. subst r.
  rewrite HF. cbn [fst].
  split; [done|]. split; [|split].
  - intros Hs. unfold scanRows. rewrite Hcolumns, Hs. done.
  - intros first rest ->. done.
  - intros values more results Hs Hok. rewrite Hok.
    unfold scanRows in Hok. rewrite Hcolumns, Hs in Hok.
    cbn [scan_loop] in Hok. case_decide; [|done].
    apply scan_loop_prefix in Hok as [tail ->]. done.
Qed.
(** C7. [Create] and [Update] on an empty map of fields return
    [ErrInvalidValue] and leave the world as it was: the statement
    cache, the database and the trace of calls and log lines are
    unchanged, so that nothing was compiled, run or logged. *)
Theorem empty_fields_rejected (m : Model) (now : any)
    (range_over : gmap string any -> list (string * any))
    (kvs : list (string * any)) (w : World) :
  Create m ∅ now range_over w = (Err ErrInvalidValue, w)
  /\ Update m ∅ kvs w = (Err ErrInvalidValue, w).
Proof.
  unfold Orm.Create, Orm.Update. by rewrite len_map_empty.
Qed.

(** C8. For a map of fields that is not empty, iterated in the order
    [kvs], and as long as the number of placeholders is an [int],
    [Update] renders [UPDATE <table> SET col = $1, ..., col = $n]
    followed by the WHERE clause numbered on from [$n+1]; the arguments
    are the SET values in the order of their placeholders, then the
    WHERE values in the order of theirs. Once the statement is
    prepared, that text is run with those arguments. *)
Theorem Update_numbers_across_clauses (m : Model)
    (data : gmap string any) (kvs : list (string * any))
    (Hdata : data ≠ ∅)
    (Horder : range_order data kvs)
    (Hfits : len kvs + len (wheres (query m))
             + len (orWheres (query m)) <= MaxInt) :
  Update_query m kvs = update_spec m kvs
  /\ (buildWhereClause m (1 + len kvs)).1
     = (where_spec (wheres (query m)) (orWheres (query m)) (1 + len kvs)).1
  /\ forall (w : World) stmt w1,
       prepareQuery m (update_spec m kvs).1 w = (Ok stmt, w1) ->
       exists tl,
         trace (Update m data kvs w).2
         = trace w1 ++ Executed (update_spec m kvs).1 stmt (ctx m)
                         (update_spec m kvs).2 :: tl.
Proof.
  pose proof (Update_query_spec m kvs Hfits) as Hq.
  split; [done|]. split.
  - assert (0 <= len kvs /\ 0 <= len (wheres (query m))
            /\ 0 <= len (orWheres (query m))) as (? & ? & ?)
      by (unfold len; lia).
    destruct (decide (wheres (query m) = [] /\ orWheres (query m) = []))
      as [[E1 E2]|Hne].
    + unfold buildWhereClause, where_spec. by rewrite E1, E2.
    + assert (0 < len (wheres (query m)) + len (orWheres (query m))).
      { destruct (wheres (query m)), (orWheres (query m)); try len_lia.
        by destruct Hne. }
      by rewrite buildWhereClause_spec by (unfold MinInt, MaxInt in *; lia).
  - intros w stmt w1 Hprep. rewrite <- Hq in *.
    by apply Update_executes.
Qed.

(** C9. For a map of fields that is not empty, [Create] makes the map
    [newData] and ranges over it; the entries [kvs] of the loop are the
    caller's fields with their values unchanged, and [created_at] and
    [updated_at] with the current timestamp exactly when the caller
    gave no such key, each column once. The statement is
    [INSERT INTO <table> (columns) VALUES ($1, ..., $n) RETURNING *]
    over these entries in the order of the loop, the columns sanitized.
    Once the statement is prepared, [Create] calls the driver with that
    statement and the values of the entries as arguments: what
    [Create] returns and the database it leaves are what the driver
    answered to that call, the first row of the answer when there is
    one. *)
Theorem Create_adds_timestamps (m : Model) (data : gmap string any)
    (now : any) (range_over : gmap string any -> list (string * any))
    (Hdata : data ≠ ∅)
    (Hrange : range_order (newData data now) (range_over (newData data now)))
    (Hfits : len (range_over (newData data now)) <= MaxInt) :
  let kvs := range_over (newData data now) in
  (forall k v, (k, v) ∈ kvs <->
     data !! k = Some v
     \/ (data !! k = None /\ (k = "created_at" \/ k = "updated_at")
         /\ v = now))
  /\ NoDup kvs.*1
  /\ (forall k, k ∈ kvs.*1 <->
        is_Some (data !! k) \/ k = "created_at" \/ k = "updated_at")
  /\ Create_query m kvs = insert_spec m kvs
  /\ forall (w : World) stmt w1 r d,
       prepareQuery m (insert_spec m kvs).1 w = (Ok stmt, w1) ->
       QueryContext stmt (ctx m) kvs.*2 (database w1) = (r, d) ->
       (Create m data now range_over w).1
       = match r with
         | Err e => Err (Errorf_w "create error" e)
         | Ok rows =>
           match scanRows rows with
           | Err e => Err (Errorf_w "scan error" e)
           | Ok [] => Err (Errorf "no data returned after insert")
           | Ok (first :: _) => Ok first
           end
         end
       /\ database (Create m data now range_over w).2
          = match r with Err _ => d | Ok rows => RowsClose rows d end
       /\ trace (Create m data now range_over w).2
          = trace w1 ++ [Queried (insert_spec m kvs).1 stmt (ctx m) kvs.*2]
            ++ match r with Err _ => [] | Ok rows => [Closed rows] end
            ++ (if queryLog (orm w)
                then [Logged (insert_spec m kvs).1 kvs.*2] else []).
Proof.
  cbv zeta. set (kvs := range_over (newData data now)) in *.
  pose proof (Create_query_spec m kvs Hfits) as Hq.
  assert (forall k v, (k, v) ∈ kvs <->
            data !! k = Some v
            \/ (data !! k = None /\ (k = "created_at" \/ k = "updated_at")
                /\ v = now)) as Hpairs.
  { intros k v. unfold range_order in Hrange. rewrite Hrange.
    rewrite elem_of_map_to_list, newData_lookup.
    destruct (data !! k) as [v'|] eqn:E.
    - split; [by left|]. by intros [?|[? _]].
    - case_decide as Hk; split.
      + intros [= <-]. right. by repeat split.
      + by intros [?|(_ & _ & ->)].
      + done.
      + intros [?|(_ & ? & _)]; done. }
  split; [exact Hpairs|]. split; [|split; [|split; [done|]]].
  - unfold range_order in Hrange. rewrite Hrange.
    apply NoDup_fst_map_to_list.
  - intros k. rewrite list_elem_of_fmap. split.
    + intros ([k' v] & -> & Hin). apply Hpairs in Hin as [Hin|(_ & Hk & _)].
      * left. by eexists.
      * by right.
    + intros Hk.
      assert (exists v, (k, v) ∈ kvs) as [v Hv]; [|by exists (k, v)].
      destruct (data !! k) as [v|] eqn:E.
      * exists v. apply Hpairs. by left.
      * exists now. apply Hpairs. right.
        destruct Hk as [[v Hv]|Hk]; [done|]. by repeat split.
  - intros w stmt w1 r d Hprep Hquery. rewrite <- Hq in *.
    change (kvs.*2) with (insert_spec m kvs).2 in *.
    rewrite <- Hq in *.
    destruct (Create_answered m data now range_over w stmt w1 r d
                Hdata Hprep Hquery) as (Hr & _ & Hd & Ht).
    by repeat split.
Qed.
End Executor.

End OrmFacts.

(** ** [prepareQuery] under concurrent callers *)
Module PrepareRaceFacts.
Import GoRuntime Orm PrepareRace.

Section Race.
Variable DB : Type.
Variable Stmt : Type.
Variable PrepareContext : Context -> string -> DB -> result Stmt * DB.

Local Abbreviation state := (PrepareRace.state DB Stmt).
Local Abbreviation goroutine := (PrepareRace.goroutine Stmt).
Local Abbreviation step := (PrepareRace.step DB Stmt PrepareContext).
Local Abbreviation run := (PrepareRace.run DB Stmt PrepareContext).
Local Abbreviation cache_inv := (PrepareRace.cache_inv DB Stmt PrepareContext).

Lemma sum_insert {A} (f : A -> nat) (l : list A) i x y :
  l !! i = Some x ->
  (sum_list (f <$> <[i := y]> l) + f x = sum_list (f <$> l) + f y)%nat.
Proof.
  revert i. induction l as [|a l IH]; intros [|i] H; simplify_eq/=; [lia|].
  specialize (IH _ H). lia.
Qed.

Lemma sum_zero {A} (f : A -> nat) (l : list A) :
  (forall x, x ∈ l -> f x = 0%nat) -> sum_list (f <$> l) = 0%nat.
Proof.
  induction l as [|a l IH]; intros H; [done|]. cbn.
  rewrite (H a) by left. rewrite IH; [done|]. intros x Hx. apply H. by right.
Qed.

Lemma sum_pos {A} (f : A -> nat) (l : list A) x :
  x ∈ l -> (f x <= sum_list (f <$> l))%nat.
Proof.
  induction 1; cbn; lia.
Qed.

(** Goroutine [i] moves on; the lock changes with what it holds. *)
Lemma lock_inv_move (s s' : state) i (g g' : goroutine) :
  goroutines s !! i = Some g ->
  goroutines s' = <[i := g']> (goroutines s) ->
  (mu_readers s' + (if reading g then 1 else 0)
   = mu_readers s + (if reading g' then 1 else 0))%nat ->
  (if locked g then
     if locked g' then mu_writer s' = mu_writer s else mu_writer s' = false
   else
     if locked g' then mu_writer s = false /\ mu_readers s = 0%nat
                       /\ mu_writer s' = true
     else mu_writer s' = mu_writer s) ->
  (reading g = false -> reading g' = true -> mu_writer s = false) ->
  lock_inv s -> lock_inv s'.
Proof.
  intros Hg Hgs Hr Hw Hrl (L1 & L2 & L3 & L4).
  assert (i < length (goroutines s))%nat as Hi by (by eapply lookup_lt_Some).
  assert (forall j gj, goroutines s' !! j = Some gj ->
            (j = i /\ gj = g') \/ (j ≠ i /\ goroutines s !! j = Some gj)) as Hlk.
  { intros j gj. rewrite Hgs. rewrite list_lookup_insert_Some.
    intros [(-> & -> & _)|[? ?]]; auto. }
  assert (goroutines s' !! i = Some g') as Hi'.
  { rewrite Hgs. by apply list_lookup_insert_eq. }
  assert (forall j gj, j ≠ i -> goroutines s !! j = Some gj ->
            goroutines s' !! j = Some gj) as Hother.
  { intros j gj Hj Hgj. rewrite Hgs. by rewrite list_lookup_insert_ne. }
  assert (mu_readers s' = readers_of (goroutines s')) as L3'.
  { unfold readers_of in *. rewrite Hgs.
    pose proof (sum_insert (fun g : goroutine => if reading g then 1%nat else 0%nat)
                  (goroutines s) i g g' Hg) as Hsum. cbv beta in Hsum. lia. }
  assert (locked g = true -> mu_writer s = true) as Hgl.
  { intros. apply L1. eauto. }
  assert (locked g = true -> forall j gj, j ≠ i -> goroutines s !! j = Some gj ->
            locked gj = false) as Honly.
  { intros Hl j gj Hj Hgj. destruct (locked gj) eqn:E; [|done].
    destruct Hj. by eapply L2. }
  assert (mu_writer s = false -> forall j gj, goroutines s !! j = Some gj ->
            locked gj = false) as Hnone.
  { intros Hwf j gj Hgj. destruct (locked gj) eqn:E; [|done].
    assert (mu_writer s = true) by (apply L1; eauto). congruence. }
  split; [|split; [|split]]; [..|done|].
  - split.
    + intros Hw'. destruct (locked g') eqn:El'; [by eauto|].
      destruct (locked g) eqn:El; [congruence|].
      rewrite Hw in Hw'. apply L1 in Hw' as (j & gj & Hgj & Hlj).
      destruct (decide (j = i)) as [->|Hj]; [congruence|]. eauto.
    + intros (j & gj & Hgj & Hlj).
      apply Hlk in Hgj as [[-> ->]|[Hj Hgj]].
      * rewrite Hlj in Hw.
        destruct (locked g); [rewrite Hw; by apply Hgl | by destruct Hw as (_ & _ & ?)].
      * destruct (locked g) eqn:El.
        { rewrite (Honly eq_refl j gj) in Hlj; done. }
        destruct (locked g') eqn:El'; [by destruct Hw as (_ & _ & ?)|].
        rewrite Hw. apply L1. eauto.
  - intros j k gj gk Hgj Hgk Hlj Hlk'.
    apply Hlk in Hgj as [[-> ->]|[Hj Hgj]]; apply Hlk in Hgk as [[-> ->]|[Hk Hgk]];
      try done.
    + destruct (locked g) eqn:El.
      * rewrite (Honly eq_refl k gk) in Hlk'; done.
      * rewrite Hlj in Hw. destruct Hw as (Hwf & _).
        rewrite (Hnone Hwf k gk) in Hlk'; done.
    + destruct (locked g) eqn:El.
      * rewrite (Honly eq_refl j gj) in Hlj; done.
      * rewrite Hlk' in Hw. destruct Hw as (Hwf & _).
        rewrite (Hnone Hwf j gj) in Hlj; done.
    + by eapply L2.
  - intros Hw'.
    assert (forall h : goroutine, locked h = true -> reading h = false) as Hlr.
    { intros [? ? []]; by cbn. }
    destruct (locked g) eqn:El, (locked g') eqn:El'.
    + rewrite Hw in Hw'. specialize (L4 Hw').
      rewrite (Hlr g El), (Hlr g' El') in Hr. lia.
    + congruence.
    + destruct Hw as (? & ? & ?). rewrite (Hlr g' El') in Hr.
      destruct (reading g); lia.
    + rewrite Hw in Hw'. specialize (L4 Hw').
      destruct (reading g) eqn:Er, (reading g') eqn:Er'; try lia.
      specialize (Hrl eq_refl eq_refl). congruence.
Qed.

Local Abbreviation pc_fact := (PrepareRace.pc_fact DB Stmt PrepareContext).

Lemma lookup_move (gs : list goroutine) i g' j gj :
  <[i := g']> gs !! j = Some gj ->
  (j = i /\ gj = g') \/ (j ≠ i /\ gs !! j = Some gj).
Proof. rewrite list_lookup_insert_Some. intros [(-> & -> & _)|[? ?]]; auto. Qed.

(** Goroutine [i] moves on and leaves the cache and [compiled] alone. *)
Lemma cache_inv_move c0 (s s' : state) i (g : goroutine) p' :
  goroutines s !! i = Some g ->
  goroutines s' = <[i := at_pc g p']> (goroutines s) ->
  cache s' = cache s -> compiled s' = compiled s ->
  (forall stmt, g_pc g ≠ AtStore stmt) ->
  pc_fact (cache s) (compiled s) (g_query g) p' ->
  cache_inv c0 s -> cache_inv c0 s'.
Proof.
  intros Hg Hgs Hc Hcmp Hns Hp' (C1 & C2 & C3 & C4 & C5).
  unfold PrepareRace.cache_inv. rewrite Hc, Hcmp, Hgs.
  split; [done|]. split; [done|]. split; [done|]. split.
  - intros q stmt Hin. destruct (C4 q stmt Hin) as [Hc0 [Hcq|(j & gj & Hgj & Hq & Hpc)]].
    + auto.
    + split; [done|]. right. exists j, gj.
      assert (j ≠ i) by (intros ->; rewrite Hg in Hgj; injection Hgj as <-; by eapply Hns).
      by rewrite list_lookup_insert_ne.
  - intros j gj Hgj. apply lookup_move in Hgj as [[-> ->]|[Hj Hgj]].
    + exact Hp'.
    + by apply (C5 j).
Qed.

(** [PrepareContext] has made a statement: the goroutine notes it. *)
Lemma cache_inv_prepared c0 (s s' : state) i (g : goroutine) stmt :
  goroutines s !! i = Some g ->
  g_pc g = AtPrepare ->
  goroutines s' = <[i := at_pc g (AtStore stmt)]> (goroutines s) ->
  cache s' = cache s ->
  compiled s' = compiled s ++ [(g_query g, stmt)] ->
  lock_inv s -> cache_inv c0 s -> cache_inv c0 s'.
Proof.
  intros Hg Hpc Hgs Hc Hcmp (L1 & L2 & L3 & L4) (C1 & C2 & C3 & C4 & C5).
  pose proof (C5 i g Hg) as Hfact. rewrite Hpc in Hfact. cbn in Hfact.
  assert (locked g = true) as Hl by (unfold locked; by rewrite Hpc).
  unfold PrepareRace.cache_inv. rewrite Hc, Hcmp, Hgs.
  split; [done|]. split; [|split; [|split]].
  - intros q x Hq. destruct (C2 q x Hq); [by left|right].
    apply elem_of_app. by left.
  - rewrite fmap_app. apply NoDup_app. split; [done|]. split; [|apply NoDup_singleton].
    intros q Hq Hq'. apply list_elem_of_singleton in Hq'. subst q.
    apply list_elem_of_fmap in Hq as ([q x] & Hqx & Hin). cbn in Hqx. subst q.
    destruct (C4 _ _ Hin) as [_ [Hcq|(j & gj & Hgj & Hq & Hpcj)]]; [congruence|].
    assert (j = i).
    { eapply L2; eauto. unfold locked. by rewrite Hpcj. }
    subst j. rewrite Hg in Hgj. injection Hgj as <-. congruence.
  - intros q x Hin. apply elem_of_app in Hin as [Hin|Hin].
    + destruct (C4 q x Hin) as [Hc0 [Hcq|(j & gj & Hgj & Hq & Hpcj)]]; [by auto|].
      split; [done|]. right. exists j, gj.
      assert (j ≠ i) by (intros ->; rewrite Hg in Hgj; injection Hgj as <-; congruence).
      by rewrite list_lookup_insert_ne.
    + apply list_elem_of_singleton in Hin. injection Hin as -> ->.
      split.
      * destruct (c0 !! g_query g) as [y|] eqn:E; [|done].
        apply C1 in E. congruence.
      * right. exists i, (at_pc g (AtStore stmt)).
        split; [|done]. apply list_lookup_insert_eq. by eapply lookup_lt_Some.
  - intros j gj Hgj. apply lookup_move in Hgj as [[-> ->]|[Hj Hgj]].
    + cbn. split; [done|]. apply elem_of_app. right. by apply list_elem_of_singleton.
    + specialize (C5 j gj Hgj). destruct (g_pc gj) as [| |[?|]| | | |?|[?|?]|[?|?]]; cbn in *; try done.
      destruct C5. split; [done|]. apply elem_of_app. by left.
Qed.

(** The goroutine writes its statement into the cache. *)
Lemma cache_inv_stored c0 (s s' : state) i (g : goroutine) stmt :
  goroutines s !! i = Some g ->
  g_pc g = AtStore stmt ->
  goroutines s' = <[i := at_pc g (AtUnlock (Ok stmt))]> (goroutines s) ->
  cache s' = <[g_query g := stmt]> (cache s) ->
  compiled s' = compiled s ->
  lock_inv s -> cache_inv c0 s -> cache_inv c0 s'.
Proof.
  intros Hg Hpc Hgs Hc Hcmp (L1 & L2 & L3 & L4) (C1 & C2 & C3 & C4 & C5).
  pose proof (C5 i g Hg) as Hfact. rewrite Hpc in Hfact. cbn in Hfact.
  destruct Hfact as [Hnone Hmine].
  assert (locked g = true) as Hl by (unfold locked; by rewrite Hpc).
  assert (forall q x, cache s !! q = Some x ->
            <[g_query g := stmt]> (cache s) !! q = Some x) as Hkeep.
  { intros q x Hq. rewrite lookup_insert_ne; [done|]. congruence. }
  unfold PrepareRace.cache_inv. rewrite Hc, Hcmp, Hgs.
  split; [|split; [|split; [done|split]]].
  - intros q x Hq. apply Hkeep. by apply C1.
  - intros q x Hq. destruct (decide (q = g_query g)) as [->|Hne].
    + rewrite lookup_insert_eq in Hq. injection Hq as <-. by right.
    + rewrite lookup_insert_ne in Hq by done. by apply C2.
  - intros q x Hin.
    destruct (C4 q x Hin) as [Hc0 [Hcq|(j & gj & Hgj & Hq & Hpcj)]].
    + split; [done|]. left. by apply Hkeep.
    + split; [done|]. left.
      assert (j = i).
      { eapply L2; eauto. unfold locked. by rewrite Hpcj. }
      subst j. rewrite Hg in Hgj. injection Hgj as <-.
      rewrite Hpc in Hpcj. injection Hpcj as <-. subst q.
      apply lookup_insert_eq.
  - intros j gj Hgj. apply lookup_move in Hgj as [[-> ->]|[Hj Hgj]].
    + cbn. apply lookup_insert_eq.
    + specialize (C5 j gj Hgj).
      assert (locked gj = false) as Hlj.
      { destruct (locked gj) eqn:E; [|done]. destruct Hj. by eapply L2. }
      destruct (g_pc gj) as [| |[?|]| | | |?|[?|?]|[?|?]] eqn:Epc; cbn in *;
        unfold locked in Hlj; rewrite Epc in Hlj; try done; by apply Hkeep.
Qed.

Ltac step_guards Hstep :=
  repeat match type of Hstep with
  | (if ?b then _ else _) = _ => destruct b eqn:?; [done|]
  | (if ?b then _ else _) = _ => destruct b eqn:?; [|done]
  | match ?x with (_, _) => _ end = _ => destruct x as [[?|?] ?] eqn:?
  | None = Some _ => done
  end;
  injection Hstep as <-.

Lemma rank_move (gs gs' : list goroutine) i (g g' : goroutine) :
  gs !! i = Some g -> gs' = <[i := g']> gs -> (rank g' < rank g)%nat ->
  (total_rank gs' < total_rank gs)%nat /\ length gs' = length gs.
Proof.
  intros Hg -> Hlt. split; [|apply length_insert].
  unfold total_rank. pose proof (sum_insert rank _ i g g' Hg). lia.
Qed.

Lemma reading_counted (s : state) i (g : goroutine) :
  lock_inv s -> goroutines s !! i = Some g -> reading g = true ->
  (0 < mu_readers s)%nat.
Proof.
  intros (_ & _ & L3 & _) Hg Hr. rewrite L3. unfold readers_of.
  pose proof (sum_pos (fun g : goroutine => if reading g then 1%nat else 0%nat)
                (goroutines s) g (list_elem_of_lookup_2 _ _ _ Hg)) as Hp.
  cbv beta in Hp. rewrite Hr in Hp. lia.
Qed.

(** A step keeps the invariants and uses up rank. *)
Lemma step_inv c0 i (s s' : state) :
  step i s = Some s' ->
  lock_inv s -> cache_inv c0 s ->
  lock_inv s' /\ cache_inv c0 s'
  /\ (total_rank (goroutines s') < total_rank (goroutines s))%nat
  /\ length (goroutines s') = length (goroutines s).
Proof.
  intros Hstep HL HC.
  unfold PrepareRace.step in Hstep.
  destruct (goroutines s !! i) as [g|] eqn:Hg; [|done].
  pose proof HC as (C1 & C2 & C3 & C4 & C5). specialize (C5 _ _ Hg).
  cbv zeta beta in Hstep.
  destruct g as [c q p]. cbn [g_pc g_query g_ctx] in *.
  destruct p as [| |found| | | |stmt|r|r]; step_guards Hstep; cbn in C5.
  all: repeat match goal with
       | |- context [match ?x with Some _ => _ | None => _ end] =>
         destruct x eqn:?
       end.
  all: try match goal with
       | H : _ || _ = false |- _ =>
         apply orb_false_iff in H as [? ?%negb_false_iff%Nat.eqb_eq]
       end.
  all: try (pose proof (reading_counted s i _ HL Hg eq_refl)).
  all: split; [eapply lock_inv_move; [exact Hg|reflexivity|cbn..|exact HL];
               first [lia | done | by auto]|
         split; [|eapply rank_move; [exact Hg|reflexivity|cbn; lia]]].
  all: first
    [ eapply cache_inv_move;
        [exact Hg|reflexivity|reflexivity|reflexivity|done| |exact HC];
        cbn; by eauto
    | eapply cache_inv_prepared;
        [exact Hg|reflexivity|reflexivity|reflexivity|reflexivity|exact HL|exact HC]
    | eapply cache_inv_stored;
        [exact Hg|reflexivity|reflexivity|reflexivity|reflexivity|exact HL|exact HC]
    | idtac ].
  - eapply cache_inv_move;
      [exact Hg|reflexivity|reflexivity|reflexivity|done| |exact HC].
    cbn. by destruct (cache s !! q) eqn:E.
  - eapply cache_inv_move;
      [exact Hg|reflexivity|reflexivity|reflexivity|done| |exact HC].
    cbn. match goal with H : PrepareContext _ _ _ = _ |- _ =>
           eexists _, _; by rewrite H end.
Qed.

Lemma init_rank (c0 : gmap string Stmt) (d0 : DB) callers :
  total_rank (goroutines (init c0 d0 callers)) = (8 * length callers)%nat.
Proof.
  cbn. unfold total_rank. rewrite <- list_fmap_compose.
  induction callers as [|a l IH]; [done|].
  cbn [fmap list_fmap sum_list length]. rewrite IH. cbn [compose rank g_pc]. unfold id. lia.
Qed.

(** The invariants hold at the start. *)
Lemma init_inv c0 d0 callers :
  lock_inv (init c0 d0 callers) /\ cache_inv c0 (init c0 d0 callers)
  /\ total_rank (goroutines (init c0 d0 callers)) = (8 * length callers)%nat.
Proof.
  assert (forall i g, goroutines (init c0 d0 callers) !! i = Some g ->
            g_pc g = AtRLock) as Hstart.
  { intros i g. cbn. rewrite list_lookup_fmap.
    destruct (callers !! i); cbn; [|done]. by intros [= <-]. }
  split; [|split].
  - split; [|split; [|split]].
    + split; [done|]. intros (i & g & Hg & Hl).
      apply Hstart in Hg. unfold locked in Hl. by rewrite Hg in Hl.
    + intros i j gi gj Hgi _ Hl. apply Hstart in Hgi.
      unfold locked in Hl. by rewrite Hgi in Hl.
    + cbn. unfold readers_of. rewrite <- list_fmap_compose.
      symmetry. by apply sum_zero.
    + done.
  - split; [done|]. split; [by left|]. split; [constructor|]. split.
    + intros q stmt Hin. by apply elem_of_nil in Hin.
    + intros i g Hg. apply Hstart in Hg. by rewrite Hg.
  - apply init_rank.
Qed.

(** The invariants hold along every run, and a run is no longer than
    the rank it uses up. *)
Lemma run_inv c0 schedule : forall (s s' : state),
  run schedule s = Some s' ->
  lock_inv s -> cache_inv c0 s ->
  lock_inv s' /\ cache_inv c0 s'
  /\ (length schedule + total_rank (goroutines s')
      <= total_rank (goroutines s))%nat
  /\ length (goroutines s') = length (goroutines s).
Proof.
  induction schedule as [|i rest IH]; intros s s' Hrun HL HC; cbn in Hrun.
  - injection Hrun as <-. split; [done|]. split; [done|]. split; [cbn; lia|done].
  - destruct (step i s) as [s1|] eqn:Hstep; [|done].
    destruct (step_inv c0 i s s1 Hstep HL HC) as (HL1 & HC1 & Hr1 & Hlen1).
    destruct (IH s1 s' Hrun HL1 HC1) as (HL' & HC' & Hr' & Hlen').
    split; [done|]. split; [done|]. split; [cbn; lia|congruence].
Qed.


Lemma step_enabled (s : state) i (g : goroutine) :
  goroutines s !! i = Some g ->
  match g_pc g with
  | AtRLock => mu_writer s = false
  | AtLock => mu_writer s = false /\ mu_readers s = 0%nat
  | Returned _ => False
  | _ => True
  end ->
  exists s', step i s = Some s'.
Proof.
  intros Hg Hen. unfold PrepareRace.step. rewrite Hg. cbv zeta beta.
  destruct (g_pc g) as [| |found| | | |stmt|r|r]; try (eexists; reflexivity).
  - rewrite Hen. eexists; reflexivity.
  - destruct Hen as [-> ->]. eexists; reflexivity.
  - destruct (PrepareContext _ _ _) as [[?|?] ?]; eexists; reflexivity.
  - done.
Qed.

(** While a goroutine has not returned, some goroutine can take a step. *)
Lemma progress (s : state) :
  lock_inv s ->
  (exists g, g ∈ goroutines s /\ returned g = false) ->
  exists i s', step i s = Some s'.
Proof.
  intros (L1 & L2 & L3 & L4) (g & Hin & Hnr).
  destruct (mu_writer s) eqn:Hw.
  - destruct (proj1 L1 eq_refl) as (j & gj & Hgj & Hl).
    exists j. eapply step_enabled; [exact Hgj|].
    unfold locked in Hl. by destruct (g_pc gj).
  - destruct (decide (Exists (fun h => reading h = true) (goroutines s)))
      as [Hex|Hno].
    + apply Exists_exists in Hex as (h & Hh & Hr).
      apply list_elem_of_lookup in Hh as [j Hj].
      exists j. eapply step_enabled; [exact Hj|].
      unfold reading in Hr. by destruct (g_pc h).
    + assert (mu_readers s = 0%nat) as Hz.
      { rewrite L3. apply sum_zero. intros h Hh.
        destruct (reading h) eqn:E; [|done].
        destruct Hno. apply Exists_exists. eauto. }
      apply list_elem_of_lookup in Hin as [j Hj].
      exists j. eapply step_enabled; [exact Hj|].
      destruct (g_pc g) as [| |found| | | |stmt|r|r] eqn:Epc; try done.
      all: try (destruct Hno; apply Exists_exists; exists g;
                split; [by eapply list_elem_of_lookup_2|];
                unfold reading; by rewrite Epc).
      all: try (assert (false = true) as Habs; [|done];
                apply L1; exists j, g; split; [done|];
                unfold locked; by rewrite Epc).
      unfold returned in Hnr. by rewrite Epc in Hnr.
Qed.

(** A step leaves the context and the text of every goroutine alone. *)
Lemma step_callers i (s s' : state) :
  step i s = Some s' ->
  (fun g => (g_ctx g, g_query g)) <$> goroutines s'
  = (fun g => (g_ctx g, g_query g)) <$> goroutines s.
Proof.
  intros Hstep. unfold PrepareRace.step in Hstep.
  destruct (goroutines s !! i) as [g|] eqn:Hg; [|done].
  cbv zeta beta in Hstep.
  assert (forall p, (fun g => (g_ctx g, g_query g)) <$> <[i := at_pc g p]> (goroutines s)
                    = (fun g => (g_ctx g, g_query g)) <$> goroutines s) as Hmove.
  { intros p. rewrite list_fmap_insert. cbn. apply list_insert_id.
    by rewrite list_lookup_fmap, Hg. }
  destruct (g_pc g) as [| |found| | | |stmt|r|r]; step_guards Hstep; cbn; apply Hmove.
Qed.

Lemma run_callers schedule : forall (s s' : state),
  run schedule s = Some s' ->
  (fun g => (g_ctx g, g_query g)) <$> goroutines s'
  = (fun g => (g_ctx g, g_query g)) <$> goroutines s.
Proof.
  induction schedule as [|i rest IH]; intros s s' Hrun; cbn in Hrun.
  - by injection Hrun as <-.
  - destruct (step i s) as [s1|] eqn:Hstep; [|done].
    rewrite (IH _ _ Hrun). by eapply step_callers.
Qed.

Lemma init_callers (c0 : gmap string Stmt) (d0 : DB) callers :
  (fun g => (g_ctx g, g_query g)) <$> goroutines (init c0 d0 callers) = callers.
Proof.
  cbn. rewrite <- list_fmap_compose. rewrite <- (list_fmap_id callers) at 2.
  apply list_fmap_ext. by intros _ [c q] _.
Qed.

Lemma filter_key_absent (l : list (string * Stmt)) q :
  q ∉ l.*1 -> filter (fun x => x.1 = q) l = [].
Proof.
  induction l as [|[k v] l IH]; intros Hq; [done|].
  cbn in Hq. apply not_elem_of_cons in Hq as [Hk Hq].
  rewrite filter_cons_False by (cbn; congruence). by apply IH.
Qed.

Lemma filter_key_once (l : list (string * Stmt)) q stmt :
  NoDup l.*1 -> (q, stmt) ∈ l -> filter (fun x => x.1 = q) l = [(q, stmt)].
Proof.
  induction l as [|[k v] l IH]; intros Hnd Hin; [by apply elem_of_nil in Hin|].
  cbn in Hnd. apply NoDup_cons in Hnd as [Hk Hnd].
  apply elem_of_cons in Hin as [Heq|Hin].
  - injection Heq as <- <-.
    rewrite filter_cons_True by done. f_equal. by apply filter_key_absent.
  - rewrite filter_cons_False; [by apply IH|].
    cbn. intros ->. apply Hk. apply list_elem_of_fmap. by exists (q, stmt).
Qed.

Lemma filter_key_at_most_once (l : list (string * Stmt)) q :
  NoDup l.*1 -> (length (filter (fun x => x.1 = q) l) <= 1)%nat.
Proof.
  intros Hnd.
  destruct (filter (fun x => x.1 = q) l) as [|[k v] rest] eqn:E; [cbn; lia|].
  assert ((k, v) ∈ filter (fun x => x.1 = q) l) as Hin by (rewrite E; left).
  apply list_elem_of_filter in Hin as [Hk Hin]. cbn in Hk. subst k.
  rewrite (filter_key_once l q v Hnd Hin) in E. injection E as <-. cbn. lia.
Qed.

(** Every run can go on until the callers have all returned. *)
Lemma completion c0 (n : nat) : forall (s : state),
  (total_rank (goroutines s) <= n)%nat ->
  lock_inv s -> cache_inv c0 s ->
  exists rest s', run rest s = Some s' /\ all_returned s'.
Proof.
  induction n as [|n IH]; intros s Hn HL HC.
  - exists [], s. split; [done|].
    apply Forall_forall. intros g Hg.
    pose proof (sum_pos rank (goroutines s) g Hg) as Hr.
    unfold total_rank in Hn. unfold returned, rank in *.
    destruct (g_pc g); try done; lia.
  - destruct (decide (all_returned s)) as [Hall|Hnot].
    + by exists [], s.
    + apply not_Forall_Exists in Hnot; [|apply _].
      apply Exists_exists in Hnot as (g & Hg & Hnr). cbn in Hnr.
      destruct (progress s HL) as (i & s1 & Hstep).
      { exists g. split; [done|]. by destruct (returned g). }
      destruct (step_inv c0 i s s1 Hstep HL HC)
        as (HL1 & HC1 & Hr1 & _).
      destruct (IH s1) as (rest & s' & Hrun & Hall); [lia|done|done|].
      exists (i :: rest), s'. split; [|done]. cbn. by rewrite Hstep.
Qed.

(** C10. The callers enter [prepareQuery] on a shared cache [c0], each
    with its context and its text, and run interleaved in any order.
    In every state they reach:
    - [PrepareContext] has made at most one statement for each text, and
      none for a text that was in the cache;
    - while a goroutine holds the write lock no other holds the write
      lock or the read lock, and [PrepareContext] is called only under
      the write lock and only while the cache has no statement for the
      text;
    - a caller that has returned a handle has the handle in the cache;
    - no more than eight steps for each caller have been taken, while a
      caller has not returned some goroutine can take a step, and the run
      can go on until the callers have all returned.
    For a text [q] that is not in [c0], that [PrepareContext] accepts
    and that some caller asks for: once the callers have returned,
    exactly one statement has been compiled for [q], it is the one in the
    cache, and every caller of [q] has returned it. *)
Theorem one_statement_per_text (c0 : gmap string Stmt) (d0 : DB)
    (callers : list (Context * string)) (schedule : list nat) (s : state)
    (Hrun : run schedule (init c0 d0 callers) = Some s) :
  (forall q, (length (compiled_for q s) <= 1)%nat)
  /\ (forall q stmt, (q, stmt) ∈ compiled s -> c0 !! q = None)
  /\ (forall i j gi gj,
        goroutines s !! i = Some gi -> goroutines s !! j = Some gj ->
        locked gi = true ->
        reading gj = false /\ (locked gj = true -> i = j))
  /\ (forall g, g ∈ goroutines s -> g_pc g = AtPrepare ->
        mu_writer s = true /\ cache s !! g_query g = None)
  /\ (forall g stmt, g ∈ goroutines s -> g_pc g = Returned (Ok stmt) ->
        cache s !! g_query g = Some stmt)
  /\ (length schedule <= 8 * length callers)%nat
  /\ ((exists g, g ∈ goroutines s /\ returned g = false) ->
        exists i s', step i s = Some s')
  /\ (exists rest s', run rest s = Some s' /\ all_returned s')
  /\ (forall q,
        c0 !! q = None ->
        (forall c d, exists stmt d', PrepareContext c q d = (Ok stmt, d')) ->
        (exists c, (c, q) ∈ callers) ->
        all_returned s ->
        exists stmt,
          compiled_for q s = [(q, stmt)]
          /\ cache s !! q = Some stmt
          /\ forall g, g ∈ goroutines s -> g_query g = q ->
               g_pc g = Returned (Ok stmt)).
Proof.
  destruct (init_inv c0 d0 callers) as (HL0 & HC0 & Hrank0).
  destruct (run_inv c0 schedule _ _ Hrun HL0 HC0) as (HL & HC & Hrank & Hlen).
  pose proof HC as (C1 & C2 & C3 & C4 & C5).
  split; [|split; [|split; [|split; [|split; [|split; [|split; [|split]]]]]]].
  - intros q. by apply filter_key_at_most_once.
  - intros q stmt Hin. by destruct (C4 q stmt Hin).
  - intros i j gi gj Hgi Hgj Hl. split.
    + destruct (reading gj) eqn:Hr; [|done].
      pose proof (reading_counted s j gj HL Hgj Hr) as Hpos.
      destruct HL as (L1 & _ & _ & L4).
      assert (mu_writer s = true) as Hw by (apply L1; eauto).
      specialize (L4 Hw). lia.
    + intros Hl'. destruct HL as (_ & L2 & _). by eapply L2.
  - intros g Hin Hpc. apply list_elem_of_lookup in Hin as [i Hi].
    split.
    + destruct HL as (L1 & _). apply L1. exists i, g. split; [done|].
      unfold locked. by rewrite Hpc.
    + specialize (C5 i g Hi). by rewrite Hpc in C5.
  - intros g stmt Hin Hpc. apply list_elem_of_lookup in Hin as [i Hi].
    specialize (C5 i g Hi). by rewrite Hpc in C5.
  - lia.
  - by apply progress.
  - by apply (completion c0 (total_rank (goroutines s))).
  - intros q Hc0 Hok [c Hcq] Hall.
    assert (forall g, g ∈ goroutines s -> g_query g = q ->
              exists stmt, g_pc g = Returned (Ok stmt)
                           /\ cache s !! q = Some stmt) as Hret.
    { intros g Hin Hq.
      pose proof (proj1 (Forall_forall _ _) Hall g Hin) as Hr.
      apply list_elem_of_lookup in Hin as [i Hi].
      specialize (C5 i g Hi). unfold returned in Hr.
      destruct (g_pc g) as [| |found| | | |stmt|r|[stmt|e]]; try done.
      - exists stmt. cbn in C5. by rewrite <- Hq.
      - cbn in C5. destruct C5 as (c' & d & Herr). rewrite Hq in Herr.
        destruct (Hok c' d) as (stmt & d' & Hprep). by rewrite Hprep in Herr. }
    assert (exists g, g ∈ goroutines s /\ g_query g = q) as (g & Hg & Hgq).
    { pose proof (run_callers _ _ _ Hrun) as Hcs. rewrite init_callers in Hcs.
      rewrite <- Hcs in Hcq. apply list_elem_of_fmap in Hcq as (g & Heq & Hin).
      exists g. split; [done|]. by injection Heq. }
    destruct (Hret g Hg Hgq) as (stmt & Hpc & Hcache).
    exists stmt. split; [|split; [done|]].
    + apply filter_key_once; [done|].
      destruct (C2 q stmt Hcache) as [Hin0|Hin]; [congruence|done].
    + intros g' Hg' Hq'. destruct (Hret g' Hg' Hq') as (stmt' & Hpc' & Hcache').
      congruence.
Qed.

(** A goroutine that runs [prepareQuery] with no other around does what
    [Orm.prepareQuery] does. *)
Lemma alone_is_prepareQuery (m : Model) (q : string) (w : World DB Stmt) :
  exists n s,
    run (replicate n 0%nat)
      (init (prepared (orm w)) (database w) [(ctx m, q)]) = Some s
    /\ g_pc <$> goroutines s
       = [Returned (Orm.prepareQuery DB Stmt PrepareContext m q w).1]
    /\ cache s = prepared (orm (Orm.prepareQuery DB Stmt PrepareContext m q w).2)
    /\ db s = database (Orm.prepareQuery DB Stmt PrepareContext m q w).2
    /\ mu_readers s = 0%nat /\ mu_writer s = false.
Proof.
  unfold Orm.prepareQuery, bind, cache_lookup, emit, call, cache_store, ret.
  destruct (prepared (orm w) !! q) as [stmt|] eqn:Hc.
  - exists 3%nat. eexists. split.
    + cbn. rewrite Hc. cbn. reflexivity.
    + cbn. by repeat split.
  - cbn [orm database trace].
    destruct (PrepareContext (ctx m) q (database w)) as [[stmt|e] d] eqn:Hp.
    + exists 8%nat. eexists. split.
      * cbn. rewrite Hc. cbn. rewrite Hc. cbn. rewrite Hp. cbn. reflexivity.
      * cbn. rewrite Hc. cbn. rewrite Hp. cbn. by repeat split.
    + exists 7%nat. eexists. split.
      * cbn. rewrite Hc. cbn. rewrite Hc. cbn. rewrite Hp. cbn. reflexivity.
      * cbn. rewrite Hc. cbn. rewrite Hp. cbn. by repeat split.
Qed.
End Race.

End PrepareRaceFacts.

(** ** The theorems at work on the example database *)
Module Witnesses.
Import GoRuntime Orm OrmSpec GoRuntimeFacts OrmFacts.

Lemma buildWhereClause_follows_spec_witness :
  MinInt <= 1 <= MaxInt
  /\ buildWhereClause Example.users_by_id 1
     = (" WHERE id = $1 OR id = $2", [Int 1; Int 2]).
Proof.
  split; [by vm_compute|].
  destruct (buildWhereClause_follows_spec Example.unicode_upper_table
              Example.users_by_id 1) as [H _]; [by vm_compute..|].
  rewrite H. by vm_compute.
Defined.

Lemma rendering_fixed_by_range_order_witness :
  renders (OpUpdate two_fields) Example.users_by_id
    (Update_query Example.users_by_id [("a", Int 1); ("b", Int 2)])
  /\ renders (OpUpdate two_fields) Example.users_by_id
    (Update_query Example.users_by_id [("b", Int 2); ("a", Int 1)])
  /\ (Update_query Example.users_by_id [("a", Int 1); ("b", Int 2)]).2
     ≡ₚ (Update_query Example.users_by_id [("b", Int 2); ("a", Int 1)]).2.
Proof.
  destruct two_fields_orders as [Hab Hba].
  assert (forall kvs, range_order two_fields kvs ->
            renders (OpUpdate two_fields) Example.users_by_id
              (Update_query Example.users_by_id kvs)) as Hr.
  { intros kvs Hk. by exists kvs. }
  split; [by apply Hr|]. split; [by apply Hr|].
  destruct (rendering_fixed_by_range_order (OpUpdate two_fields)
              Example.users_by_id _ _ (Hr _ Hab) (Hr _ Hba))
    as (kvs1 & kvs2 & _ & _ & _ & _ & _ & _ & _ & _ & Hperm);
    [by vm_compute|].
  exact Hperm.
Defined.

Lemma First_takes_head_of_Get_witness :
  (Example.QueryContext
     (buildSelectQuery (with_query (set_limit 1) Example.users_by_id)).1
     Background [Int 1; Int 2] tt).1 = Ok Example.no_rows
  /\ (Orm.First Example.DB Example.Stmt Example.PrepareContext
        Example.QueryContext Example.RowsClose
        Example.users_by_id Example.fresh).1
     = (with_query (set_limit 1) Example.users_by_id, Err ErrNoRows).
Proof.
  split; [reflexivity|].
  eapply (First_takes_head_of_Get Example.DB Example.Stmt
            Example.PrepareContext Example.QueryContext Example.RowsClose
            Example.users_by_id Example.fresh);
    [by vm_compute | by vm_compute | reflexivity | reflexivity].
Defined.

Lemma Update_numbers_across_clauses_witness :
  range_order Example.new_email [("email", Str "new@x.com")]
  /\ Update_query Example.users_by_id [("email", Str "new@x.com")]
     = ("UPDATE users SET email = $1 WHERE id = $2 OR id = $3",
        [Str "new@x.com"; Int 1; Int 2]).
Proof.
  assert (range_order Example.new_email [("email", Str "new@x.com")]) as Ho.
  { unfold range_order, Example.new_email. by rewrite map_to_list_singleton. }
  split; [exact Ho|].
  destruct (Update_numbers_across_clauses Example.DB Example.Stmt
              Example.PrepareContext Example.ExecContext
              Example.users_by_id Example.new_email
              [("email", Str "new@x.com")]) as [H _];
    [by vm_compute | exact Ho | by vm_compute |].
  rewrite H. by vm_compute.
Defined.

Lemma Create_adds_timestamps_witness :
  range_order (newData Example.alice (Time 7))
    (map_to_list (newData Example.alice (Time 7)))
  /\ ("created_at", Time 7) ∈ map_to_list (newData Example.alice (Time 7))
  /\ ("username", Str "alice") ∈ map_to_list (newData Example.alice (Time 7))
  /\ (Orm.Create Example.DB Example.Stmt Example.PrepareContext
        Example.QueryContext Example.RowsClose
        Example.users_by_id Example.alice (Time 7) map_to_list
        Example.fresh).1
     = Err (Errorf "no data returned after insert").
Proof.
  assert (range_order (newData Example.alice (Time 7))
            (map_to_list (newData Example.alice (Time 7)))) as Ho
    by (by unfold range_order).
  split; [exact Ho|].
  destruct (Create_adds_timestamps Example.DB Example.Stmt
              Example.PrepareContext Example.QueryContext Example.RowsClose
              Example.users_by_id Example.alice (Time 7) map_to_list)
    as (Hpairs & _ & _ & _ & Hrun);
    [by vm_compute | exact Ho | by vm_compute |].
  split; [apply Hpairs; right; split; [by vm_compute|split; [by left|done]]|].
  split; [apply Hpairs; left; by vm_compute|].
  destruct (Hrun Example.fresh
              (insert_spec Example.users_by_id
                 (map_to_list (newData Example.alice (Time 7)))).1
              (Orm.prepareQuery Example.DB Example.Stmt
                 Example.PrepareContext Example.users_by_id
                 (insert_spec Example.users_by_id
                    (map_to_list (newData Example.alice (Time 7)))).1
                 Example.fresh).2
              (Ok Example.no_rows) tt) as (Hres & _);
    [by vm_compute | reflexivity |].
  rewrite Hres. reflexivity.
Defined.

Lemma one_statement_per_text_witness :
  match PrepareRace.run Example.DB Example.Stmt Example.PrepareContext
          Example.race_schedule
          (PrepareRace.init ∅ tt Example.race_callers) with
  | Some s =>
    PrepareRace.compiled_for "SELECT 1" s = [("SELECT 1", "SELECT 1")]
    /\ PrepareRace.g_pc <$> PrepareRace.goroutines s
       = [PrepareRace.Returned (Ok "SELECT 1");
          PrepareRace.Returned (Ok "SELECT 1")]
  | None => False
  end.
Proof.
  destruct (PrepareRace.run _ _ _ _ _) as [s|] eqn:Hrun;
    [|by vm_compute in Hrun].
  destruct (PrepareRaceFacts.one_statement_per_text Example.DB Example.Stmt
              Example.PrepareContext ∅ tt Example.race_callers
              Example.race_schedule s Hrun)
    as (_ & _ & _ & _ & _ & _ & _ & _ & Hend).
  destruct (Hend "SELECT 1") as (stmt & Hone & Hcache & Hall).
  - done.
  - intros c d. by eexists _, _.
  - exists Background. by left.
  - vm_compute in Hrun. injection Hrun as <-. by repeat constructor.
  - vm_compute in Hrun. injection Hrun as <-.
    split; [by vm_compute|].
    assert (stmt = "SELECT 1") as -> by (vm_compute in Hcache; congruence).
    done.
Defined.

End Witnesses.

(** * More of the code *)

(** ** The sanitizer, the builder and the renderings *)
Module OrmExtraFacts.
Import GoRuntime Orm OrmSpec OrmExtra GoRuntimeFacts OrmFacts.

(** *** The sanitizer *)

Lemma filter_bytes_app p s t :
  filter_bytes p (s +:+ t) = filter_bytes p s +:+ filter_bytes p t.
Proof.
  induction s as [|a s IH]; [done|].
  rewrite append_cons. cbn [filter_bytes]. rewrite IH. by destruct (p a).
Qed.

Lemma filter_bytes_id p s : all_bytes p s = true -> filter_bytes p s = s.
Proof.
  induction s as [|a s IH]; [done|]. cbn [all_bytes filter_bytes].
  intros [Ha Hs]%andb_true_iff. by rewrite Ha, IH.
Qed.

Lemma sanitizeColumn_clean s : all_bytes ident_byte (sanitizeColumn s) = true.
Proof. rewrite sanitizeColumn_filter. apply filter_bytes_all. Qed.

(** X1. Sanitizing is idempotent, it leaves a string unchanged exactly
    when the string holds only bytes of [[A-Za-z0-9_]], and the result
    is never longer than the input. *)
Theorem sanitizeColumn_idempotent (s : string) :
  sanitizeColumn (sanitizeColumn s) = sanitizeColumn s
  /\ (sanitizeColumn s = s <-> all_bytes ident_byte s = true)
  /\ (String.length (sanitizeColumn s) <= String.length s)%nat.
Proof.
  split; [|split].
  - rewrite (sanitizeColumn_filter (sanitizeColumn s)).
    apply filter_bytes_id, sanitizeColumn_clean.
  - split.
    + intros <-. apply sanitizeColumn_clean.
    + intros H. rewrite sanitizeColumn_filter. by apply filter_bytes_id.
  - rewrite sanitizeColumn_filter.
    induction s as [|a s IH]; [done|]. cbn [filter_bytes].
    destruct (ident_byte a); cbn [String.length]; lia.
Qed.

(** X2. Sanitizing goes through concatenation, wherever the strings are
    cut, in the middle of a UTF-8 sequence too. *)
Theorem sanitizeColumn_app (s t : string) :
  sanitizeColumn (s +:+ t) = sanitizeColumn s +:+ sanitizeColumn t.
Proof. rewrite !sanitizeColumn_filter. apply filter_bytes_app. Qed.

(** *** Upper case *)

Lemma byte_val_of z : 0 <= z < 256 -> byte_val (byte_of z) = z.
Proof.
  intros Hz. unfold byte_val, byte_of. rewrite Z.mod_small by lia.
  rewrite N_ascii_embedding by lia. lia.
Qed.

Lemma upper_byte_ascii a :
  byte_val a < 128 -> byte_val (upper_byte a) < 128.
Proof.
  intros Ha. unfold upper_byte.
  destruct ((97 <=? byte_val a) && (byte_val a <=? 122)) eqn:E; [|done].
  apply andb_true_iff in E as [?%Z.leb_le ?%Z.leb_le].
  rewrite byte_val_of by lia. lia.
Qed.

Lemma upper_byte_twice a : upper_byte (upper_byte a) = upper_byte a.
Proof.
  destruct ((97 <=? byte_val a) && (byte_val a <=? 122)) eqn:E.
  - assert (upper_byte a = byte_of (byte_val a - 32)) as ->
      by (unfold upper_byte; by rewrite E).
    apply andb_true_iff in E as [?%Z.leb_le ?%Z.leb_le].
    unfold upper_byte. rewrite byte_val_of by lia.
    replace ((97 <=? byte_val a - 32) && (byte_val a - 32 <=? 122))
      with false; [done|].
    symmetry. apply andb_false_iff. left. apply Z.leb_gt. lia.
  - assert (upper_byte a = a) as Hid
      by (unfold upper_byte; by rewrite E).
    by rewrite !Hid.
Qed.

Section Upper.
Variable unicode_upper_table : rune -> rune.
Local Abbreviation ToUpper := (strings_ToUpper unicode_upper_table).

Lemma ToUpper_ascii s :
  all_bytes (fun a => byte_val a <? RuneSelf) s = true ->
  ToUpper s = map_bytes upper_byte s
  /\ all_bytes (fun a => byte_val a <? RuneSelf) (map_bytes upper_byte s) = true.
Proof.
  intros H. unfold strings_ToUpper. rewrite H. split; [done|].
  induction s as [|a s IH]; [done|]. cbn [all_bytes map_bytes] in *.
  apply andb_true_iff in H as [Ha Hs]. rewrite (IH Hs), andb_true_r.
  unfold RuneSelf in *. apply Z.ltb_lt. apply upper_byte_ascii. by apply Z.ltb_lt.
Qed.

Lemma ToUpper_twice s :
  all_bytes (fun a => byte_val a <? RuneSelf) s = true ->
  ToUpper (ToUpper s) = ToUpper s.
Proof.
  intros H. destruct (ToUpper_ascii s H) as [-> H'].
  destruct (ToUpper_ascii _ H') as [-> _].
  clear. induction s as [|a s IH]; [done|]. cbn [map_bytes].
  by rewrite upper_byte_twice, IH.
Qed.

(** X3. An operator written in ASCII is taken without regard to case:
    [Where] and [OrWhere] do with it what they do with its upper-case
    form, and they keep the length of the operator. *)
Theorem Where_ignores_ascii_case (column op : string) (v : any) (m : Model)
    (Hascii : all_bytes (fun a => byte_val a <? RuneSelf) op = true) :
  Where unicode_upper_table column op v m
    = Where unicode_upper_table column (ToUpper op) v m
  /\ OrWhere unicode_upper_table column op v m
    = OrWhere unicode_upper_table column (ToUpper op) v m
  /\ String.length (ToUpper op) = String.length op.
Proof.
  unfold Where, OrWhere. rewrite ToUpper_twice by done.
  split; [done|]. split; [done|].
  destruct (ToUpper_ascii op Hascii) as [-> _].
  clear. induction op as [|a s IH]; [done|]. cbn. by rewrite IH.
Qed.
(** X4. Calls of different chaining methods can be exchanged: [Where]
    and [OrWhere], in either order, leave the same builder or panic
    alike, so that the predicates of [Where] are rendered before those
    of [OrWhere] also when [OrWhere] was called first; and [Where]
    can be exchanged with [Select] and with [Join]. *)
Theorem Where_OrWhere_commute (column1 op1 : string) (v1 : any)
    (column2 op2 : string) (v2 : any) (columns : list string)
    (tbl cond : string) (args : list any) (m : Model) :
  and_then (Where unicode_upper_table column1 op1 v1 m)
    (OrWhere unicode_upper_table column2 op2 v2)
  = and_then (OrWhere unicode_upper_table column2 op2 v2 m)
      (Where unicode_upper_table column1 op1 v1)
  /\ and_then (Where unicode_upper_table column1 op1 v1 m)
       (fun m' => Returns (Select columns m'))
     = Where unicode_upper_table column1 op1 v1 (Select columns m)
  /\ and_then (Where unicode_upper_table column1 op1 v1 m)
       (fun m' => Returns (Join tbl cond args m'))
     = Where unicode_upper_table column1 op1 v1 (Join tbl cond args m).
Proof.
  unfold Where, OrWhere.
  destruct (validOperators_at (ToUpper op1)),
    (validOperators_at (ToUpper op2)); cbn [negb and_then];
    by repeat split.
Qed.
End Upper.

(** *** Builders made through the methods *)

Lemma digit_is_ident x : (x < 10)%N -> ident_byte (pretty_N_char x) = true.
Proof.
  intros Hx.
  assert (x = 0 \/ x = 1 \/ x = 2 \/ x = 3 \/ x = 4 \/ x = 5 \/ x = 6
          \/ x = 7 \/ x = 8 \/ x = 9)%N as Hc by lia.
  repeat (destruct Hc as [->|Hc]; [reflexivity|]). by subst.
Qed.

Lemma pretty_N_go_ident x : forall s,
  all_bytes ident_byte s = true ->
  all_bytes ident_byte (pretty_N_go x s) = true.
Proof.
  induction x as [x IH] using (well_founded_induction N.lt_wf_0).
  intros s Hs. destruct (decide (x = 0%N)) as [->|Hx].
  - by rewrite pretty_N_go_0.
  - rewrite pretty_N_go_step by lia. apply IH.
    + apply N.div_lt; lia.
    + cbn [all_bytes]. rewrite Hs, andb_true_r.
      apply digit_is_ident. apply N.mod_lt. lia.
Qed.

(** The decimal digits of a number that is not negative. *)
Lemma Sprintf_d_ident n : 0 <= n -> all_bytes ident_byte (Sprintf_d n) = true.
Proof.
  intros Hn. unfold Sprintf_d, pretty, pretty_Z.
  destruct n as [|p|p]; [done| |lia].
  unfold pretty, pretty_positive, pretty, pretty_N.
  rewrite decide_False by done. by apply pretty_N_go_ident.
Qed.

Lemma ident_is_clause s :
  all_bytes ident_byte s = true -> all_bytes clause_byte s = true.
Proof.
  induction s as [|a s IH]; [done|]. cbn [all_bytes].
  intros [Ha Hs]%andb_true_iff. rewrite (IH Hs), andb_true_r.
  unfold clause_byte. by rewrite Ha.
Qed.

Lemma allow_list_clause op :
  op ∈ allow_list -> all_bytes clause_byte op = true.
Proof.
  intros Hop.
  assert (Forall (fun o => all_bytes clause_byte o = true) allow_list) as Hall.
  { unfold allow_list. repeat constructor. }
  by apply (proj1 (Forall_forall _ _) Hall).
Qed.

Lemma predicate_clause w n :
  clean_predicate w -> 0 <= n ->
  all_bytes clause_byte (Sprintf_predicate w n) = true.
Proof.
  intros [Hc Ho] Hn. unfold Sprintf_predicate.
  rewrite !all_bytes_app, (ident_is_clause _ Hc), (allow_list_clause _ Ho).
  by rewrite (ident_is_clause _ (Sprintf_d_ident n Hn)).
Qed.

Lemma separated_clause sep lead items :
  all_bytes clause_byte sep = true ->
  Forall (fun x => all_bytes clause_byte x = true) items ->
  all_bytes clause_byte (separated sep lead items) = true.
Proof.
  intros Hsep Hitems. revert lead.
  induction Hitems as [|x rest Hx _ IH]; intros lead; [done|].
  cbn [separated]. rewrite !all_bytes_app, Hx, IH, andb_true_r.
  by destruct lead.
Qed.

Lemma numbered_clause ps : forall start,
  Forall clean_predicate ps -> 0 <= start ->
  Forall (fun x => all_bytes clause_byte x = true) (numbered start ps).
Proof.
  induction ps as [|w ps IH]; intros start Hps Hs; [constructor|].
  rewrite numbered_cons. apply Forall_cons in Hps as [Hw Hps].
  constructor; [by apply predicate_clause|]. apply IH; [done|lia].
Qed.

Lemma where_spec_clause ands ors start :
  Forall clean_predicate ands -> Forall clean_predicate ors -> 0 <= start ->
  all_bytes clause_byte (where_spec ands ors start).1 = true.
Proof.
  intros Ha Ho Hs. unfold where_spec.
  assert (all_bytes clause_byte
            (" WHERE " +:+ strings_Join (numbered start ands) " AND "
             +:+ (match ands, ors with
                  | _ :: _, _ :: _ => " OR "
                  | _, _ => EmptyString
                  end)
             +:+ strings_Join (numbered (start + len ands) ors) " OR ") = true)
    as Hall.
  { rewrite !all_bytes_app, !Join_separated.
    assert (0 <= start + len ands) by (unfold len; lia).
    rewrite (separated_clause " AND " false);
      [|done|by apply numbered_clause].
    rewrite (separated_clause " OR " false);
      [|done|by apply numbered_clause].
    by destruct ands, ors. }
  by destruct ands, ors.
Qed.

(** *** The SELECT statement *)

Lemma joins_loop_spec js : forall b vs,
  joins_loop js (b, vs)
  = (b +:+ concat_strings (join_text <$> js), vs ++ concat (join_args <$> js)).
Proof.
  induction js as [|j js IH]; intros b vs; cbn [joins_loop].
  - cbn. by rewrite append_nil_r, app_nil_r.
  - cbn [fmap list_fmap concat_strings concat]. unfold join_text, join_args.
    destruct (String.eqb (joinCondition j) EmptyString); cbn [negb];
      rewrite IH, ?app_nil_l, ?app_assoc, !append_assoc; reflexivity.
Qed.

Lemma having_loop_spec hs : forall i b vs,
  0 <= i ->
  having_loop i hs (b, vs)
  = (b +:+ separated " AND " (0 <? i) (havingCondition <$> hs),
     vs ++ concat (havingArgs <$> hs)).
Proof.
  induction hs as [|h hs IH]; intros i b vs Hi; cbn [having_loop].
  - cbn. by rewrite append_nil_r, app_nil_r.
  - rewrite lead_append, IH by lia.
    replace (0 <? i + 1) with true by (symmetry; apply Z.ltb_lt; lia).
    cbn [fmap list_fmap separated concat].
    by rewrite !append_assoc, app_assoc.
Qed.

(** The arguments of the SELECT statement, whatever their number. *)
Lemma buildSelectQuery_values m :
  (buildSelectQuery m).2
  = concat (join_args <$> joins (query m))
    ++ ((value <$> wheres (query m)) ++ (value <$> orWheres (query m)))
    ++ concat (havingArgs <$> having (query m)).
Proof.
  unfold buildSelectQuery. cbv zeta. rewrite joins_loop_spec. cbn [app].
  pose proof (buildWhereClause_values m
    (wrap_int (len (concat (join_args <$> joins (query m))) + 1))) as Hv.
  destruct (buildWhereClause m _) as [wc wv]. cbn [snd] in Hv. subst wv.
  destruct (having (query m)) as [|h hs].
  - change (0 <? len []) with false. cbv iota. cbn. by rewrite app_nil_r.
  - replace (0 <? len (h :: hs)) with true
      by (symmetry; apply Z.ltb_lt; len_lia).
    rewrite having_loop_spec by lia. cbn [snd]. by rewrite <- app_assoc.
Qed.

Lemma buildSelectQuery_spec m :
  len (concat (join_args <$> joins (query m)))
    + len (wheres (query m)) + len (orWheres (query m)) <= MaxInt ->
  buildSelectQuery m = select_spec m.
Proof.
  intros Hn. unfold buildSelectQuery, select_spec. cbv zeta.
  rewrite joins_loop_spec. cbn [app].
  set (jargs := concat (join_args <$> joins (query m))) in *.
  assert (0 <= len jargs /\ 0 <= len (wheres (query m))
          /\ 0 <= len (orWheres (query m))) as (? & ? & ?) by (unfold len; lia).
  assert (buildWhereClause m (wrap_int (len jargs + 1))
          = where_spec (wheres (query m)) (orWheres (query m)) (len jargs + 1))
    as ->.
  { destruct (decide (wheres (query m) = [] /\ orWheres (query m) = []))
      as [[E1 E2]|Hne].
    - unfold buildWhereClause, where_spec. by rewrite E1, E2.
    - assert (0 < len (wheres (query m)) + len (orWheres (query m))).
      { destruct (wheres (query m)), (orWheres (query m)); try len_lia.
        by destruct Hne. }
      rewrite wrap_int_small by (unfold MinInt, MaxInt in *; lia).
      apply buildWhereClause_spec; unfold MinInt, MaxInt in *; lia. }
  destruct (where_spec _ _ _) as [wc wv]. cbn [fst snd].
  destruct (having (query m)) as [|h hs].
  - change (0 <? len []) with false. cbv iota.
    cbn [fmap list_fmap concat]. rewrite !app_nil_r.
    f_equal.
    destruct (0 <? len (groupBy (query m))),
      (String.eqb (orderBy (query m)) EmptyString),
      (0 <? limit (query m)), (0 <? offset (query m));
      cbn [negb]; by rewrite ?append_assoc, ?append_nil_r, ?append_nil_l.
  - replace (0 <? len (h :: hs)) with true
      by (symmetry; apply Z.ltb_lt; len_lia).
    rewrite having_loop_spec by lia. rewrite <- Join_separated.
    change (0 <? 0) with false.
    f_equal; [|by rewrite <- app_assoc].
    destruct (0 <? len (groupBy (query m))),
      (String.eqb (orderBy (query m)) EmptyString),
      (0 <? limit (query m)), (0 <? offset (query m));
      cbn [negb]; by rewrite ?append_assoc, ?append_nil_r, ?append_nil_l.
Qed.

(** X5. [buildSelectQuery] writes the clauses in the fixed order SELECT,
    FROM, the joins, WHERE, GROUP BY, HAVING, ORDER BY, LIMIT, OFFSET,
    each one only when its field is set; the placeholders of WHERE are
    numbered on from the arguments of the joins, and the arguments are
    those of the joins, of WHERE and of HAVING, in that order. *)
Theorem buildSelectQuery_follows_clauses (m : Model)
    (Hfits : len (concat (join_args <$> joins (query m)))
             + len (wheres (query m)) + len (orWheres (query m)) <= MaxInt) :
  buildSelectQuery m = select_spec m
  /\ len (buildSelectQuery m).2
     = len (concat (join_args <$> joins (query m)))
       + len (wheres (query m)) + len (orWheres (query m))
       + len (concat (havingArgs <$> having (query m))).
Proof.
  split; [by apply buildSelectQuery_spec|].
  rewrite buildSelectQuery_values. unfold len.
  rewrite !length_app, !length_fmap. lia.
Qed.

(** X6. The arguments of a join are bound before the values of the
    predicates, also when the join is added after them. A join with an
    empty condition binds none of the arguments it was given, and
    [CrossJoin] changes no argument list. *)
Theorem Join_arguments_come_first (tbl cond : string) (args : list any)
    (m : Model) :
  (buildSelectQuery (Join tbl cond args m)).2
  = concat (join_args <$> joins (query m))
    ++ (if String.eqb cond EmptyString then [] else args)
    ++ ((value <$> wheres (query m)) ++ (value <$> orWheres (query m)))
    ++ concat (havingArgs <$> having (query m))
  /\ (buildSelectQuery (CrossJoin tbl m)).2 = (buildSelectQuery m).2.
Proof.
  rewrite !buildSelectQuery_values. unfold Join, CrossJoin, addJoin.
  cbn [with_query query set_joins joins wheres orWheres having].
  rewrite !fmap_app, !concat_app. cbn [fmap list_fmap concat].
  rewrite !app_nil_r. unfold join_args. cbn [joinCondition joinArgs].
  cbn [String.eqb]. rewrite <- !app_assoc, ?app_nil_r. by split.
Qed.

(** X7. On a builder with no limit and no offset, the statement of
    [First] is the statement of [Get] followed by [LIMIT 1], with the
    same arguments; the limit stays in the builder, so that a later
    [Get] or [First] on it renders the limited statement again. *)
Theorem First_appends_limit (m : Model)
    (Hlimit : limit (query m) <= 0) (Hoffset : offset (query m) <= 0) :
  let m1 := with_query (set_limit 1) m in
  buildSelectQuery m1
  = ((buildSelectQuery m).1 +:+ " LIMIT 1", (buildSelectQuery m).2)
  /\ buildSelectQuery (with_query (set_limit 1) m1) = buildSelectQuery m1.
Proof.
  cbv zeta. split; [|reflexivity].
  unfold buildSelectQuery. cbv zeta.
  cbn [with_query query set_limit table selections joins groupBy having
       orderBy orderDir limit offset].
  change (buildWhereClause (with_query (set_limit 1) m))
    with (buildWhereClause m).
  destruct (joins_loop _ _) as [qb vs].
  destruct (buildWhereClause m _) as [wc wv].
  replace (0 <? limit (query m)) with false
    by (symmetry; apply Z.ltb_ge; lia).
  replace (0 <? offset (query m)) with false
    by (symmetry; apply Z.ltb_ge; lia).
  change (0 <? 1) with true. cbv iota.
  destruct (if 0 <? len (having (query m)) then _ else _) as [qb' vs'].
  reflexivity.
Qed.

Section Built.
Variable unicode_upper_table : rune -> rune.
Local Abbreviation built := (OrmExtra.built unicode_upper_table).

(** What the methods keep of a builder. *)
Lemma built_inv t m :
  built t m ->
  table (query m) = t
  /\ groupBy (query m) = [] /\ having (query m) = []
  /\ orderBy (query m) = EmptyString /\ offset (query m) = 0
  /\ (limit (query m) = 0 \/ limit (query m) = 1)
  /\ Forall clean_predicate (wheres (query m))
  /\ Forall clean_predicate (orWheres (query m))
  /\ Forall clean_join (joins (query m))
  /\ (selections (query m) = [t +:+ ".*"]
      \/ Forall (fun c => all_bytes ident_byte c = true) (selections (query m))).
Proof.
  assert (forall tbl jt cond args, jt ∈ join_types ->
            clean_join {| joinTable := sanitizeTableName tbl; joinType := jt;
                          joinCondition := cond; joinArgs := args |}) as Hjoin.
  { intros tbl jt cond args Hjt. split; [apply sanitizeColumn_clean|done]. }
  assert (forall column op v,
            validOperators_at (strings_ToUpper unicode_upper_table op) = true ->
            clean_predicate
              {| column := sanitizeColumn column;
                 operator := strings_ToUpper unicode_upper_table op;
                 value := v |}) as Hpred.
  { intros column op v Hop. split; [apply sanitizeColumn_clean|].
    by apply validOperators_allow_list. }
  induction 1 as [|c m _ IH|columns m _ IH|tbl cond args m _ IH
                  |tbl cond args m _ IH|tbl cond args m _ IH|tbl m _ IH
                  |column op v m m' _ IH Hw|column op v m m' _ IH Hw|m _ IH].
  - cbn. repeat split; auto.
  - exact IH.
  - destruct IH as (? & ? & ? & ? & ? & ? & ? & ? & ? & _).
    cbn. repeat split; auto. right.
    unfold sanitizeColumns. apply Forall_forall. intros c Hc.
    apply list_elem_of_In, in_map_iff in Hc as (c' & <- & _).
    apply sanitizeColumn_clean.
  - destruct IH as (? & ? & ? & ? & ? & ? & ? & ? & ? & ?).
    cbn. repeat split; auto. apply Forall_app. split; [done|].
    constructor; [|done]. apply Hjoin. apply list_elem_of_In. cbn. auto 6.
  - destruct IH as (? & ? & ? & ? & ? & ? & ? & ? & ? & ?).
    cbn. repeat split; auto. apply Forall_app. split; [done|].
    constructor; [|done]. apply Hjoin. apply list_elem_of_In. cbn. auto 6.
  - destruct IH as (? & ? & ? & ? & ? & ? & ? & ? & ? & ?).
    cbn. repeat split; auto. apply Forall_app. split; [done|].
    constructor; [|done]. apply Hjoin. apply list_elem_of_In. cbn. auto 6.
  - destruct IH as (? & ? & ? & ? & ? & ? & ? & ? & ? & ?).
    cbn. repeat split; auto. apply Forall_app. split; [done|].
    constructor; [|done]. apply Hjoin. apply list_elem_of_In. cbn. auto 6.
  - destruct IH as (? & ? & ? & ? & ? & ? & ? & ? & ? & ?).
    unfold Where in Hw.
    destruct (validOperators_at _) eqn:Hop; [|done]. injection Hw as <-.
    cbn. repeat split; auto. apply Forall_app. split; [done|].
    constructor; [|done]. by apply Hpred.
  - destruct IH as (? & ? & ? & ? & ? & ? & ? & ? & ? & ?).
    unfold OrWhere in Hw.
    destruct (validOperators_at _) eqn:Hop; [|done]. injection Hw as <-.
    cbn. repeat split; auto. apply Forall_app. split; [done|].
    constructor; [|done]. by apply Hpred.
  - destruct IH as (? & ? & ? & ? & ? & ? & ? & ? & ? & ?).
    cbn. repeat split; auto.
Qed.

Lemma built_where_clause t m start :
  built t m -> 0 <= start ->
  start + len (wheres (query m)) + len (orWheres (query m)) - 1 <= MaxInt ->
  all_bytes clause_byte (buildWhereClause m start).1 = true.
Proof.
  intros Hbuilt Hstart Hfits.
  destruct (built_inv t m Hbuilt) as (_ & _ & _ & _ & _ & _ & Hw & Ho & _).
  destruct (decide (wheres (query m) = [] /\ orWheres (query m) = []))
    as [[E1 E2]|Hne].
  - unfold buildWhereClause. by rewrite E1, E2.
  - assert (0 < len (wheres (query m)) + len (orWheres (query m))).
    { destruct (wheres (query m)), (orWheres (query m)); try len_lia.
      by destruct Hne. }
    rewrite buildWhereClause_spec; [by apply where_spec_clause| |done].
    unfold MinInt, MaxInt in *. unfold len in *. lia.
Qed.

(** X8. In a builder made through the methods, the WHERE clause that the
    statements carry is written with the bytes of identifiers, spaces
    and the signs of the operators and placeholders alone, whatever the
    columns and operators the caller gave: no quote, semicolon,
    parenthesis or comment can come into it. The statement of [Delete]
    is [DELETE FROM], the table as [Table] was given it, and that
    clause. *)
Theorem built_where_clause_bytes (t : string) (m : Model) (start : int)
    (Hbuilt : built t m) (Hstart : 0 <= start)
    (Hfits : start + len (wheres (query m)) + len (orWheres (query m)) - 1
             <= MaxInt) :
  all_bytes clause_byte (buildWhereClause m start).1 = true
  /\ (len (wheres (query m)) + len (orWheres (query m)) <= MaxInt ->
      exists clause,
        (Delete_query m).1 = "DELETE FROM " +:+ t +:+ clause
        /\ all_bytes clause_byte clause = true).
Proof.
  split; [by eapply built_where_clause|].
  intros Hn. exists (buildWhereClause m 1).1. split.
  - destruct (built_inv t m Hbuilt) as (<- & _).
    unfold Delete_query. by destruct (buildWhereClause m 1).
  - eapply built_where_clause; [done|lia|lia].
Qed.

(** X9. The SELECT statement of a builder made through the methods has
    no GROUP BY, HAVING, ORDER BY or OFFSET part, and no LIMIT but the
    [LIMIT 1] of [First]: it is SELECT, the columns, FROM, the table as
    [Table] was given it, the joins, the WHERE clause, and [LIMIT 1]
    once [First] was called. *)
Theorem built_select_shape (t : string) (m : Model) (Hbuilt : built t m)
    (Hfits : len (concat (join_args <$> joins (query m)))
             + len (wheres (query m)) + len (orWheres (query m)) <= MaxInt) :
  (buildSelectQuery m).1
  = "SELECT " +:+ strings_Join (selections (query m)) ", "
      +:+ " FROM " +:+ t
      +:+ concat_strings (join_text <$> joins (query m))
      +:+ (where_spec (wheres (query m)) (orWheres (query m))
             (len (concat (join_args <$> joins (query m))) + 1)).1
      +:+ (if limit (query m) =? 1 then " LIMIT 1" else EmptyString)
  /\ (buildSelectQuery m).2
     = concat (join_args <$> joins (query m))
       ++ (value <$> wheres (query m)) ++ (value <$> orWheres (query m)).
Proof.
  destruct (built_inv t m Hbuilt)
    as (Ht & Hg & Hh & Ho & Hoff & Hl & _).
  split.
  - rewrite buildSelectQuery_spec by done. unfold select_spec. cbv zeta.
    cbn [fst]. rewrite Hg, Hh, Ho, Hoff, Ht.
    change (0 <? len []) with false. change (0 <? 0) with false.
    cbn [String.eqb]. cbv iota.
    destruct Hl as [-> | ->]; cbn; by rewrite ?append_nil_r.
  - rewrite buildSelectQuery_values, Hh. cbn. by rewrite app_nil_r.
Qed.
End Built.

End OrmExtraFacts.

(** ** The executor *)
Module ExecutorFacts.
Import GoRuntime Orm OrmSpec OrmExtra GoRuntimeFacts OrmFacts.

(** *** [scanRows] *)

Lemma scan_loop_all columns vss : forall acc,
  Forall (fun values => length values = length columns) vss ->
  scan_loop columns (Ok <$> vss) acc
  = Ok (acc ++ (scan_row columns <$> vss)).
Proof.
  induction vss as [|values vss IH]; intros acc Hall;
    cbn [fmap list_fmap scan_loop].
  - by rewrite app_nil_r.
  - apply Forall_cons in Hall as [Hlen Hall].
    rewrite decide_True by done. rewrite IH by done.
    by rewrite <- app_assoc.
Qed.

Lemma scan_loop_Ok columns data : forall acc results,
  scan_loop columns data acc = Ok results ->
  exists vss,
    data = Ok <$> vss
    /\ Forall (fun values => length values = length columns) vss
    /\ results = acc ++ (scan_row columns <$> vss).
Proof.
  induction data as [|[values|e] data IH]; intros acc results H;
    cbn [scan_loop] in H.
  - injection H as <-. exists []. by rewrite app_nil_r.
  - case_decide as Hlen; [|done].
    apply IH in H as (vss & -> & Hall & ->).
    exists (values :: vss). rewrite <- app_assoc. by repeat constructor.
  - done.
Qed.

(** X10. [scanRows] returns records exactly when the columns are known
    and every row scans: then there is one record for each row, in the
    order of the rows, made of the columns and the values of that row.
    When a row fails, the records of the rows before it are dropped and
    the error of that row is returned as it is. *)
Theorem scanRows_all_or_nothing (rows : Rows) :
  (forall results,
     scanRows rows = Ok results <->
     exists columns vss,
       Columns rows = Ok columns /\ scans rows = Ok <$> vss
       /\ Forall (fun values => length values = length columns) vss
       /\ results = scan_row columns <$> vss)
  /\ (forall columns vss e rest,
        Columns rows = Ok columns ->
        scans rows = (Ok <$> vss) ++ Err e :: rest ->
        Forall (fun values => length values = length columns) vss ->
        scanRows rows = Err e).
Proof.
  split.
  - intros results. unfold scanRows. split.
    + destruct (Columns rows) as [columns|e]; [|done]. intros H.
      apply scan_loop_Ok in H as (vss & Hs & Hall & ->).
      by exists columns, vss.
    + intros (columns & vss & -> & -> & Hall & ->).
      by rewrite scan_loop_all.
  - intros columns vss e rest Hc Hs Hall. unfold scanRows.
    rewrite Hc, Hs. clear Hs. generalize (@nil record).
    induction vss as [|values vss IH]; intros acc; [done|].
    apply Forall_cons in Hall as [Hlen Hall].
    cbn [fmap list_fmap app scan_loop]. rewrite decide_True by done.
    by apply IH.
Qed.

Lemma scan_fold_other (l : list (string * any)) : forall (acc : record) c,
  Forall (fun cv => cv.1 <> c) l ->
  foldl (fun row cv => <[cv.1 := cv.2]> row) acc l !! c = acc !! c.
Proof.
  induction l as [|[c' v'] l IH]; intros acc c Hall; [done|].
  apply Forall_cons in Hall as [Hne Hall]. cbn [foldl].
  rewrite IH by done. by apply lookup_insert_ne.
Qed.

(** X11. In the record of a row, a column holds the value at the last
    position where its name stands in the column list: when a name
    comes twice, the later value overwrites the earlier one. A name
    that is no column has no entry. *)
Theorem scan_row_last_column_wins (columns : list string)
    (values : list any) :
  (forall i c v,
     columns !! i = Some c -> values !! i = Some v ->
     (forall j, (i < j)%nat -> (j < length values)%nat ->
                columns !! j <> Some c) ->
     scan_row columns values !! c = Some v)
  /\ (forall c, c ∉ columns -> scan_row columns values !! c = None).
Proof.
  unfold scan_row. split.
  - intros i c v Hc Hv Hlast.
    assert (zip columns values !! i = Some (c, v)) as Hi.
    { apply lookup_zip_with_Some. eauto. }
    rewrite <- (take_drop_middle _ _ _ Hi), foldl_app. cbn [foldl fst snd].
    rewrite scan_fold_other; [by rewrite lookup_insert_eq|].
    apply Forall_forall. intros [c' v'] Hin Heq. cbn [fst] in Heq. subst c'.
    apply list_elem_of_lookup in Hin as [k Hk].
    rewrite lookup_drop in Hk.
    apply lookup_zip_with_Some in Hk as (c2 & v2 & [= <- <-] & Hk1 & Hk2).
    apply (Hlast (S i + k)%nat); [lia| |done].
    by apply lookup_lt_Some in Hk2.
  - intros c Hc. rewrite scan_fold_other; [done|].
    apply Forall_forall. intros [c' v'] Hin Heq. cbn [fst] in Heq. subst c'. apply Hc.
    apply list_elem_of_lookup in Hin as [k Hk].
    apply lookup_zip_with_Some in Hk as (c2 & v2 & [= <- <-] & Hk1 & Hk2).
    by eapply list_elem_of_lookup_2.
Qed.

Section Executor.
Variable DB : Type.
Variable Stmt : Type.
Variable PrepareContext : Context -> string -> DB -> result Stmt * DB.
Variable QueryContext : Stmt -> Context -> list any -> DB -> result Rows * DB.
Variable ExecContext : Stmt -> Context -> list any -> DB -> result Result * DB.
Variable RowsClose : Rows -> DB -> DB.

Local Abbreviation World := (World DB Stmt).
Local Abbreviation prepareQuery := (Orm.prepareQuery DB Stmt PrepareContext).
Local Abbreviation Get :=
  (Orm.Get DB Stmt PrepareContext QueryContext RowsClose).
Local Abbreviation First :=
  (Orm.First DB Stmt PrepareContext QueryContext RowsClose).
Local Abbreviation Create :=
  (Orm.Create DB Stmt PrepareContext QueryContext RowsClose).
Local Abbreviation Update :=
  (Orm.Update DB Stmt PrepareContext ExecContext).
Local Abbreviation Delete :=
  (Orm.Delete DB Stmt PrepareContext ExecContext).

(** *** [prepareQuery] *)

(** The three ways through [prepareQuery]. *)
Lemma prepareQuery_cases m q (w : World) :
  (exists stmt,
     prepared (orm w) !! q = Some stmt /\ prepareQuery m q w = (Ok stmt, w))
  \/ (exists stmt d,
        prepared (orm w) !! q = None
        /\ PrepareContext (ctx m) q (database w) = (Ok stmt, d)
        /\ prepareQuery m q w
           = (Ok stmt,
              {| orm := {| queryLog := queryLog (orm w);
                           prepared := <[q := stmt]> (prepared (orm w)) |};
                 database := d;
                 trace := trace w ++ [Prepared (ctx m) q] |}))
  \/ (exists e d,
        prepared (orm w) !! q = None
        /\ PrepareContext (ctx m) q (database w) = (Err e, d)
        /\ prepareQuery m q w
           = (Err e,
              {| orm := orm w; database := d;
                 trace := trace w ++ [Prepared (ctx m) q] |})).
Proof.
  unfold Orm.prepareQuery, bind, cache_lookup, emit, call, cache_store, ret.
  destruct (prepared (orm w) !! q) as [stmt|] eqn:Hc; [left; eauto|].
  rewrite Hc. cbn [orm database trace].
  destruct (PrepareContext (ctx m) q (database w)) as [[stmt|e] d] eqn:Hp.
  - right; left. by exists stmt, d.
  - right; right. by exists e, d.
Qed.

(** X12. A statement that [prepareQuery] has returned stays in the
    cache: every later call for the same text, from a builder with any
    context, returns that statement and changes nothing, so that the
    driver is not asked again and the context of the first caller is
    the one the statement was prepared with. *)
Theorem prepareQuery_then_cached (m m' : Model) (q : string) (w w' : World)
    (stmt : Stmt) (Hfirst : prepareQuery m q w = (Ok stmt, w')) :
  prepared (orm w') !! q = Some stmt
  /\ prepareQuery m' q w' = (Ok stmt, w')
  /\ (prepared (orm w) !! q = None ->
      trace w' = trace w ++ [Prepared (ctx m) q]).
Proof.
  assert (prepared (orm w') !! q = Some stmt
          /\ (prepared (orm w) !! q = None ->
              trace w' = trace w ++ [Prepared (ctx m) q])) as [Hc Ht].
  { destruct (prepareQuery_cases m q w)
      as [(s & Hc & E)|[(s & d & Hc & Hp & E)|(e & d & Hc & Hp & E)]];
      rewrite E in Hfirst; simplify_eq.
    - split; [done|]. intros Hnone. by rewrite Hnone in Hc.
    - cbn. by rewrite lookup_insert_eq. }
  split; [done|]. split; [|done].
  destruct (prepareQuery_cases m' q w')
    as [(s & Hc' & E)|[(s & d & Hc' & _)|(e & d & Hc' & _)]];
    by simplify_eq.
Qed.

(** X13. [prepareQuery] touches the cache at the text it is given and
    nowhere else, and never the logging flag; it writes at most the one
    event of the driver call. When the driver refuses the text, its
    error is returned as it is and the cache is left as it was, so that
    the next call asks the driver again. *)
Theorem prepareQuery_frame (m : Model) (q : string) (w : World) :
  (forall q', q' <> q ->
     prepared (orm (prepareQuery m q w).2) !! q' = prepared (orm w) !! q')
  /\ queryLog (orm (prepareQuery m q w).2) = queryLog (orm w)
  /\ (trace (prepareQuery m q w).2 = trace w
      \/ trace (prepareQuery m q w).2 = trace w ++ [Prepared (ctx m) q])
  /\ (forall e, (prepareQuery m q w).1 = Err e ->
        (PrepareContext (ctx m) q (database w)).1 = Err e
        /\ orm (prepareQuery m q w).2 = orm w
        /\ forall m',
             trace (prepareQuery m' q (prepareQuery m q w).2).2
             = trace w ++ [Prepared (ctx m) q; Prepared (ctx m') q]).
Proof.
  destruct (prepareQuery_cases m q w)
    as [(s & Hc & E)|[(s & d & Hc & Hp & E)|(e & d & Hc & Hp & E)]];
    rewrite E; cbn [fst snd orm prepared queryLog trace].
  - split; [done|]. split; [done|]. split; [by left|]. by intros e0 He.
  - split; [|split; [done|split; [by right|by intros e0 He]]].
    intros q' Hne. by apply lookup_insert_ne.
  - split; [done|]. split; [done|]. split; [by right|].
    intros e' [= <-]. rewrite Hp. split; [done|]. split; [done|].
    intros m'.
    destruct (prepareQuery_cases m' q
                {| orm := orm w; database := d;
                   trace := trace w ++ [Prepared (ctx m) q] |})
      as [(s & Hc' & E')|[(s & d' & _ & _ & E')|(e2 & d' & _ & _ & E')]];
      cbn [orm] in *; [by rewrite Hc in Hc'|..];
      rewrite E'; cbn [snd trace]; by rewrite <- app_assoc.
Qed.

(** *** Logging *)

Lemma prepareQuery_flag m q (w : World) b :
  prepareQuery m q (set_queryLog b w)
  = ((prepareQuery m q w).1, set_queryLog b (prepareQuery m q w).2).
Proof.
  destruct w as [[flag cache] d0 tr].
  cbv [Orm.prepareQuery bind cache_lookup emit call cache_store ret
       set_queryLog orm prepared database trace queryLog fst snd].
  destruct (cache !! q) as [stmt|] eqn:Hc; [done|].
  cbv [orm prepared database trace queryLog]. rewrite !Hc.
  destruct (PrepareContext (ctx m) q d0) as [[stmt|e] d]; done.
Qed.

Ltac run_logged m q w :=
  unfold with_deferred_log, bind;
  cbn [set_queryLog orm queryLog];
  rewrite !(prepareQuery_flag m q w);
  destruct (prepareQuery m q w) as [[stmt|e] w1]; cbn [fst snd];
  [|reflexivity];
  unfold emit, call, ret, logQuery, emit, with_deferred_close, bind, emit,
    call, ret, set_queryLog, and_event;
  cbn [orm database trace queryLog prepared].

(** X14. The logging flag changes nothing of what the four operations
    do and return: with the flag set they make the same calls, leave the
    same cache and database and return the same result as without it,
    and write one log line, with the statement and its arguments, after
    everything else. *)
Theorem logging_only_adds_a_line (m : Model) (w : World)
    (data : gmap string any) (now : any) (kvs : list (string * any))
    (range_over : gmap string any -> list (string * any)) :
  let logged (A : Type) (op : World -> A * World) (text : string * list any) :=
    op (set_queryLog true w)
    = ((op (set_queryLog false w)).1,
       set_queryLog true
         (and_event (Logged text.1 text.2) (op (set_queryLog false w)).2)) in
  logged _ (Get m) (buildSelectQuery m)
  /\ logged _ (Delete m) (Delete_query m)
  /\ (data <> ∅ -> logged _ (Update m data kvs) (Update_query m kvs))
  /\ (data <> ∅ ->
      logged _ (Create m data now range_over)
        (Create_query m (range_over (newData data now)))).
Proof.
  cbv zeta. split; [|split; [|split]].
  - unfold Orm.Get. destruct (buildSelectQuery m) as [q args].
    run_logged m q w.
    destruct (QueryContext stmt (ctx m) args (database w1)) as [[rows|e] d];
      reflexivity.
  - unfold Orm.Delete. destruct (Delete_query m) as [q args].
    run_logged m q w.
    destruct (ExecContext stmt (ctx m) args (database w1)) as [[res|e] d];
      reflexivity.
  - intros Hne. unfold Orm.Update. rewrite len_map_nonempty by done.
    destruct (Update_query m kvs) as [q args].
    run_logged m q w.
    destruct (ExecContext stmt (ctx m) args (database w1)) as [[res|e] d];
      reflexivity.
  - intros Hne. unfold Orm.Create. rewrite len_map_nonempty by done.
    destruct (Create_query m _) as [q args].
    run_logged m q w.
    destruct (QueryContext stmt (ctx m) args (database w1)) as [[rows|e] d];
      [|reflexivity].
    destruct (scanRows rows) as [[|first rest]|e]; reflexivity.
Qed.

(** *** The paths through the operations *)

Ltac run_with Hprep :=
  unfold with_deferred_log, bind; rewrite !Hprep;
  unfold emit, call, ret, logQuery, emit, with_deferred_close, bind, emit,
    call, ret, and_event;
  cbn [orm database trace queryLog prepared].

Lemma Get_answered m (w : World) stmt w1 rows d :
  prepareQuery m (buildSelectQuery m).1 w = (Ok stmt, w1) ->
  QueryContext stmt (ctx m) (buildSelectQuery m).2 (database w1)
    = (Ok rows, d) ->
  Get m w
  = (scanRows rows,
     let w2 := {| orm := orm w1; database := RowsClose rows d;
                  trace := trace w1
                    ++ [Queried (buildSelectQuery m).1 stmt (ctx m)
                          (buildSelectQuery m).2; Closed rows] |} in
     if queryLog (orm w)
     then and_event (Logged (buildSelectQuery m).1 (buildSelectQuery m).2) w2
     else w2).
Proof.
  intros Hprep Hquery. unfold Orm.Get.
  destruct (buildSelectQuery m) as [q args]. cbn [fst snd] in *.
  run_with Hprep. rewrite Hquery.
  destruct (queryLog (orm w)); cbn [orm database trace];
    by rewrite <- ?app_assoc.
Qed.

(** X15. Once the driver has answered the query of [Get], the rows are
    closed before [Get] returns, after the query and before the log
    line, whether the rows scan or not; the result is what [scanRows]
    makes of the rows, and an error of scanning is returned as it is,
    with no prefix. *)
Theorem Get_closes_rows (m : Model) (w : World) (stmt : Stmt) (w1 : World)
    (rows : Rows) (d : DB)
    (Hprep : prepareQuery m (buildSelectQuery m).1 w = (Ok stmt, w1))
    (Hquery : QueryContext stmt (ctx m) (buildSelectQuery m).2 (database w1)
              = (Ok rows, d)) :
  (Get m w).1 = scanRows rows
  /\ database (Get m w).2 = RowsClose rows d
  /\ orm (Get m w).2 = orm w1
  /\ trace (Get m w).2
     = trace w1
       ++ [Queried (buildSelectQuery m).1 stmt (ctx m) (buildSelectQuery m).2;
           Closed rows]
       ++ (if queryLog (orm w)
           then [Logged (buildSelectQuery m).1 (buildSelectQuery m).2]
           else []).
Proof.
  rewrite (Get_answered m w stmt w1 rows d Hprep Hquery). cbv zeta.
  destruct (queryLog (orm w)); cbn [fst snd and_event orm database trace].
  - by rewrite <- app_assoc.
  - by rewrite app_nil_r.
Qed.

(** X16. The errors of [Get]: the error of the driver at preparing,
    behind the prefix [prepare query error]; the error of the driver at
    running the query, behind the prefix [query error]; or the error of
    scanning, as it is, with no prefix. *)
Theorem Get_error_causes (m : Model) (w : World) (err : error)
    (Herr : (Get m w).1 = Err err) :
  let q := (buildSelectQuery m).1 in
  let args := (buildSelectQuery m).2 in
  (exists e,
     (prepareQuery m q w).1 = Err e
     /\ err = Errorf_w "prepare query error" e
     /\ Error err = "prepare query error: " +:+ Error e)
  \/ (exists stmt w1 e,
        prepareQuery m q w = (Ok stmt, w1)
        /\ (QueryContext stmt (ctx m) args (database w1)).1 = Err e
        /\ err = Errorf_w "query error" e
        /\ Error err = "query error: " +:+ Error e)
  \/ (exists stmt w1 rows,
        prepareQuery m q w = (Ok stmt, w1)
        /\ (QueryContext stmt (ctx m) args (database w1)).1 = Ok rows
        /\ scanRows rows = Err err).
Proof.
  cbv zeta. revert Herr. unfold Orm.Get.
  destruct (buildSelectQuery m) as [q args]. cbn [fst snd].
  destruct (prepareQuery m q w) as [[stmt|e] w1] eqn:Hprep.
  - destruct (QueryContext stmt (ctx m) args (database w1))
      as [[rows|e] d] eqn:Hquery.
    + intros Herr. right; right. exists stmt, w1, rows.
      split; [done|]. split; [by rewrite Hquery|]. revert Herr.
      run_with Hprep. rewrite Hquery. by destruct (queryLog (orm w)).
    + intros Herr. right; left. exists stmt, w1, e.
      split; [done|]. split; [by rewrite Hquery|]. revert Herr.
      run_with Hprep. rewrite Hquery.
      by destruct (queryLog (orm w)); cbn [fst]; intros [= <-].
  - intros Herr. left. exists e. split; [done|]. revert Herr.
    run_with Hprep.
    by destruct (queryLog (orm w)); cbn [fst]; intros [= <-].
Qed.

(** X17. Once the driver has answered the statement of [Create], the
    result is the record of the first row; when the statement returns
    no row the error is [no data returned after insert], and an error
    of scanning comes behind the prefix [scan error]. On each of these
    paths the rows are closed before [Create] returns. *)
Theorem Create_returns_first_row (m : Model) (data : gmap string any)
    (now : any) (range_over : gmap string any -> list (string * any))
    (w : World) (stmt : Stmt) (w1 : World) (rows : Rows) (d : DB)
    (Hdata : data <> ∅)
    (Hprep : prepareQuery m
               (Create_query m (range_over (newData data now))).1 w
             = (Ok stmt, w1))
    (Hquery : QueryContext stmt (ctx m)
                (Create_query m (range_over (newData data now))).2
                (database w1)
              = (Ok rows, d)) :
  (Create m data now range_over w).1
  = match scanRows rows with
    | Err e => Err (Errorf_w "scan error" e)
    | Ok [] => Err (Errorf "no data returned after insert")
    | Ok (first :: _) => Ok first
    end
  /\ database (Create m data now range_over w).2 = RowsClose rows d
  /\ trace (Create m data now range_over w).2
     = trace w1
       ++ [Queried (Create_query m (range_over (newData data now))).1 stmt
             (ctx m) (Create_query m (range_over (newData data now))).2;
           Closed rows]
       ++ (if queryLog (orm w)
           then [Logged (Create_query m (range_over (newData data now))).1
                   (Create_query m (range_over (newData data now))).2]
           else []).
Proof.
  destruct (Create_answered DB Stmt PrepareContext QueryContext RowsClose
              m data now range_over w stmt w1 (Ok rows) d
              Hdata Hprep Hquery) as (Hr & _ & Hd & Ht).
  split; [exact Hr|]. split; [exact Hd|]. rewrite Ht. reflexivity.
Qed.

(** X18. [Delete] on a builder with no predicate is not refused: its
    statement is [DELETE FROM] and the table, with no WHERE clause and
    no argument, and once prepared it is run. The result is the count
    of rows the driver reports, or the error of the driver behind the
    prefix [delete error]. *)
Theorem Delete_without_predicates (m : Model) (w : World) (stmt : Stmt)
    (w1 : World)
    (Hwheres : wheres (query m) = []) (HorWheres : orWheres (query m) = [])
    (Hprep : prepareQuery m ("DELETE FROM " +:+ table (query m)) w
             = (Ok stmt, w1)) :
  Delete_query m = ("DELETE FROM " +:+ table (query m), [])
  /\ (Delete m w).1
     = match (ExecContext stmt (ctx m) [] (database w1)).1 with
       | Ok res => RowsAffected res
       | Err e => Err (Errorf_w "delete error" e)
       end
  /\ trace (Delete m w).2
     = trace w1
       ++ [Executed ("DELETE FROM " +:+ table (query m)) stmt (ctx m) []]
       ++ (if queryLog (orm w)
           then [Logged ("DELETE FROM " +:+ table (query m)) []]
           else []).
Proof.
  assert (Delete_query m = ("DELETE FROM " +:+ table (query m), [])) as Hq.
  { unfold Delete_query, buildWhereClause. rewrite Hwheres, HorWheres.
    change ((len [] =? 0) && (len [] =? 0)) with true. cbv iota.
    by rewrite append_nil_r. }
  split; [done|]. unfold Orm.Delete. rewrite Hq.
  run_with Hprep.
  destruct (ExecContext stmt (ctx m) [] (database w1)) as [[res|e] d].
  all: destruct (queryLog (orm w));
    cbn [fst snd orm database trace]; by rewrite <- ?app_assoc, ?app_nil_r.
Qed.

End Executor.

End ExecutorFacts.

(** ** [Cleanup] *)
Module CleanupFacts.
Import GoRuntime Orm OrmSpec OrmExtra GoRuntimeFacts OrmFacts.

Section Cleanup.
Variable DB : Type.
Variable Stmt : Type.
Variable PrepareContext : Context -> string -> DB -> result Stmt * DB.
Variable StmtClose : Stmt -> DB -> option error * DB.
Variable Sprintf_q : string -> string.

Local Abbreviation World := (World DB Stmt).
Local Abbreviation prepareQuery := (Orm.prepareQuery DB Stmt PrepareContext).
Local Abbreviation cleanup_loop :=
  (OrmExtra.cleanup_loop DB Stmt StmtClose Sprintf_q).
Local Abbreviation Cleanup := (OrmExtra.Cleanup DB Stmt StmtClose Sprintf_q).
Local Abbreviation close_all := (OrmExtra.close_all DB Stmt StmtClose).

Local Abbreviation close_errors :=
  (OrmExtra.close_errors DB Stmt StmtClose Sprintf_q).

Lemma cleanup_loop_spec kvs : forall errs d,
  cleanup_loop kvs (errs, d) = (errs ++ close_errors kvs d, close_all kvs d).
Proof.
  induction kvs as [|[q stmt] kvs IH]; intros errs d.
  - cbn. by rewrite app_nil_r.
  - cbn [OrmExtra.cleanup_loop]. unfold OrmExtra.close_errors.
    rewrite imap_cons.
    rewrite (imap_ext _
      (fun i kv =>
         match (StmtClose kv.2
                  (close_all (take i kvs) (StmtClose stmt d).2)).1 with
         | Some err =>
           Some ("failed to close statement for query "
                   +:+ Sprintf_q kv.1 +:+ ": " +:+ Error err)
         | None => None
         end) kvs) by (intros; reflexivity).
    change (close_all (take 0 ((q, stmt) :: kvs)) d) with d.
    change (close_all ((q, stmt) :: kvs) d)
      with (close_all kvs (StmtClose stmt d).2).
    cbn [fst snd omap list_omap].
    destruct (StmtClose stmt d) as [[err|] d']; rewrite IH;
      unfold OrmExtra.close_errors; cbn [fst snd id].
    + by rewrite <- app_assoc.
    + done.
Qed.

(** X19. [Cleanup] closes every statement it ranges over once, one
    after the other, also after one of them has failed to close, and
    leaves the cache empty whether or not a statement failed; the
    logging flag and the trace stay as they were. It returns no error
    exactly when every statement closed. *)
Theorem Cleanup_closes_all (kvs : list (string * Stmt)) (w : World) :
  prepared (orm (Cleanup kvs w).2) = ∅
  /\ database (Cleanup kvs w).2 = close_all kvs (database w)
  /\ queryLog (orm (Cleanup kvs w).2) = queryLog (orm w)
  /\ trace (Cleanup kvs w).2 = trace w
  /\ ((Cleanup kvs w).1 = None <->
      forall i q stmt, kvs !! i = Some (q, stmt) ->
        (StmtClose stmt (close_all (take i kvs) (database w))).1 = None).
Proof.
  unfold OrmExtra.Cleanup. rewrite cleanup_loop_spec. cbn [app].
  assert (close_errors kvs (database w) = [] <->
          forall i q stmt, kvs !! i = Some (q, stmt) ->
            (StmtClose stmt (close_all (take i kvs) (database w))).1 = None)
    as Hnone.
  { unfold OrmExtra.close_errors. split.
    - intros Hnil i q stmt Hi.
      destruct (StmtClose stmt _).1 as [err|] eqn:Hclose; [|done].
      exfalso.
      assert (("failed to close statement for query " +:+ Sprintf_q q
                 +:+ ": " +:+ Error err) ∈ @nil string) as Hin;
        [|by apply elem_of_nil in Hin].
      rewrite <- Hnil. apply list_elem_of_omap.
      eexists (Some _). split; [|done].
      apply list_elem_of_lookup. exists i.
      rewrite list_lookup_imap, Hi. cbn [fmap option_fmap option_map fst snd].
      by rewrite Hclose.
    - intros Hall. apply elem_of_nil_inv. intros msg Hin.
      apply list_elem_of_omap in Hin as (o & Hin & Ho).
      apply list_elem_of_lookup in Hin as [i Hi].
      rewrite list_lookup_imap in Hi.
      destruct (kvs !! i) as [[q stmt]|] eqn:Hk; [|done].
      cbn [fmap option_fmap option_map fst snd] in Hi.
      rewrite (Hall i q stmt Hk) in Hi. by simplify_eq. }
  destruct (close_errors kvs (database w)) as [|msg msgs] eqn:Herrs.
  - change (0 <? len []) with false. cbv iota.
    cbn [fst snd orm prepared database trace queryLog].
    do 4 (split; [done|]). split; [intros _; by apply Hnone|done].
  - replace (0 <? len (msg :: msgs)) with true
      by (symmetry; apply Z.ltb_lt; len_lia).
    cbv iota. cbn [fst snd orm prepared database trace queryLog].
    do 4 (split; [done|]). split; [done|].
    intros Hall. by apply Hnone in Hall.
Qed.

(** X20. The error of [Cleanup] holds one line for each statement that
    failed to close, in the order in which the statements were closed,
    with the quoted text of the statement and the text of its error;
    the lines are joined with semicolons behind [cleanup errors]. *)
Theorem Cleanup_reports_failures (kvs : list (string * Stmt)) (w : World) :
  (Cleanup kvs w).1
  = match close_errors kvs (database w) with
    | [] => None
    | lines => Some (Errorf ("cleanup errors: " +:+ strings_Join lines "; "))
    end
  /\ (forall line, line ∈ close_errors kvs (database w) <->
        exists i q stmt err,
          kvs !! i = Some (q, stmt)
          /\ (StmtClose stmt (close_all (take i kvs) (database w))).1
             = Some err
          /\ line = "failed to close statement for query " +:+ Sprintf_q q
                      +:+ ": " +:+ Error err).
Proof.
  split.
  - unfold OrmExtra.Cleanup. rewrite cleanup_loop_spec. cbn [app].
    destruct (close_errors kvs (database w)) as [|msg msgs]; [done|].
    replace (0 <? len (msg :: msgs)) with true
      by (symmetry; apply Z.ltb_lt; len_lia).
    done.
  - intros line. unfold OrmExtra.close_errors.
    rewrite list_elem_of_omap. split.
    + intros (o & Hin & Ho).
      apply list_elem_of_lookup in Hin as [i Hi].
      rewrite list_lookup_imap in Hi.
      destruct (kvs !! i) as [[q stmt]|] eqn:Hk; [|done].
      cbn [fmap option_fmap option_map fst snd] in Hi.
      destruct (StmtClose stmt _).1 as [err|] eqn:Hclose; simplify_eq.
      exists i, q, stmt, err. cbn [id] in Ho. by simplify_eq.
    + intros (i & q & stmt & err & Hk & Hclose & ->).
      eexists (Some _). split; [|done].
      apply list_elem_of_lookup. exists i.
      rewrite list_lookup_imap, Hk. cbn [fmap option_fmap option_map fst snd].
      by rewrite Hclose.
Qed.

(** X21. After [Cleanup] the cache holds nothing: a second [Cleanup]
    finds no statement to range over, closes nothing and returns no
    error, and [prepareQuery] asks the driver again for a text that was
    in the cache before. *)
Theorem Cleanup_then_again (kvs kvs' : list (string * Stmt)) (w : World)
    (m : Model) (q : string) :
  let w' := (Cleanup kvs w).2 in
  (kvs' ≡ₚ map_to_list (prepared (orm w')) ->
   kvs' = [] /\ Cleanup kvs' w' = (None, w'))
  /\ trace (prepareQuery m q w').2 = trace w ++ [Prepared (ctx m) q]
  /\ (prepareQuery m q w').1 = (PrepareContext (ctx m) q (database w')).1.
Proof.
  cbv zeta.
  assert (prepared (orm (Cleanup kvs w).2) = ∅ /\ trace (Cleanup kvs w).2 = trace w)
    as [Hempty Htrace].
  { unfold OrmExtra.Cleanup. rewrite cleanup_loop_spec.
    by destruct (0 <? len _). }
  split; [|split].
  - rewrite Hempty, map_to_list_empty. intros ->%Permutation_nil_r.
    split; [done|]. unfold OrmExtra.Cleanup at 1. cbn [OrmExtra.cleanup_loop].
    change (0 <? len []) with false. cbv iota.
    destruct (Cleanup kvs w).2 as [[flag cache] d tr]. cbn in *. by subst.
  - unfold Orm.prepareQuery, bind, cache_lookup, emit, call, cache_store, ret.
    rewrite Hempty, lookup_empty. rewrite Hempty, lookup_empty.
    cbn [orm database trace].
    destruct (PrepareContext _ _ _) as [[stmt|e] d]; cbn; by rewrite Htrace.
  - unfold Orm.prepareQuery, bind, cache_lookup, emit, call, cache_store, ret.
    rewrite Hempty, lookup_empty. rewrite Hempty, lookup_empty.
    cbn [orm database trace].
    by destruct (PrepareContext _ _ _) as [[stmt|e] d].
Qed.

End Cleanup.

End CleanupFacts.

(** ** The user repository *)
Module RepositoryFacts.
Import GoRuntime Orm OrmSpec OrmExtra GoRuntimeFacts OrmFacts ExecutorFacts.

Section UserRepository.
Variable unicode_upper_table : rune -> rune.
Variable DB : Type.
Variable Stmt : Type.
Variable PrepareContext : Context -> string -> DB -> result Stmt * DB.
Variable QueryContext : Stmt -> Context -> list any -> DB -> result Rows * DB.
Variable RowsClose : Rows -> DB -> DB.

Local Abbreviation World := (World DB Stmt).
Local Abbreviation prepareQuery := (Orm.prepareQuery DB Stmt PrepareContext).
Local Abbreviation Get :=
  (Orm.Get DB Stmt PrepareContext QueryContext RowsClose).
Local Abbreviation First :=
  (Orm.First DB Stmt PrepareContext QueryContext RowsClose).
Local Abbreviation Create :=
  (Orm.Create DB Stmt PrepareContext QueryContext RowsClose).
Local Abbreviation repo_Create :=
  (OrmExtra.repo_Create DB Stmt PrepareContext QueryContext RowsClose).
Local Abbreviation repo_GetByID :=
  (OrmExtra.repo_GetByID unicode_upper_table DB Stmt PrepareContext
     QueryContext RowsClose).

(** The builder of [GetByID] before [First]. *)
Local Abbreviation by_id c id :=
  (with_query (fun q => set_wheres
     [ {| column := "id"; operator := "="; value := Int id |} ] q)
     (Select ["id"; "username"; "email"; "password"]
        (WithContext c (Table "users")))).

Lemma GetByID_builder c id :
  Where unicode_upper_table "id" "=" (Int id)
    (Select ["id"; "username"; "email"; "password"]
       (WithContext c (Table "users")))
  = Returns (by_id c id).
Proof. reflexivity. Qed.

Lemma GetByID_statement c id :
  buildSelectQuery (with_query (set_limit 1) (by_id c id))
  = ("SELECT id, username, email, password FROM users WHERE id = $1 LIMIT 1",
     [Int id]).
Proof. reflexivity. Qed.

(** X22. [GetByID] never panics: its operator is in the allow-list. It
    runs the one statement
    [SELECT id, username, email, password FROM users WHERE id = $1 LIMIT 1]
    with the identifier as its only argument, under the context it was
    given, and nothing else: it asks [prepareQuery] for that text, which
    prepares it under that context when it is not in the cache; it
    queries the statement once with the identifier, closes the rows it
    is answered, and writes the log line when logging is on. It returns
    the first record, and an error of [First] behind [user not found]
    when it is or wraps [sql.ErrNoRows] and behind [error getting user]
    when it does not. *)
Theorem GetByID_runs_one_statement (c : Context) (id : Z) (w : World) :
  let text :=
    "SELECT id, username, email, password FROM users WHERE id = $1 LIMIT 1" in
  let wrap err :=
    Errorf_w (if errors_Is err sql_ErrNoRows
              then "user not found" else "error getting user") err in
  let log (w' : World) :=
    if queryLog (orm w) then and_event (Logged text [Int id]) w' else w' in
  repo_GetByID c id w
  = match prepareQuery (WithContext c (Table "users")) text w with
    | (Err e, w1) =>
      (Returns (Err (wrap (Errorf_w "prepare query error" e))), log w1)
    | (Ok stmt, w1) =>
      match QueryContext stmt c [Int id] (database w1) with
      | (Err e, d) =>
        (Returns (Err (wrap (Errorf_w "query error" e))),
         log {| orm := orm w1; database := d;
                trace := trace w1 ++ [Queried text stmt c [Int id]] |})
      | (Ok rows, d) =>
        (Returns match scanRows rows with
                 | Err e => Err (wrap e)
                 | Ok [] => Err (wrap ErrNoRows)
                 | Ok (first :: _) => Ok first
                 end,
         log {| orm := orm w1; database := RowsClose rows d;
                trace := trace w1
                  ++ [Queried text stmt c [Int id]; Closed rows] |})
      end
    end
  /\ trace (prepareQuery (WithContext c (Table "users")) text w).2
     = trace w ++ match prepared (orm w) !! text with
                  | Some _ => []
                  | None => [Prepared c text]
                  end
  /\ forall e, (repo_GetByID c id w).1 <> Panics e.
Proof.
  cbv zeta.
  set (text := "SELECT id, username, email, password FROM users WHERE id = $1 LIMIT 1").
  assert (repo_GetByID c id w
          = match prepareQuery (WithContext c (Table "users")) text w with
            | (Err e, w1) =>
              (Returns (Err (Errorf_w
                 (if errors_Is (Errorf_w "prepare query error" e) sql_ErrNoRows
                  then "user not found" else "error getting user")
                 (Errorf_w "prepare query error" e))),
               if queryLog (orm w)
               then and_event (Logged text [Int id]) w1 else w1)
            | (Ok stmt, w1) =>
              match QueryContext stmt c [Int id] (database w1) with
              | (Err e, d) =>
                (Returns (Err (Errorf_w
                   (if errors_Is (Errorf_w "query error" e) sql_ErrNoRows
                    then "user not found" else "error getting user")
                   (Errorf_w "query error" e))),
                 let w2 := {| orm := orm w1; database := d;
                              trace := trace w1
                                ++ [Queried text stmt c [Int id]] |} in
                 if queryLog (orm w)
                 then and_event (Logged text [Int id]) w2 else w2)
              | (Ok rows, d) =>
                (Returns match scanRows rows with
                         | Err e =>
                           Err (Errorf_w
                             (if errors_Is e sql_ErrNoRows
                              then "user not found" else "error getting user")
                             e)
                         | Ok [] =>
                           Err (Errorf_w
                             (if errors_Is ErrNoRows sql_ErrNoRows
                              then "user not found" else "error getting user")
                             ErrNoRows)
                         | Ok (first :: _) => Ok first
                         end,
                 let w2 := {| orm := orm w1; database := RowsClose rows d;
                              trace := trace w1
                                ++ [Queried text stmt c [Int id];
                                    Closed rows] |} in
                 if queryLog (orm w)
                 then and_event (Logged text [Int id]) w2 else w2)
              end
            end) as Hrun.
  { unfold OrmExtra.repo_GetByID. rewrite GetByID_builder.
    rewrite First_of_Get. cbv zeta. unfold Orm.Get.
    rewrite GetByID_statement. fold text.
    change (Orm.prepareQuery DB Stmt PrepareContext
              (with_query (set_limit 1) (by_id c id)))
      with (prepareQuery (WithContext c (Table "users"))).
    unfold with_deferred_log, bind.
    destruct (prepareQuery (WithContext c (Table "users")) text w)
      as [[stmt|e] w1];
      unfold emit, call, ret, logQuery, emit, with_deferred_close, bind, emit,
        call, ret, and_event;
      cbn [orm database trace queryLog prepared ctx with_query Select
           WithContext].
    - destruct (QueryContext stmt c [Int id] (database w1)) as [[rows|e] d];
        destruct (queryLog (orm w));
        try destruct (scanRows rows) as [[|first rest]|e'];
        cbn [orm database trace];
        repeat match goal with
               | |- context [errors_Is ?a ?b] => destruct (errors_Is a b)
               end;
        by rewrite <- ?app_assoc.
    - destruct (queryLog (orm w)), (errors_Is _ _); reflexivity. }
  split; [exact Hrun|]. split.
  - destruct (prepareQuery_cases DB Stmt PrepareContext
                (WithContext c (Table "users")) text w)
      as [(s & Hc & E)|[(s & d & Hc & Hp & E)|(e & d & Hc & Hp & E)]];
      rewrite E, Hc; cbn [snd trace ctx WithContext]; by rewrite ?app_nil_r.
  - intros e. rewrite Hrun.
    destruct (prepareQuery (WithContext c (Table "users")) text w)
      as [[stmt|e'] w1]; [|done].
    by destruct (QueryContext stmt c [Int id] (database w1)) as [[rows|e'] d].
Qed.

(** X23. When the query of [GetByID] is answered with no row, the error
    of [First] is the [ErrNoRows] of the package, which is not
    [sql.ErrNoRows]: [GetByID] returns [error getting user: no rows
    found], and not the [user not found] error it keeps for
    [sql.ErrNoRows]. *)
Theorem GetByID_no_row (c : Context) (id : Z) (w : World) (stmt : Stmt)
    (w1 : World) (rows : Rows) (d : DB)
    (Hprep : prepareQuery (WithContext c (Table "users"))
               "SELECT id, username, email, password FROM users WHERE id = $1 LIMIT 1"
               w = (Ok stmt, w1))
    (Hquery : QueryContext stmt c [Int id] (database w1) = (Ok rows, d))
    (Hrows : scanRows rows = Ok []) :
  (repo_GetByID c id w).1
  = Returns (Err (Errorf_w "error getting user" ErrNoRows))
  /\ Error (Errorf_w "error getting user" ErrNoRows)
     = "error getting user: no rows found"
  /\ errors_Is (Errorf_w "error getting user" ErrNoRows) sql_ErrNoRows = false
  /\ errors_Is (Errorf_w "error getting user" ErrNoRows) ErrNoRows = true.
Proof.
  split; [|by vm_compute].
  unfold OrmExtra.repo_GetByID. rewrite GetByID_builder.
  rewrite First_of_Get. cbv zeta.
  rewrite (Get_answered DB Stmt PrepareContext QueryContext RowsClose
             (with_query (set_limit 1) (by_id c id)) w stmt w1 rows d);
    [|exact Hprep|exact Hquery].
  by rewrite Hrows.
Qed.

Lemma user_newData user now :
  newData (user_fields user) now
  = list_to_map [ ("username", Str (UserName user));
                  ("email", Str (Email user));
                  ("password", Str (Password user));
                  ("created_at", now); ("updated_at", now) ].
Proof.
  apply map_eq. intros k. rewrite newData_lookup. unfold user_fields.
  cbn [list_to_map foldr uncurry fst snd].
  destruct (decide (k = "username")) as [->|];
    [by rewrite !lookup_insert_eq|rewrite !(lookup_insert_ne _ "username") by done].
  destruct (decide (k = "email")) as [->|];
    [by rewrite !lookup_insert_eq|rewrite !(lookup_insert_ne _ "email") by done].
  destruct (decide (k = "password")) as [->|];
    [by rewrite !lookup_insert_eq|rewrite !(lookup_insert_ne _ "password") by done].
  rewrite lookup_empty.
  destruct (decide (k = "created_at")) as [->|];
    [by rewrite lookup_insert_eq, decide_True by auto|].
  rewrite lookup_insert_ne by done.
  destruct (decide (k = "updated_at")) as [->|];
    [by rewrite lookup_insert_eq, decide_True by auto|].
  rewrite lookup_insert_ne, lookup_empty by done.
  rewrite decide_False; [done|]. by intros [->| ->].
Qed.

(** X24. [Create] of the repository does not use the context it is
    given: every call it makes into the driver goes under the
    background context. It hands [Create] the three fields of the
    payload, so that the map is never refused as empty, and the
    entries that [Create] ranges over and inserts are these three and
    the two timestamps: once the statement is prepared, the driver is
    called with the INSERT over these five entries and their values,
    and the result and the database are what the driver answered. An
    error comes back behind the prefix [error creating user]. *)
Theorem repo_Create_uses_background (c : Context) (user : CreateUserPayload)
    (now : any) (range_over : gmap string any -> list (string * any))
    (w : World)
    (Hrange : range_order (newData (user_fields user) now)
                (range_over (newData (user_fields user) now))) :
  let kvs := range_over (newData (user_fields user) now) in
  kvs ≡ₚ [ ("username", Str (UserName user)); ("email", Str (Email user));
           ("password", Str (Password user));
           ("created_at", now); ("updated_at", now) ]
  /\ (forall stmt w1 r d,
        prepareQuery (Table "users") (insert_spec (Table "users") kvs).1 w
          = (Ok stmt, w1) ->
        QueryContext stmt Background kvs.*2 (database w1) = (r, d) ->
        (repo_Create c user now range_over w).1
        = match r with
          | Err e =>
            Err (Errorf_w "error creating user" (Errorf_w "create error" e))
          | Ok rows =>
            match scanRows rows with
            | Err e =>
              Err (Errorf_w "error creating user" (Errorf_w "scan error" e))
            | Ok [] =>
              Err (Errorf_w "error creating user"
                     (Errorf "no data returned after insert"))
            | Ok (first :: _) => Ok first
            end
          end
        /\ database (repo_Create c user now range_over w).2
           = match r with Err _ => d | Ok rows => RowsClose rows d end
        /\ trace (repo_Create c user now range_over w).2
           = trace w1
             ++ [Queried (insert_spec (Table "users") kvs).1 stmt
                   Background kvs.*2]
             ++ match r with Err _ => [] | Ok rows => [Closed rows] end
             ++ (if queryLog (orm w)
                 then [Logged (insert_spec (Table "users") kvs).1 kvs.*2]
                 else []))
  /\ (exists tl,
        trace (repo_Create c user now range_over w).2 = trace w ++ tl
        /\ Forall (fun ev =>
                     match ev with
                     | Prepared c' _ | Queried _ _ c' _ | Executed _ _ c' _ =>
                       c' = Background
                     | Closed _ | Logged _ _ => True
                     end) tl)
  /\ (forall err, (repo_Create c user now range_over w).1 = Err err ->
        exists cause,
          err = Errorf_w "error creating user" cause
          /\ cause <> ErrInvalidValue).
Proof.
  cbv zeta. set (kvs := range_over (newData (user_fields user) now)) in *.
  assert (user_fields user <> ∅) as Hne by apply insert_non_empty.
  assert (kvs ≡ₚ [ ("username", Str (UserName user));
                   ("email", Str (Email user));
                   ("password", Str (Password user));
                   ("created_at", now); ("updated_at", now) ]) as Hkvs.
  { unfold range_order in Hrange. rewrite Hrange, user_newData.
    apply map_to_list_to_map. cbn [fmap list_fmap fst].
    repeat (apply NoDup_cons; split;
            [intros H; repeat (apply elem_of_cons in H as [H|H]; [done|]);
             by apply elem_of_nil in H|]).
    apply NoDup_nil_2. }
  split; [exact Hkvs|]. split.
  { intros stmt w1 r d Hprep Hquery.
    assert (Create_query (Table "users") kvs = insert_spec (Table "users") kvs)
      as Hq.
    { apply Create_query_spec. unfold len.
      apply Permutation_length in Hkvs. rewrite Hkvs. by vm_compute. }
    change (kvs.*2) with (insert_spec (Table "users") kvs).2 in *.
    rewrite <- Hq in *.
    destruct (Create_answered DB Stmt PrepareContext QueryContext RowsClose
                (Table "users") (user_fields user) now range_over
                w stmt w1 r d Hne Hprep Hquery) as (Hr & _ & Hd & Ht).
    unfold OrmExtra.repo_Create.
    destruct (Orm.Create _ _ _ _ _ _ _ _ _ w) as [r' w'].
    cbn [fst snd] in *. subst r'.
    destruct r as [rows|e]; [destruct (scanRows rows) as [[|first rest]|e']|];
      by repeat split. }
  unfold OrmExtra.repo_Create, Orm.Create.
  rewrite len_map_nonempty by done. fold kvs.
  destruct (Create_query (Table "users") kvs) as [q values].
  unfold with_deferred_log, bind.
  destruct (prepareQuery_cases DB Stmt PrepareContext (Table "users") q w)
    as [(s & Hc & E)|[(s & d & Hc & Hp & E)|(e & d & Hc & Hp & E)]];
    rewrite !E;
    unfold emit, call, ret, logQuery, emit, with_deferred_close, bind, emit,
      call, ret;
    cbn [orm database trace queryLog prepared ctx Table].
  - destruct (QueryContext s Background values (database w))
      as [[rows|e] d]; destruct (queryLog (orm w));
      try destruct (scanRows rows) as [[|first rest]|e'];
      cbn [fst snd trace].
    all: split;
      [eexists; split; [by rewrite <- ?app_assoc|by repeat constructor]|].
    all: intros err [= <-]; by eexists.
  - destruct (QueryContext s Background values d)
      as [[rows|e] d']; destruct (queryLog (orm w));
      try destruct (scanRows rows) as [[|first rest]|e'];
      cbn [fst snd trace].
    all: split;
      [eexists; split; [by rewrite <- ?app_assoc|by repeat constructor]|].
    all: intros err [= <-]; by eexists.
  - destruct (queryLog (orm w)); cbn [fst snd trace].
    all: split;
      [eexists; split; [by rewrite <- ?app_assoc|by repeat constructor]|].
    all: intros err [= <-]; by eexists.
Qed.

End UserRepository.

End RepositoryFacts.

(** ** The further theorems at work on the example database *)
Module MoreWitnesses.
Import GoRuntime Orm OrmSpec OrmExtra GoRuntimeFacts OrmFacts.

Lemma Where_ignores_ascii_case_witness :
  all_bytes (fun a => byte_val a <? RuneSelf) "like" = true
  /\ Where Example.unicode_upper_table "name" "like" (Str "a%") (Table "users")
     = Where Example.unicode_upper_table "name" "LIKE" (Str "a%")
         (Table "users").
Proof.
  split; [reflexivity|].
  destruct (OrmExtraFacts.Where_ignores_ascii_case
              Example.unicode_upper_table "name" "like" (Str "a%")
              (Table "users")) as [H _]; [reflexivity|].
  exact H.
Defined.

Lemma users_by_id_built :
  built Example.unicode_upper_table "users" Example.users_by_id.
Proof.
  eapply built_OrWhere with (column := "id") (op := "=") (v := Int 2);
    [eapply built_Where with (column := "id") (op := "=") (v := Int 1);
     [apply built_Table|reflexivity]|reflexivity].
Defined.

Lemma built_where_clause_bytes_witness :
  built Example.unicode_upper_table "users" Example.users_by_id
  /\ (buildWhereClause Example.users_by_id 1).1 = " WHERE id = $1 OR id = $2"
  /\ all_bytes clause_byte (buildWhereClause Example.users_by_id 1).1 = true.
Proof.
  split; [exact users_by_id_built|]. split; [reflexivity|].
  destruct (OrmExtraFacts.built_where_clause_bytes
              Example.unicode_upper_table "users" Example.users_by_id 1)
    as [H _]; [exact users_by_id_built|lia|by vm_compute|].
  exact H.
Defined.

Lemma buildSelectQuery_follows_clauses_witness :
  len (concat (join_args <$> joins (query Example.users_by_id)))
    + len (wheres (query Example.users_by_id))
    + len (orWheres (query Example.users_by_id)) <= MaxInt
  /\ buildSelectQuery Example.users_by_id
     = ("SELECT users.* FROM users WHERE id = $1 OR id = $2", [Int 1; Int 2]).
Proof.
  split; [by vm_compute|].
  destruct (OrmExtraFacts.buildSelectQuery_follows_clauses
              Example.users_by_id) as [H _]; [by vm_compute|].
  rewrite H. by vm_compute.
Defined.

Lemma First_appends_limit_witness :
  limit (query Example.users_by_id) <= 0
  /\ offset (query Example.users_by_id) <= 0
  /\ buildSelectQuery (with_query (set_limit 1) Example.users_by_id)
     = ("SELECT users.* FROM users WHERE id = $1 OR id = $2 LIMIT 1",
        [Int 1; Int 2]).
Proof.
  split; [by vm_compute|]. split; [by vm_compute|].
  destruct (OrmExtraFacts.First_appends_limit Example.users_by_id)
    as [H _]; [by vm_compute..|].
  rewrite H. by vm_compute.
Defined.

Lemma built_select_shape_witness :
  built Example.unicode_upper_table "users"
    (with_query (set_limit 1) Example.users_by_id)
  /\ (buildSelectQuery (with_query (set_limit 1) Example.users_by_id)).2
     = [Int 1; Int 2].
Proof.
  assert (built Example.unicode_upper_table "users"
            (with_query (set_limit 1) Example.users_by_id)) as Hb.
  { apply built_First. exact users_by_id_built. }
  split; [exact Hb|].
  destruct (OrmExtraFacts.built_select_shape Example.unicode_upper_table
              "users" (with_query (set_limit 1) Example.users_by_id))
    as [_ H]; [exact Hb|by vm_compute|].
  rewrite H. by vm_compute.
Defined.

Lemma prepareQuery_then_cached_witness :
  (Orm.prepareQuery Example.DB Example.Stmt Example.PrepareContext
     (Table "users") "SELECT 1" Example.fresh).1 = Ok "SELECT 1"
  /\ (Orm.prepareQuery Example.DB Example.Stmt Example.PrepareContext
        (WithContext (Derived 1) (Table "users")) "SELECT 1"
        (Orm.prepareQuery Example.DB Example.Stmt Example.PrepareContext
           (Table "users") "SELECT 1" Example.fresh).2).1 = Ok "SELECT 1"
  /\ trace (Orm.prepareQuery Example.DB Example.Stmt Example.PrepareContext
              (WithContext (Derived 1) (Table "users")) "SELECT 1"
              (Orm.prepareQuery Example.DB Example.Stmt Example.PrepareContext
                 (Table "users") "SELECT 1" Example.fresh).2).2
     = [Prepared Background "SELECT 1"].
Proof.
  split; [reflexivity|].
  destruct (ExecutorFacts.prepareQuery_then_cached Example.DB Example.Stmt
              Example.PrepareContext (Table "users")
              (WithContext (Derived 1) (Table "users")) "SELECT 1"
              Example.fresh
              (Orm.prepareQuery Example.DB Example.Stmt Example.PrepareContext
                 (Table "users") "SELECT 1" Example.fresh).2 "SELECT 1")
    as (_ & H & Ht); [reflexivity|].
  rewrite H. split; [reflexivity|]. cbn [snd]. by rewrite Ht.
Defined.

Lemma Get_closes_rows_witness :
  (Orm.prepareQuery Example.DB Example.Stmt Example.PrepareContext
     Example.users_by_id (buildSelectQuery Example.users_by_id).1
     Example.fresh).1
  = Ok "SELECT users.* FROM users WHERE id = $1 OR id = $2"
  /\ trace (Orm.Get Example.DB Example.Stmt Example.PrepareContext
              Example.QueryContext Example.RowsClose
              Example.users_by_id Example.fresh).2
     = [ Prepared Background
           "SELECT users.* FROM users WHERE id = $1 OR id = $2";
         Queried "SELECT users.* FROM users WHERE id = $1 OR id = $2"
           "SELECT users.* FROM users WHERE id = $1 OR id = $2"
           Background [Int 1; Int 2];
         Closed Example.no_rows ].
Proof.
  split; [reflexivity|].
  destruct (ExecutorFacts.Get_closes_rows Example.DB Example.Stmt
              Example.PrepareContext Example.QueryContext Example.RowsClose
              Example.users_by_id Example.fresh
              "SELECT users.* FROM users WHERE id = $1 OR id = $2"
              (Orm.prepareQuery Example.DB Example.Stmt
                 Example.PrepareContext Example.users_by_id
                 (buildSelectQuery Example.users_by_id).1 Example.fresh).2
              Example.no_rows tt) as (_ & _ & _ & H);
    [reflexivity|reflexivity|].
  rewrite H. reflexivity.
Defined.

Lemma Get_error_causes_witness :
  (Orm.Get Example.DB Example.Stmt MoreExamples.PrepareContext_refusing
     Example.QueryContext Example.RowsClose
     Example.users_by_id Example.fresh).1
  = Err (Errorf_w "prepare query error" (SqlError "syntax error"))
  /\ Error (Errorf_w "prepare query error" (SqlError "syntax error"))
     = "prepare query error: syntax error".
Proof.
  split; [reflexivity|].
  destruct (ExecutorFacts.Get_error_causes Example.DB Example.Stmt
              MoreExamples.PrepareContext_refusing Example.QueryContext Example.RowsClose
              Example.users_by_id Example.fresh
              (Errorf_w "prepare query error" (SqlError "syntax error")))
    as [(e & He & _ & Htext)
       |[(stmt & w1 & e & Hp & _)|(stmt & w1 & rows & Hp & _)]];
    [reflexivity|..].
  - injection He as <-. exact Htext.
  - discriminate Hp.
  - discriminate Hp.
Defined.

Lemma Create_returns_first_row_witness :
  Example.alice <> ∅
  /\ (Orm.Create Example.DB Example.Stmt Example.PrepareContext
        Example.QueryContext Example.RowsClose
        (Table "users") Example.alice (Time 7) map_to_list Example.fresh).1
     = Err (Errorf "no data returned after insert").
Proof.
  assert (Example.alice <> ∅) as Hne by apply insert_non_empty.
  split; [exact Hne|].
  destruct (ExecutorFacts.Create_returns_first_row Example.DB Example.Stmt
              Example.PrepareContext Example.QueryContext Example.RowsClose
              (Table "users") Example.alice (Time 7) map_to_list Example.fresh
              (Create_query (Table "users")
                 (map_to_list (newData Example.alice (Time 7)))).1
              (Orm.prepareQuery Example.DB Example.Stmt
                 Example.PrepareContext (Table "users")
                 (Create_query (Table "users")
                    (map_to_list (newData Example.alice (Time 7)))).1
                 Example.fresh).2
              Example.no_rows tt) as (H & _);
    [exact Hne|by vm_compute|reflexivity|].
  rewrite H. reflexivity.
Defined.

Lemma Delete_without_predicates_witness :
  wheres (query (Table "users")) = []
  /\ Delete_query (Table "users") = ("DELETE FROM users", [])
  /\ (Orm.Delete Example.DB Example.Stmt Example.PrepareContext
        Example.ExecContext (Table "users") Example.fresh).1 = Ok 1.
Proof.
  split; [reflexivity|].
  destruct (ExecutorFacts.Delete_without_predicates Example.DB Example.Stmt
              Example.PrepareContext Example.ExecContext
              (Table "users") Example.fresh "DELETE FROM users"
              (Orm.prepareQuery Example.DB Example.Stmt
                 Example.PrepareContext (Table "users")
                 "DELETE FROM users" Example.fresh).2)
    as (Hq & Hr & _); [reflexivity..|].
  split; [exact Hq|]. rewrite Hr. reflexivity.
Defined.

Lemma GetByID_no_row_witness :
  scanRows Example.no_rows = Ok []
  /\ (repo_GetByID Example.unicode_upper_table Example.DB Example.Stmt
        Example.PrepareContext Example.QueryContext Example.RowsClose
        (Derived 1) 7 Example.fresh).1
     = Returns (Err (Errorf_w "error getting user" ErrNoRows)).
Proof.
  split; [reflexivity|].
  destruct (RepositoryFacts.GetByID_no_row Example.unicode_upper_table
              Example.DB Example.Stmt Example.PrepareContext
              Example.QueryContext Example.RowsClose (Derived 1) 7
              Example.fresh
              "SELECT id, username, email, password FROM users WHERE id = $1 LIMIT 1"
              (Orm.prepareQuery Example.DB Example.Stmt
                 Example.PrepareContext (WithContext (Derived 1) (Table "users"))
                 "SELECT id, username, email, password FROM users WHERE id = $1 LIMIT 1"
                 Example.fresh).2
              Example.no_rows tt) as (H & _);
    [reflexivity..|].
  exact H.
Defined.

Lemma repo_Create_uses_background_witness :
  range_order (newData (user_fields MoreExamples.bob) (Time 7))
    (map_to_list (newData (user_fields MoreExamples.bob) (Time 7)))
  /\ map_to_list (newData (user_fields MoreExamples.bob) (Time 7))
     ≡ₚ [ ("username", Str "bob"); ("email", Str "b@x.com");
          ("password", Str "p");
          ("created_at", Time 7); ("updated_at", Time 7) ]
  /\ (repo_Create Example.DB Example.Stmt Example.PrepareContext
        Example.QueryContext Example.RowsClose (Derived 1) MoreExamples.bob
        (Time 7) map_to_list Example.fresh).1
     = Err (Errorf_w "error creating user"
              (Errorf "no data returned after insert")).
Proof.
  assert (range_order (newData (user_fields MoreExamples.bob) (Time 7))
            (map_to_list (newData (user_fields MoreExamples.bob) (Time 7))))
    as Ho by (by unfold range_order).
  split; [exact Ho|].
  destruct (RepositoryFacts.repo_Create_uses_background Example.DB
              Example.Stmt Example.PrepareContext Example.QueryContext
              Example.RowsClose (Derived 1) MoreExamples.bob (Time 7)
              map_to_list Example.fresh Ho) as (Hk & Hrun & _ & _).
  split; [exact Hk|].
  destruct (Hrun
              (insert_spec (Table "users")
                 (map_to_list
                    (newData (user_fields MoreExamples.bob) (Time 7)))).1
              (Orm.prepareQuery Example.DB Example.Stmt
                 Example.PrepareContext (Table "users")
                 (insert_spec (Table "users")
                    (map_to_list
                       (newData (user_fields MoreExamples.bob) (Time 7)))).1
                 Example.fresh).2
              (Ok Example.no_rows) tt) as (Hres & _);
    [by vm_compute | reflexivity |].
  rewrite Hres. reflexivity.
Defined.

End MoreWitnesses.
